(** * The event pipeline runner of the plugin server

    A shallow embedding of [EventPipelineRunner] (the ingestion event
    pipeline: [runEventPipeline], [runEventPipelineSteps], [runStep],
    [handleError]) and the properties of its control flow: which result a
    run ends with, which errors leave the pipeline, and which writes to the
    dead letter queue and to the ingestion warnings it makes.

    The runner is a class with two mutable fields, asynchronous methods and
    exceptions.  Its methods are embedded in a monad [M] that threads the
    runner object, ends normally or abruptly (a thrown value), and records
    every interaction with the outside (counters, logs, Sentry, the awaited
    steps and their settlement, the Kafka producer) in a trace, in the order
    they happen.  One run handles one event on one logical thread, so
    [await] is sequencing. *)

From Stdlib Require Import ZArith List Bool.
From stdpp Require Import base gmap strings list pretty.

Open Scope string_scope.
Open Scope Z_scope.
Open Scope list_scope.

(** ** JavaScript data *)

(** The values an event property can hold, as far as the runner looks at
    them: it only compares [$process_person] with the booleans. *)
Inductive js_value : Type :=
  | JUndefined
  | JNull
  | JBool (b : bool)
  | JNumber (n : Z)
  | JString (s : string).

#[global] Instance js_value_eq_dec : EqDecision js_value.
Proof. solve_decision. Defined.

(** [PipelineEvent]: the event as it comes from the queue; the team may
    still be unknown ([team_id?: number | null]) and a token may be there. *)
Module PipelineEvent.
Record t : Type := mk {
  token : option string;
  team_id : option Z;
  distinct_id : string;
  event : string;
  uuid : string;
  properties : option (gmap string js_value)
}.
End PipelineEvent.

(** [PluginEvent]: the event once the team is resolved. *)
Module PluginEvent.
Record t : Type := mk {
  team_id : Z;
  distinct_id : string;
  event : string;
  uuid : string;
  properties : option (gmap string js_value)
}.
End PluginEvent.

(** Thrown [Error] objects.  The runner looks at two things only: whether
    the error is an instance of [DependencyUnavailableError], and its
    [message]. *)
Inductive ErrorClass : Type :=
  | DependencyUnavailableError
  | OtherError.

Record JsError : Type := mkError {
  error_class : ErrorClass;
  error_message : string
}.

(** A settled promise. *)
Inductive Settled (A : Type) : Type :=
  | Resolved (a : A)
  | Rejected (e : JsError).
Arguments Resolved {A} a.
Arguments Rejected {A} e.

(** An ingestion warning as handed to [captureIngestionWarning]. *)
Record IngestionWarning : Type := mkWarning {
  warning_team_id : Z;
  warning_type : string;
  warning_details : list (string * js_value);
  alwaysSend : bool
}.

(** The promises collected in [kafkaAcks]: the one [captureIngestionWarning]
    returns for a warning, or the one [createEventStep] hands back. *)
Inductive AckPromise : Type :=
  | WarningAck (w : IngestionWarning)
  | ProducerAck (id : Z).

Section Runner.

(** The types of the other modules of the plugin server that only pass
    through the runner. *)
Context {DateTime Person PreIngestionEvent RawClickHouseEvent ProducerRecord : Type}.

(** An element of an [any[]] argument list. *)
Inductive Arg : Type :=
  | ArgThis
  | ArgPipelineEvent (e : PipelineEvent.t)
  | ArgPluginEvent (e : PluginEvent.t)
  | ArgBool (b : bool)
  | ArgDateTime (d : DateTime)
  | ArgPerson (p : Person)
  | ArgPreIngestionEvent (e : PreIngestionEvent)
  | ArgRawClickHouseEvent (e : RawClickHouseEvent).

(** What can be thrown inside the runner: the private [StepErrorNoRetry]
    (the class is not exported, so no step can throw it), or an error that
    came from outside. *)
Inductive Exn : Type :=
  | StepErrorNoRetry (step : string) (args : list Arg) (message : string)
  | Thrown (e : JsError).

Definition exn_message (x : Exn) : string :=
  match x with
  | StepErrorNoRetry _ _ m => m
  | Thrown e => error_message e
  end.

(** [EventPipelineResult]. [ackPromises] and [error] are optional fields. *)
Record EventPipelineResult : Type := mkResult {
  ackPromises : option (list AckPromise);
  lastStep : string;
  args : list Arg;
  error : option string
}.

(** The part of [Hub] the runner reads.  [queueMessage] is
    [hub.db.kafkaProducer!.queueMessage]: the promise it returns resolves
    or rejects. *)
Record Hub : Type := mkHub {
  eventsToDropByToken : option (gmap string (list string));
  poeEmbraceJoinForTeams : option (Z -> bool);
  POE_WRITES_ENABLED_MAX_TEAM_ID : Z;
  poeWritesExcludeTeams : Z -> bool;
  PIPELINE_STEP_STALLED_LOG_TIMEOUT : Z;
  queueMessage : ProducerRecord -> Settled unit
}.

(** The fields of the class [EventPipelineRunner]. *)
Record EventPipelineRunner : Type := mkRunner {
  hub : Hub;
  originalEvent : PipelineEvent.t;
  poEEmbraceJoin : bool
}.

(** [constructor(hub, event, poEEmbraceJoin = false)]. *)
Definition constructor (h : Hub) (ev : PipelineEvent.t) (flag : option bool)
  : EventPipelineRunner :=
  {| hub := h; poEEmbraceJoin := default false flag; originalEvent := ev |}.

(** The imported step functions and helpers.  A step called with [this]
    reads the runner and does not assign its fields; the promise of a step
    resolves or rejects.  [normalizeProcessPerson] and
    [generateEventDeadLetterQueueMessage] are synchronous helpers that
    build a value from their arguments. *)
Record Collaborators : Type := mkCollaborators {
  populateTeamDataStep :
    EventPipelineRunner -> PipelineEvent.t -> Settled (option PluginEvent.t);
  pluginsProcessEventStep :
    EventPipelineRunner -> PluginEvent.t -> bool -> Settled (option PluginEvent.t);
  normalizeEventStep :
    PluginEvent.t -> bool -> Settled (PluginEvent.t * DateTime);
  processPersonsStep :
    EventPipelineRunner -> PluginEvent.t -> DateTime -> bool ->
    Settled (PluginEvent.t * Person);
  prepareEventStep :
    EventPipelineRunner -> PluginEvent.t -> bool -> Settled PreIngestionEvent;
  createEventStep :
    EventPipelineRunner -> PreIngestionEvent -> Person -> bool ->
    Settled (RawClickHouseEvent * AckPromise);
  normalizeProcessPerson : PluginEvent.t -> bool -> PluginEvent.t;
  generateEventDeadLetterQueueMessage :
    PipelineEvent.t -> Exn -> Z -> string -> ProducerRecord
}.

(** ** Effects *)

Record SentryScope : Type := mkScope {
  tag_team_id : option Z;
  tag_pipeline_step : option string
}.

(** One interaction with the outside.  [StepAwaited] is [await step(...args)]
    with how the promise settled; [QueueMessage] is the producer call in
    [handleError] with how it settled. *)
Inductive Effect : Type :=
  | CounterInc (counter : string) (labels : list string)
  | SummaryObserve (summary : string) (label : string)
  | StatusError (tag : string) (step : string) (err : Exn)
  | StatusInfo (text : string) (err : Exn)
  | SentryCapture (err : Exn) (scope : SentryScope)
  | SpanStart (op : string) (description : string)
  | TimeoutGuard (step : string) (teamId : Z) (distinctId : string) (ms : Z)
  | ClearTimeout
  | StepAwaited (step : string) (args : list Arg) (rejection : option JsError)
  | CaptureIngestionWarning (w : IngestionWarning)
  | QueueMessage (m : ProducerRecord) (waitForAck : bool) (rejection : option JsError).

(** ** The monad of the methods *)

Inductive Completion (A : Type) : Type :=
  | Normal (a : A)
  | Abrupt (x : Exn).
Arguments Normal {A} a.
Arguments Abrupt {A} x.

Definition M (A : Type) : Type :=
  EventPipelineRunner -> Completion A * EventPipelineRunner * list Effect.

Definition ret {A} (a : A) : M A := fun r => (Normal a, r, []).

Definition throw {A} (x : Exn) : M A := fun r => (Abrupt x, r, []).

Definition bind {A B} (m : M A) (k : A -> M B) : M B := fun r =>
  match m r with
  | (Normal a, r1, t1) => let '(c, r2, t2) := k a r1 in (c, r2, t1 ++ t2)
  | (Abrupt x, r1, t1) => (Abrupt x, r1, t1)
  end.

(** [try { m } catch (x) { h x }]. *)
Definition try_catch {A} (m : M A) (h : Exn -> M A) : M A := fun r =>
  match m r with
  | (Normal a, r1, t1) => (Normal a, r1, t1)
  | (Abrupt x, r1, t1) => let '(c, r2, t2) := h x r1 in (c, r2, t1 ++ t2)
  end.

(** [try { m } finally { f }], for a [finally] block made of effects only. *)
Definition try_finally {A} (m : M A) (f : list Effect) : M A := fun r =>
  let '(c, r1, t1) := m r in (c, r1, t1 ++ f).

Definition emit (e : Effect) : M unit := fun r => (Normal tt, r, [e]).

Definition this : M EventPipelineRunner := fun r => (Normal r, r, []).

Definition set_originalEvent (ev : PipelineEvent.t) : M unit := fun r =>
  (Normal tt,
   {| hub := hub r; originalEvent := ev; poEEmbraceJoin := poEEmbraceJoin r |},
   []).

Definition set_poEEmbraceJoin (b : bool) : M unit := fun r =>
  (Normal tt,
   {| hub := hub r; originalEvent := originalEvent r; poEEmbraceJoin := b |},
   []).

(** The promise of an awaited call: resolve to its value, or throw. *)
Definition settle {A} (p : Settled A) : M A :=
  match p with
  | Resolved a => ret a
  | Rejected e => throw (Thrown e)
  end.

Definition rejection {A} (p : Settled A) : option JsError :=
  match p with
  | Resolved _ => None
  | Rejected e => Some e
  end.

Notation "x <- m ;; k" := (bind m (fun x => k))
  (at level 100, m at next level, right associativity).
Notation "m ;; k" := (bind m (fun _ => k))
  (at level 100, right associativity).

(** ** The methods of [EventPipelineRunner] *)

Variable ext : Collaborators.

(** [x || y] on an optional string: the empty string is falsy. *)
Definition truthy_string (s : option string) : option string :=
  match s with
  | Some "" => None
  | other => other
  end.

(** [const key = event.token || event.team_id?.toString()], or [None] when
    [!key]: no truthy token and no team id. *)
Definition drop_key (event : PipelineEvent.t) : option string :=
  match truthy_string (PipelineEvent.token event) with
  | Some tok => Some tok
  | None => truthy_string (pretty <$> PipelineEvent.team_id event)
  end.

(** [isEventDisallowed(event)]. It reads [this.hub] only. *)
Definition isEventDisallowed (self : EventPipelineRunner)
    (event : PipelineEvent.t) : bool :=
  match drop_key event with
  | None => false
  | Some key =>
      match eventsToDropByToken (hub self) with
      | None => false
      | Some byToken =>
          match byToken !! key with
          | None => false
          | Some dropIds =>
              bool_decide (PipelineEvent.distinct_id event ∈ dropIds)
              || bool_decide ("*" ∈ dropIds)
          end
      end
  end.

(** [registerLastStep(stepName, args, ackPromises?)]. *)
Definition registerLastStep (stepName : string) (args : list Arg)
    (ackPromises : option (list AckPromise)) : M EventPipelineResult :=
  emit (CounterInc "pipelineLastStepCounter" [stepName]) ;;
  ret {| ackPromises := ackPromises; lastStep := stepName; args := args;
         error := None |}.

(** [shouldRetry(err)]. *)
Definition shouldRetry (err : Exn) : bool :=
  match err with
  | Thrown {| error_class := DependencyUnavailableError |} => true
  | _ => false
  end.

(** [handleError(err, currentStepName, currentArgs, teamId, sentToDql)].
    Every path ends in a [throw], so it has a result of any type. *)
Definition handleError {A} (err : Exn) (currentStepName : string)
    (currentArgs : list Arg) (teamId : Z) (sentToDql : bool) : M A :=
  emit (StatusError "step_failed" currentStepName err) ;;
  emit (SentryCapture err
          {| tag_team_id := Some teamId;
             tag_pipeline_step := Some currentStepName |}) ;;
  emit (CounterInc "pipelineStepErrorCounter" [currentStepName]) ;;
  (if shouldRetry err then
     emit (CounterInc "pipelineStepThrowCounter" [currentStepName]) ;;
     throw err
   else
     (if sentToDql then
        emit (CounterInc "pipelineStepDLQCounter" [currentStepName]) ;;
        try_catch
          (self <- this ;;
           let message :=
             generateEventDeadLetterQueueMessage ext (originalEvent self) err
               teamId ("plugin_server_ingest_event:" +:+ currentStepName) in
           let sent := queueMessage (hub self) message in
           emit (QueueMessage message true (rejection sent)) ;;
           settle sent)
          (fun dlqError =>
             emit (StatusInfo
                     "Errored trying to add event to dead letter queue."
                     dlqError) ;;
             emit (SentryCapture dlqError
                     {| tag_team_id := Some teamId;
                        tag_pipeline_step := None |}))
      else ret tt) ;;
     throw (StepErrorNoRetry currentStepName currentArgs (exn_message err))).

(** [runStep(step, args, teamId, sentToDql = true)].  [name] is [step.name]
    and [call] is [step(...args)], applied to the runner as it is when the
    step is called. *)
Definition runStep {A} (name : string) (call : EventPipelineRunner -> Settled A)
    (args : list Arg) (teamId : Z) (sentToDql : bool) : M A :=
  emit (SpanStart "runStep" name) ;;
  self <- this ;;
  emit (TimeoutGuard name teamId
          (PipelineEvent.distinct_id (originalEvent self))
          (PIPELINE_STEP_STALLED_LOG_TIMEOUT (hub self) * 1000)) ;;
  try_finally
    (try_catch
       (let promise := call self in
        emit (StepAwaited name args (rejection promise)) ;;
        result <- settle promise ;;
        emit (SummaryObserve "pipelineStepMsSummary" name) ;;
        ret result)
       (fun err => handleError err name args teamId sentToDql))
    [ClearTimeout].

(** [captureIngestionWarning(this.hub.db.kafkaProducer, teamId, type,
    details, { alwaysSend })]: it queues the warning and returns the promise
    of its acknowledgement. *)
Definition captureIngestionWarning (teamId : Z) (type : string)
    (details : list (string * js_value)) (always : bool) : M AckPromise :=
  let w := {| warning_team_id := teamId; warning_type := type;
              warning_details := details; alwaysSend := always |} in
  emit (CaptureIngestionWarning w) ;;
  ret (WarningAck w).

(** [x || d] on an optional number: [0] is falsy. *)
Definition number_or (x : option Z) (d : Z) : Z :=
  match x with
  | Some 0 => d
  | Some n => n
  | None => d
  end.

(** The first [if] of [runEventPipelineSteps]. *)
Definition embraceJoinApplies (h : Hub) (teamId : Z) : bool :=
  match poeEmbraceJoinForTeams h with
  | Some f => f teamId
  | None => false
  end
  || ((teamId <=? POE_WRITES_ENABLED_MAX_TEAM_ID h)
      && negb (poeWritesExcludeTeams h teamId)).

Definition identityEvents : list string :=
  ["$identify"; "$create_alias"; "$merge_dangerously"; "$groupidentify"].

(** [event.properties?.key]. *)
Definition property (event : PluginEvent.t) (key : string) : js_value :=
  match PluginEvent.properties event with
  | Some props => default JUndefined (props !! key)
  | None => JUndefined
  end.

(** The block of [runEventPipelineSteps] that derives [processPerson]: it
    either returns from the method ([inl]) or goes on with the event, the
    flag and the acknowledgements collected so far ([inr]). *)
Definition deriveProcessPerson (event : PluginEvent.t)
    (kafkaAcks : list AckPromise)
  : M (EventPipelineResult + PluginEvent.t * bool * list AckPromise) :=
  let processPerson := true in
  match PluginEvent.properties event with
  | None => ret (inr (event, processPerson, kafkaAcks))
  | Some props =>
      match props !! "$process_person" with
      | None => ret (inr (event, processPerson, kafkaAcks))
      | Some propValue =>
          match propValue with
          | JBool true => ret (inr (event, processPerson, kafkaAcks))
          | JBool false =>
              let processPerson := false in
              if bool_decide (PluginEvent.event event ∈ identityEvents) then
                ack <- captureIngestionWarning (PluginEvent.team_id event)
                         "invalid_event_when_process_person_is_false"
                         [("eventUuid", JString (PluginEvent.uuid event));
                          ("event", JString (PluginEvent.event event));
                          ("distinctId",
                           JString (PluginEvent.distinct_id event))]
                         true ;;
                let kafkaAcks := kafkaAcks ++ [ack] in
                result <- registerLastStep "invalidEventForProvidedFlags"
                            [ArgPluginEvent event] (Some kafkaAcks) ;;
                ret (inl result)
              else
                let event := normalizeProcessPerson ext event processPerson in
                ret (inr (event, processPerson, kafkaAcks))
          | _ =>
              ack <- captureIngestionWarning (PluginEvent.team_id event)
                       "invalid_process_person"
                       [("eventUuid", JString (PluginEvent.uuid event));
                        ("event", JString (PluginEvent.event event));
                        ("distinctId", JString (PluginEvent.distinct_id event));
                        ("$process_person", propValue);
                        ("message",
                         JString "Only a boolean value is valid for the $process_person property")]
                       false ;;
              ret (inr (event, processPerson, kafkaAcks ++ [ack]))
          end
      end
  end.

(** The rest of [runEventPipelineSteps], from the client ingestion warning
    to [createEventStep]. *)
Definition runSteps (event : PluginEvent.t) (processPerson : bool)
    (kafkaAcks : list AckPromise) : M EventPipelineResult :=
  if String.eqb (PluginEvent.event event) "$$client_ingestion_warning" then
    ack <- captureIngestionWarning (PluginEvent.team_id event)
             "client_ingestion_warning"
             [("eventUuid", JString (PluginEvent.uuid event));
              ("event", JString (PluginEvent.event event));
              ("distinctId", JString (PluginEvent.distinct_id event));
              ("message", property event "$$client_ingestion_warning_message")]
             true ;;
    registerLastStep "clientIngestionWarning" [ArgPluginEvent event]
      (Some (kafkaAcks ++ [ack]))
  else
    let runDeprecatedPlugins := processPerson in
    processedEvent <-
      runStep "pluginsProcessEventStep"
        (fun self => pluginsProcessEventStep ext self event runDeprecatedPlugins)
        [ArgThis; ArgPluginEvent event; ArgBool runDeprecatedPlugins]
        (PluginEvent.team_id event) true ;;
    match processedEvent with
    | None =>
        registerLastStep "pluginsProcessEventStep" [ArgPluginEvent event]
          (Some kafkaAcks)
    | Some processedEvent =>
        normalized <-
          runStep "normalizeEventStep"
            (fun _ => normalizeEventStep ext processedEvent processPerson)
            [ArgPluginEvent processedEvent; ArgBool processPerson]
            (PluginEvent.team_id event) true ;;
        let '(normalizedEvent, timestamp) := normalized in
        withPerson <-
          runStep "processPersonsStep"
            (fun self =>
               processPersonsStep ext self normalizedEvent timestamp
                 processPerson)
            [ArgThis; ArgPluginEvent normalizedEvent; ArgDateTime timestamp;
             ArgBool processPerson]
            (PluginEvent.team_id event) true ;;
        let '(postPersonEvent, person) := withPerson in
        preparedEvent <-
          runStep "prepareEventStep"
            (fun self => prepareEventStep ext self postPersonEvent processPerson)
            [ArgThis; ArgPluginEvent postPersonEvent; ArgBool processPerson]
            (PluginEvent.team_id event) true ;;
        created <-
          runStep "createEventStep"
            (fun self =>
               createEventStep ext self preparedEvent person processPerson)
            [ArgThis; ArgPreIngestionEvent preparedEvent; ArgPerson person;
             ArgBool processPerson]
            (PluginEvent.team_id event) true ;;
        let '(rawClickhouseEvent, eventAck) := created in
        registerLastStep "createEventStep"
          [ArgRawClickHouseEvent rawClickhouseEvent]
          (Some (kafkaAcks ++ [eventAck]))
    end.

(** [runEventPipelineSteps(event)]. *)
Definition runEventPipelineSteps (event : PluginEvent.t)
  : M EventPipelineResult :=
  self <- this ;;
  (if embraceJoinApplies (hub self) (PluginEvent.team_id event)
   then set_poEEmbraceJoin true
   else ret tt) ;;
  let kafkaAcks := [] in
  flow <- deriveProcessPerson event kafkaAcks ;;
  match flow with
  | inl result => ret result
  | inr (event, processPerson, kafkaAcks) =>
      runSteps event processPerson kafkaAcks
  end.

(** [runEventPipeline(event)], the entry point ([run] in the
    specification). *)
Definition runEventPipeline (event : PipelineEvent.t)
  : M EventPipelineResult :=
  set_originalEvent event ;;
  try_catch
    (self <- this ;;
     if isEventDisallowed self event then
       emit (CounterInc "eventDroppedCounter" ["analytics"; "disallowed"]) ;;
       registerLastStep "eventDisallowedStep" [ArgPipelineEvent event] None
     else
       eventWithTeam <-
         runStep "populateTeamDataStep"
           (fun self => populateTeamDataStep ext self event)
           [ArgThis; ArgPipelineEvent event]
           (number_or (PipelineEvent.team_id event) (-1)) true ;;
       result <-
         match eventWithTeam with
         | Some eventWithTeam => runEventPipelineSteps eventWithTeam
         | None =>
             registerLastStep "populateTeamDataStep" [ArgPipelineEvent event]
               None
         end ;;
       emit (CounterInc "eventProcessedAndIngestedCounter" []) ;;
       ret result)
    (fun error =>
       match error with
       | StepErrorNoRetry step _ message =>
           ret {| ackPromises := None; lastStep := step; args := [];
                  error := Some message |}
       | _ =>
           emit (SentryCapture error
                   {| tag_team_id := None;
                      tag_pipeline_step := Some "outside" |}) ;;
           throw error
       end).

(** ** Reading a run *)

Definition completion {A} (res : Completion A * EventPipelineRunner * list Effect)
  : Completion A := res.1.1.

Definition runner_after {A}
    (res : Completion A * EventPipelineRunner * list Effect)
  : EventPipelineRunner := res.1.2.

Definition trace {A} (res : Completion A * EventPipelineRunner * list Effect)
  : list Effect := res.2.

(** The steps whose promise rejected, with the arguments of the call. *)
Definition raised (tr : list Effect) : list (string * list Arg * JsError) :=
  omap (fun eff => match eff with
                   | StepAwaited n a (Some e) => Some (n, a, e)
                   | _ => None
                   end) tr.

(** The names of the steps that were called, in order. *)
Definition awaited (tr : list Effect) : list string :=
  omap (fun eff => match eff with
                   | StepAwaited n _ _ => Some n
                   | _ => None
                   end) tr.

(** The messages handed to the producer for the dead letter queue, with
    how each write settled. *)
Definition dlq_writes (tr : list Effect)
  : list (ProducerRecord * option JsError) :=
  omap (fun eff => match eff with
                   | QueueMessage m _ rej => Some (m, rej)
                   | _ => None
                   end) tr.

(** The labels with which a counter was incremented, in order. *)
Definition counter_incs (counter : string) (tr : list Effect)
  : list (list string) :=
  omap (fun eff => match eff with
                   | CounterInc c labels =>
                       if String.eqb c counter then Some labels else None
                   | _ => None
                   end) tr.

(** The ingestion warnings that were queued, in order. *)
Definition warnings (tr : list Effect) : list IngestionWarning :=
  omap (fun eff => match eff with
                   | CaptureIngestionWarning w => Some w
                   | _ => None
                   end) tr.

(** The errors reported to Sentry, in order. *)
Definition sentry_reports (tr : list Effect) : list Exn :=
  omap (fun eff => match eff with
                   | SentryCapture x _ => Some x
                   | _ => None
                   end) tr.

(** The error discipline of the code that runs inside the [try] of
    [runEventPipeline]: it ends normally without any step having failed,
    or with the retryable error of the one step that failed and nothing
    written to the dead letter queue, or with a [StepErrorNoRetry] that
    carries the name, the arguments and the message of the one step that
    failed, after one write to the dead letter queue. *)
Inductive discipline {A} (Q : A -> Prop) : Completion A -> list Effect -> Prop :=
  | discipline_normal (a : A) (tr : list Effect) :
      Q a ->
      raised tr = [] ->
      dlq_writes tr = [] ->
      counter_incs "pipelineStepDLQCounter" tr = [] ->
      discipline Q (Normal a) tr
  | discipline_retry (n : string) (a : list Arg) (e : JsError)
      (tr : list Effect) :
      error_class e = DependencyUnavailableError ->
      raised tr = [(n, a, e)] ->
      dlq_writes tr = [] ->
      counter_incs "pipelineStepDLQCounter" tr = [] ->
      discipline Q (Abrupt (Thrown e)) tr
  | discipline_no_retry (n : string) (a : list Arg) (e : JsError)
      (m : ProducerRecord) (rej : option JsError) (tr : list Effect) :
      error_class e = OtherError ->
      raised tr = [(n, a, e)] ->
      dlq_writes tr = [(m, rej)] ->
      counter_incs "pipelineStepDLQCounter" tr = [[n]] ->
      (forall d, rej = Some d -> In (Thrown d) (sentry_reports tr)) ->
      discipline Q (Abrupt (StepErrorNoRetry n a (error_message e))) tr.

Definition disciplined {A} (Q : A -> Prop) (m : M A) : Prop :=
  forall r, discipline Q (completion (m r)) (trace (m r)).

(** A method leaves [poEEmbraceJoin] as it is or sets it to [true]. *)
Definition flag_monotone {A} (m : M A) : Prop :=
  forall r,
    poEEmbraceJoin (runner_after (m r)) = poEEmbraceJoin r
    \/ poEEmbraceJoin (runner_after (m r)) = true.

(** What [registerLastStep] results look like when the orchestrator makes
    them: no error, and one argument, which is the event at an early exit
    and the stored event after [createEventStep]. *)
Definition registered (res : EventPipelineResult) : Prop :=
  error res = None
  /\ match args res with
     | [ArgPipelineEvent _] =>
         In (lastStep res) ["eventDisallowedStep"; "populateTeamDataStep"]
     | [ArgPluginEvent _] =>
         In (lastStep res)
            ["invalidEventForProvidedFlags"; "clientIngestionWarning";
             "pluginsProcessEventStep"]
     | [ArgRawClickHouseEvent _] => lastStep res = "createEventStep"
     | _ => False
     end.

(** The last step that was called in a run, with the arguments of the call. *)
Definition last_call (tr : list Effect) : option (string * list Arg) :=
  last (omap (fun eff => match eff with
                         | StepAwaited n a _ => Some (n, a)
                         | _ => None
                         end) tr).

(** How a run of [runEventPipeline] can end: with a registered last step and
    no failed step; with the retryable error of the one step that failed,
    thrown on; or with a result that names the one step that failed and its
    message, after one write to the dead letter queue. *)
Inductive pipeline_outcome
  : Completion EventPipelineResult -> list Effect -> Prop :=
  | outcome_registered (res : EventPipelineResult) (tr : list Effect) :
      registered res ->
      raised tr = [] ->
      dlq_writes tr = [] ->
      counter_incs "pipelineStepDLQCounter" tr = [] ->
      pipeline_outcome (Normal res) tr
  | outcome_rethrown (n : string) (a : list Arg) (e : JsError)
      (tr : list Effect) :
      error_class e = DependencyUnavailableError ->
      raised tr = [(n, a, e)] ->
      dlq_writes tr = [] ->
      counter_incs "pipelineStepDLQCounter" tr = [] ->
      pipeline_outcome (Abrupt (Thrown e)) tr
  | outcome_dropped (n : string) (a : list Arg) (e : JsError)
      (m : ProducerRecord) (rej : option JsError) (tr : list Effect) :
      error_class e = OtherError ->
      raised tr = [(n, a, e)] ->
      dlq_writes tr = [(m, rej)] ->
      counter_incs "pipelineStepDLQCounter" tr = [[n]] ->
      (forall d, rej = Some d -> In (Thrown d) (sentry_reports tr)) ->
      pipeline_outcome
        (Normal {| ackPromises := None; lastStep := n; args := [];
                   error := Some (error_message e) |}) tr.

(** The warnings of a run that were queued without [alwaysSend]. *)
Definition best_effort_warnings (tr : list Effect) : list IngestionWarning :=
  filter (fun w => alwaysSend w = false) (warnings tr).

(** Every effect of a method satisfies [P]. *)
Definition all_effects {A} (P : Effect -> Prop) (m : M A) : Prop :=
  forall r, Forall P (trace (m r)).

(** An effect that is not a best-effort warning. *)
Definition not_best_effort (eff : Effect) : Prop :=
  match eff with
  | CaptureIngestionWarning w => alwaysSend w = true
  | _ => True
  end.

(** ** More readings of a run *)

(** The steps for which a stall timer was armed, in order. *)
Definition timeouts_set (tr : list Effect) : list string :=
  omap (fun eff => match eff with
                   | TimeoutGuard n _ _ _ => Some n
                   | _ => None
                   end) tr.

(** One [tt] for each [clearTimeout]. *)
Definition timeouts_cleared (tr : list Effect) : list unit :=
  omap (fun eff => match eff with
                   | ClearTimeout => Some tt
                   | _ => None
                   end) tr.

(** As many timers cleared as armed, one for each awaited step. *)
Definition timers_balanced (tr : list Effect) : Prop :=
  length (timeouts_set tr) = length (timeouts_cleared tr)
  /\ length (timeouts_set tr) = length (awaited tr).

(** The names of the steps, in the order of the pipeline. *)
Definition stepOrder : list string :=
  ["populateTeamDataStep"; "pluginsProcessEventStep"; "normalizeEventStep";
   "processPersonsStep"; "prepareEventStep"; "createEventStep"].

(** A method keeps the invariant [I] of the runner and leaves a trace that
    satisfies [T]. *)
Definition maintains {A} (I : EventPipelineRunner -> Prop)
    (T : list Effect -> Prop) (m : M A) : Prop :=
  forall r, I r -> I (runner_after (m r)) /\ T (trace (m r)).

(** The effects the orchestrator has outside [runStep]: counters, warnings
    and the report of [runEventPipeline]'s [catch]. *)
Definition orchestrator_effect (eff : Effect) : Prop :=
  match eff with
  | CounterInc counter _ =>
      In counter ["eventDroppedCounter"; "pipelineLastStepCounter";
                  "eventProcessedAndIngestedCounter"]
  | CaptureIngestionWarning _ | SentryCapture _ _ => True
  | _ => False
  end.

(** The steps whose promise rejected, as the labels of a counter. *)
Definition failed_steps (tr : list Effect) : list (list string) :=
  omap (fun eff => match eff with
                   | StepAwaited n _ (Some _) => Some [n]
                   | _ => None
                   end) tr.

(** The steps whose promise rejected with a [DependencyUnavailableError]. *)
Definition rethrown_steps (tr : list Effect) : list (list string) :=
  omap (fun eff => match eff with
                   | StepAwaited n _
                       (Some {| error_class := DependencyUnavailableError |}) =>
                       Some [n]
                   | _ => None
                   end) tr.

(** The steps whose promise rejected with another error. *)
Definition dead_lettered_steps (tr : list Effect) : list (list string) :=
  omap (fun eff => match eff with
                   | StepAwaited n _ (Some {| error_class := OtherError |}) =>
                       Some [n]
                   | _ => None
                   end) tr.

(** The steps whose promise resolved. *)
Definition resolved_steps (tr : list Effect) : list string :=
  omap (fun eff => match eff with
                   | StepAwaited n _ None => Some n
                   | _ => None
                   end) tr.

(** The labels with which a summary was observed, in order. *)
Definition summary_observed (summary : string) (tr : list Effect)
  : list string :=
  omap (fun eff => match eff with
                   | SummaryObserve s label =>
                       if String.eqb s summary then Some label else None
                   | _ => None
                   end) tr.

(** The three failure counters count the failed steps. *)
Definition failures_counted (tr : list Effect) : Prop :=
  counter_incs "pipelineStepErrorCounter" tr = failed_steps tr
  /\ counter_incs "pipelineStepThrowCounter" tr = rethrown_steps tr
  /\ counter_incs "pipelineStepDLQCounter" tr = dead_lettered_steps tr.

(** The duration summary is observed for the resolved steps. *)
Definition durations_observed (tr : list Effect) : Prop :=
  summary_observed "pipelineStepMsSummary" tr = resolved_steps tr.

(** Every message handed to the producer waits for its acknowledgement and
    was built by [generateEventDeadLetterQueueMessage] from the event [ev],
    the error of a step of this trace that is not a
    [DependencyUnavailableError], and the label of that step; it settled as
    the producer [h] settles it. *)
Definition dlq_justified (ev : PipelineEvent.t) (h : Hub) (tr : list Effect)
  : Prop :=
  forall m w rej,
    In (QueueMessage m w rej) tr ->
    w = true
    /\ exists n a e teamId,
         In (StepAwaited n a (Some e)) tr
         /\ error_class e = OtherError
         /\ m = generateEventDeadLetterQueueMessage ext ev (Thrown e) teamId
                  ("plugin_server_ingest_event:" +:+ n)
         /\ rej = rejection (queueMessage h m).

(** The value of [$process_person], when [event.properties] has the key. *)
Definition process_person_value (event : PluginEvent.t) : option js_value :=
  match PluginEvent.properties event with
  | Some props => props !! "$process_person"
  | None => None
  end.

(** The runner once the first [if] of [runEventPipelineSteps] has run for
    an event of the team [teamId]. *)
Definition afterRouting (r : EventPipelineRunner) (teamId : Z)
  : EventPipelineRunner :=
  if embraceJoinApplies (hub r) teamId
  then {| hub := hub r; originalEvent := originalEvent r;
          poEEmbraceJoin := true |}
  else r.

(** What the flag derivation of [runEventPipelineSteps] leaves in
    [processPerson] when it goes on: [false] when [$process_person] is the
    boolean [false], the initial [true] otherwise. *)
Definition processPersonOf (event : PluginEvent.t) : bool :=
  match process_person_value event with
  | Some (JBool false) => false
  | _ => true
  end.

(** The event the flag derivation hands to the steps: the result of
    [normalizeProcessPerson] when [processPerson] is [false], the event as
    it came otherwise. *)
Definition eventForSteps (event : PluginEvent.t) : PluginEvent.t :=
  if processPersonOf event then event
  else normalizeProcessPerson ext event false.

(** How the promise settles when the step named [stage] is applied to the
    arguments [args] by the runner [self] ([this] stands for [self]); [None]
    when the arguments are not those of the step. *)
Definition settlement_of_call (self : EventPipelineRunner) (stage : string)
    (args : list Arg) : option (option JsError) :=
  match args with
  | [ArgThis; ArgPipelineEvent ev] =>
      if String.eqb stage "populateTeamDataStep"
      then Some (rejection (populateTeamDataStep ext self ev))
      else None
  | [ArgThis; ArgPluginEvent ev; ArgBool flag] =>
      if String.eqb stage "pluginsProcessEventStep"
      then Some (rejection (pluginsProcessEventStep ext self ev flag))
      else if String.eqb stage "prepareEventStep"
      then Some (rejection (prepareEventStep ext self ev flag))
      else None
  | [ArgPluginEvent ev; ArgBool flag] =>
      if String.eqb stage "normalizeEventStep"
      then Some (rejection (normalizeEventStep ext ev flag))
      else None
  | [ArgThis; ArgPluginEvent ev; ArgDateTime timestamp; ArgBool flag] =>
      if String.eqb stage "processPersonsStep"
      then Some (rejection (processPersonsStep ext self ev timestamp flag))
      else None
  | [ArgThis; ArgPreIngestionEvent prepared; ArgPerson person; ArgBool flag] =>
      if String.eqb stage "createEventStep"
      then Some (rejection (createEventStep ext self prepared person flag))
      else None
  | _ => None
  end.

(** A call of a step, as the trace records it, is the step applied to the
    recorded arguments by the runner [self], and the last of them is the
    flag [processPerson]. *)
Definition applied_with_flag (self : EventPipelineRunner)
    (processPerson : bool) (eff : Effect) : Prop :=
  match eff with
  | StepAwaited stage a rej =>
      last a = Some (ArgBool processPerson)
      /\ settlement_of_call self stage a = Some rej
  | _ => True
  end.

(** [raw] is the stored event of the five steps on [event]: each step
    resolves, applied by [self] with the flag [processPerson] to what the
    step before resolved to, and [createEventStep] resolves to [raw]. *)
Definition stored_by (self : EventPipelineRunner) (event : PluginEvent.t)
    (processPerson : bool) (raw : RawClickHouseEvent) : Prop :=
  exists processed normalized timestamp postPerson person prepared eventAck,
    pluginsProcessEventStep ext self event processPerson
    = Resolved (Some processed)
    /\ normalizeEventStep ext processed processPerson
       = Resolved (normalized, timestamp)
    /\ processPersonsStep ext self normalized timestamp processPerson
       = Resolved (postPerson, person)
    /\ prepareEventStep ext self postPerson processPerson = Resolved prepared
    /\ createEventStep ext self prepared person processPerson
       = Resolved (raw, eventAck).

(** Two sets of collaborators give the same answers whenever a step of the
    main sequence is applied with the flag [processPerson] (and build the
    same dead letter messages); they may differ on every call with the
    other flag, and on [normalizeProcessPerson]. *)
Definition agree_on_flag (processPerson : bool) (ext' : Collaborators)
  : Prop :=
  (forall self ev,
      pluginsProcessEventStep ext self ev processPerson
      = pluginsProcessEventStep ext' self ev processPerson)
  /\ (forall ev,
        normalizeEventStep ext ev processPerson
        = normalizeEventStep ext' ev processPerson)
  /\ (forall self ev timestamp,
        processPersonsStep ext self ev timestamp processPerson
        = processPersonsStep ext' self ev timestamp processPerson)
  /\ (forall self ev,
        prepareEventStep ext self ev processPerson
        = prepareEventStep ext' self ev processPerson)
  /\ (forall self prepared person,
        createEventStep ext self prepared person processPerson
        = createEventStep ext' self prepared person processPerson)
  /\ (forall ev x teamId location,
        generateEventDeadLetterQueueMessage ext ev x teamId location
        = generateEventDeadLetterQueueMessage ext' ev x teamId location).

End Runner.

Arguments Normal {_ _ _ _ A} a.
Arguments Abrupt {_ _ _ _ A} x.

(** ** Concrete collaborators

    Scripted steps for the examples: every step resolves, except the one
    named [failingStep], whose promise rejects with [e]. *)
Module Demo.

Definition withTeam (ev : PipelineEvent.t) : PluginEvent.t :=
  {| PluginEvent.team_id := default 1 (PipelineEvent.team_id ev);
     PluginEvent.distinct_id := PipelineEvent.distinct_id ev;
     PluginEvent.event := PipelineEvent.event ev;
     PluginEvent.uuid := PipelineEvent.uuid ev;
     PluginEvent.properties := PipelineEvent.properties ev |}.

Definition unless {A} (failingStep name : string) (e : JsError) (a : A)
  : Settled A :=
  if String.eqb failingStep name then Rejected e else Resolved a.

Definition scripted (failingStep : string) (e : JsError)
  : @Collaborators Z string PluginEvent.t PluginEvent.t string :=
  {| populateTeamDataStep := fun _ ev =>
       unless failingStep "populateTeamDataStep" e (Some (withTeam ev));
     pluginsProcessEventStep := fun _ ev _ =>
       unless failingStep "pluginsProcessEventStep" e (Some ev);
     normalizeEventStep := fun ev _ =>
       unless failingStep "normalizeEventStep" e (ev, 1700000000);
     processPersonsStep := fun _ ev _ _ =>
       unless failingStep "processPersonsStep" e
         (ev, PluginEvent.distinct_id ev);
     prepareEventStep := fun _ ev _ =>
       unless failingStep "prepareEventStep" e ev;
     createEventStep := fun _ ev _ _ =>
       unless failingStep "createEventStep" e (ev, ProducerAck 1);
     normalizeProcessPerson := fun ev _ => ev;
     generateEventDeadLetterQueueMessage := fun ev _ _ location =>
       location +:+ ":" +:+ PipelineEvent.uuid ev |}.

Definition boom : JsError :=
  {| error_class := OtherError; error_message := "boom" |}.

Definition postgresDown : JsError :=
  {| error_class := DependencyUnavailableError;
     error_message := "Postgres unavailable" |}.

Definition kafkaDown : JsError :=
  {| error_class := OtherError; error_message := "Kafka unavailable" |}.

Definition allResolve := scripted "" boom.

(** A hub with a drop list and a producer that accepts every message
    ([dlqUp = true]) or rejects every message. *)
Definition hubWith (drops : option (gmap string (list string)))
    (dlqUp : bool) : @Hub string :=
  {| eventsToDropByToken := drops;
     poeEmbraceJoinForTeams := None;
     POE_WRITES_ENABLED_MAX_TEAM_ID := 0;
     poeWritesExcludeTeams := fun _ => false;
     PIPELINE_STEP_STALLED_LOG_TIMEOUT := 30;
     queueMessage := fun _ =>
       if dlqUp then Resolved tt else Rejected kafkaDown |}.

Definition event (token : option string) (team : option Z) (name : string)
    (props : list (string * js_value)) : PipelineEvent.t :=
  {| PipelineEvent.token := token;
     PipelineEvent.team_id := team;
     PipelineEvent.distinct_id := "u1";
     PipelineEvent.event := name;
     PipelineEvent.uuid := "x";
     PipelineEvent.properties := Some (list_to_map props) |}.

(** [{team_id: 1, distinct_id: "u1", event: "pageview", uuid: "x",
    properties: {}}]. *)
Definition pageview : PipelineEvent.t := event None (Some 1) "pageview" [].

Definition runner (h : @Hub string) (ev : PipelineEvent.t)
  : @EventPipelineRunner string :=
  constructor h ev None.

Definition dropList : gmap string (list string) :=
  {[ "phc_token" := ["u1"; "u2"]; "1" := ["*"] ]}.

(** A run on the page view in which the step [failingStep] rejects with
    [e]; the producer is up or down. *)
Definition failingRun (failingStep : string) (e : JsError) (dlqUp : bool) :=
  runEventPipeline (scripted failingStep e) pageview
    (runner (hubWith None dlqUp) pageview).

(** A run in which every step resolves. *)
Definition plainRun (drops : option (gmap string (list string)))
    (ev : PipelineEvent.t) :=
  runEventPipeline allResolve ev (runner (hubWith drops true) ev).

Definition withToken : PipelineEvent.t :=
  event (Some "phc_token") None "pageview" [].

Definition anonymous : PipelineEvent.t := event None None "pageview" [].

Definition identifyWithoutPerson : PluginEvent.t :=
  withTeam (event None (Some 1) "$identify"
              [("$process_person", JBool false)]).

Definition processPersonYes : PluginEvent.t :=
  withTeam (event None (Some 1) "pageview"
              [("$process_person", JString "yes")]).

(** The main sequence on an event whose team is resolved. *)
Definition mainSequence (ev : PluginEvent.t) :=
  runEventPipelineSteps allResolve ev (runner (hubWith None true) pageview).

End Demo.

(** * Loading the plugins from the database

    [loadPluginsFromDB] reads three tables and builds three maps: the
    plugins by id, the plugin configs by id, and the plugin configs of each
    team.  The three loops become folds over the rows, in the order of the
    rows; a [Map] and an object used as a map become finite maps; an array
    that is pushed to becomes a list that is appended to. *)

(** A row of the plugins table, which is also the [Plugin] of the result:
    the fields the loader reads or writes. *)
Record PluginCapabilities : Type := mkCapabilities {
  methods : option (list string)
}.

Module Plugin.
Record t : Type := mk {
  id : Z;
  url : option string;
  capabilities : option PluginCapabilities;
  skipped_for_personless : option bool
}.
End Plugin.

(** A row of the attachments table. *)
Module PluginAttachmentDB.
Record t : Type := mk {
  plugin_config_id : option Z;
  key : string;
  content_type : string;
  file_name : string;
  contents : option string
}.
End PluginAttachmentDB.

Record PluginAttachment : Type := mkAttachment {
  attachment_content_type : string;
  attachment_file_name : string;
  attachment_contents : option string
}.

(** A row of the plugin configs table: the columns the loader reads; the
    others are carried along by [...row]. *)
Module PluginConfigRow.
Record t : Type := mk {
  id : Z;
  team_id : option Z;
  plugin_id : Z
}.
End PluginConfigRow.

Inductive PluginMethod : Type :=
  | onEvent
  | composeWebhook.

(** [PluginConfig]: [{...row, plugin, attachments, vm: null, method}]. *)
Module PluginConfig.
Record t : Type := mk {
  row : PluginConfigRow.t;
  plugin : Plugin.t;
  attachments : gmap string PluginAttachment;
  vm : option unit;
  method : option PluginMethod
}.
End PluginConfig.

(** What [loadPluginsFromDB] returns. *)
Record LoadedPlugins : Type := mkLoaded {
  plugins : gmap Z Plugin.t;
  pluginConfigs : gmap Z PluginConfig.t;
  pluginConfigsPerTeam : gmap Z (list PluginConfig.t)
}.

(** What the loader does besides: the queries, the four summaries, and the
    line on the console for a config without team. *)
Inductive LoaderEffect : Type :=
  | Query (name : string)
  | Observe (summary : string)
  | ConsoleError (pluginConfigId : Z).

Definition personlessPluginSkipList : list string :=
  ["https://github.com/posthog/currency-normalization-plugin";
   "https://github.com/posthog/event-sequence-timer-plugin";
   "https://github.com/posthog/first-event-today";
   "https://github.com/posthog/first-time-event-tracker";
   "https://github.com/posthog/mailboxlayer-plugin"].

Section PluginLoader.

(** [String.prototype.toLowerCase], and the strings of the members of the
    enum [PluginMethod] ([PluginMethod.onEvent.toString()]). *)
Variable toLowerCase : string -> string.
Variable methodName : PluginMethod -> string.

(** [row.url && personlessPluginSkipList.includes(row.url.toLowerCase())]. *)
Definition skippedForPersonless (row : Plugin.t) : bool :=
  match truthy_string (Plugin.url row) with
  | Some url => bool_decide (toLowerCase url ∈ personlessPluginSkipList)
  | None => false
  end.

(** The body of the first loop up to [plugins.set]: the row, with
    [skipped_for_personless = true] when its url is in the skip list. *)
Definition markPersonless (row : Plugin.t) : Plugin.t :=
  if skippedForPersonless row
  then {| Plugin.id := Plugin.id row; Plugin.url := Plugin.url row;
          Plugin.capabilities := Plugin.capabilities row;
          Plugin.skipped_for_personless := Some true |}
  else row.

(** The first loop. *)
Definition loadPluginRows (pluginRows : list Plugin.t) : gmap Z Plugin.t :=
  fold_left (fun plugins row => <[Plugin.id row := markPersonless row]> plugins)
    pluginRows ∅.

Definition toAttachment (row : PluginAttachmentDB.t) : PluginAttachment :=
  {| attachment_content_type := PluginAttachmentDB.content_type row;
     attachment_file_name := PluginAttachmentDB.file_name row;
     attachment_contents := PluginAttachmentDB.contents row |}.

(** The body of the second loop.  The object of a config is made on its
    first attachment and updated in place by the later ones. *)
Definition addAttachment
    (attachmentsPerConfig : gmap (option Z) (gmap string PluginAttachment))
    (row : PluginAttachmentDB.t)
  : gmap (option Z) (gmap string PluginAttachment) :=
  let attachments :=
    default ∅ (attachmentsPerConfig !! PluginAttachmentDB.plugin_config_id row) in
  <[PluginAttachmentDB.plugin_config_id row :=
      <[PluginAttachmentDB.key row := toAttachment row]> attachments]>
    attachmentsPerConfig.

(** The second loop. *)
Definition loadAttachmentRows (rows : list PluginAttachmentDB.t)
  : gmap (option Z) (gmap string PluginAttachment) :=
  fold_left addAttachment rows ∅.

(** The choice of [method] from [plugin.capabilities?.methods]. *)
Definition pluginMethod (plugin : Plugin.t) : option PluginMethod :=
  match Plugin.capabilities plugin ≫= methods with
  | Some methods =>
      if existsb (fun m => bool_decide (m ∈ [methodName onEvent])) methods
      then Some onEvent
      else if existsb (fun m => bool_decide (m ∈ [methodName composeWebhook]))
                methods
      then Some composeWebhook
      else None
  | None => None
  end.

(** The [pluginConfig] object of the third loop. *)
Definition buildConfig
    (attachmentsPerConfig : gmap (option Z) (gmap string PluginAttachment))
    (plugin : Plugin.t) (row : PluginConfigRow.t) : PluginConfig.t :=
  {| PluginConfig.row := row;
     PluginConfig.plugin := plugin;
     PluginConfig.attachments :=
       default ∅ (attachmentsPerConfig !! Some (PluginConfigRow.id row));
     PluginConfig.vm := None;
     PluginConfig.method := pluginMethod plugin |}.

(** [!row.team_id]: no team id, or the team id [0]. *)
Definition truthy_number (x : option Z) : option Z :=
  match x with
  | Some 0 => None
  | other => other
  end.

(** The state of the third loop: the two maps and the lines written to the
    console. *)
Definition ConfigState : Type :=
  gmap Z PluginConfig.t * gmap Z (list PluginConfig.t) * list LoaderEffect.

(** The body of the third loop. *)
Definition addConfig (plugins : gmap Z Plugin.t)
    (attachmentsPerConfig : gmap (option Z) (gmap string PluginAttachment))
    (st : ConfigState) (row : PluginConfigRow.t) : ConfigState :=
  let '(pluginConfigs, pluginConfigsPerTeam, console) := st in
  match plugins !! PluginConfigRow.plugin_id row with
  | None => st
  | Some plugin =>
      let pluginConfig := buildConfig attachmentsPerConfig plugin row in
      let pluginConfigs :=
        <[PluginConfigRow.id row := pluginConfig]> pluginConfigs in
      match truthy_number (PluginConfigRow.team_id row) with
      | None =>
          (pluginConfigs, pluginConfigsPerTeam,
           console ++ [ConsoleError (PluginConfigRow.id row)])
      | Some teamId =>
          let teamConfigs := default [] (pluginConfigsPerTeam !! teamId) in
          (pluginConfigs,
           <[teamId := teamConfigs ++ [pluginConfig]]> pluginConfigsPerTeam,
           console)
      end
  end.

(** The third loop. *)
Definition loadConfigRows (plugins : gmap Z Plugin.t)
    (attachmentsPerConfig : gmap (option Z) (gmap string PluginAttachment))
    (rows : list PluginConfigRow.t) : ConfigState :=
  fold_left (addConfig plugins attachmentsPerConfig) rows (∅, ∅, []).

(** [loadPluginsFromDB(hub)].  The arguments are the promises of the three
    queries on [hub]; a query is made when the one before it has
    resolved. *)
Definition loadPluginsFromDB
    (getPluginRows : Settled (list Plugin.t))
    (getPluginAttachmentRows : Settled (list PluginAttachmentDB.t))
    (getPluginConfigRows : Settled (list PluginConfigRow.t))
  : Settled LoadedPlugins * list LoaderEffect :=
  match getPluginRows with
  | Rejected e => (Rejected e, [Query "getPluginRows"])
  | Resolved pluginRows =>
      let plugins := loadPluginRows pluginRows in
      match getPluginAttachmentRows with
      | Rejected e =>
          (Rejected e,
           [Query "getPluginRows"; Observe "load_plugins_ms";
            Query "getPluginAttachmentRows"])
      | Resolved pluginAttachmentRows =>
          let attachmentsPerConfig := loadAttachmentRows pluginAttachmentRows in
          match getPluginConfigRows with
          | Rejected e =>
              (Rejected e,
               [Query "getPluginRows"; Observe "load_plugins_ms";
                Query "getPluginAttachmentRows";
                Observe "load_plugin_attachments_ms";
                Query "getPluginConfigRows"])
          | Resolved pluginConfigRows =>
              let '(pluginConfigs, pluginConfigsPerTeam, console) :=
                loadConfigRows plugins attachmentsPerConfig pluginConfigRows in
              (Resolved {| plugins := plugins;
                           pluginConfigs := pluginConfigs;
                           pluginConfigsPerTeam := pluginConfigsPerTeam |},
               [Query "getPluginRows"; Observe "load_plugins_ms";
                Query "getPluginAttachmentRows";
                Observe "load_plugin_attachments_ms";
                Query "getPluginConfigRows"]
               ++ console
               ++ [Observe "load_plugin_configs_ms";
                   Observe "load_plugins_total_ms"])
          end
      end
  end.

(** The config rows the third loop does not skip: those of a loaded
    plugin. *)
Definition knownPlugin (plugins : gmap Z Plugin.t) (row : PluginConfigRow.t)
  : Prop :=
  is_Some (plugins !! PluginConfigRow.plugin_id row).

(** The [pluginConfig] the third loop makes of a row, when it does not skip
    the row. *)
Definition configOf (plugins : gmap Z Plugin.t)
    (attachmentsPerConfig : gmap (option Z) (gmap string PluginAttachment))
    (row : PluginConfigRow.t) : option PluginConfig.t :=
  (fun plugin => buildConfig attachmentsPerConfig plugin row)
    <$> plugins !! PluginConfigRow.plugin_id row.

(** The configs the third loop makes, in the order of the rows. *)
Definition builtConfigs (plugins : gmap Z Plugin.t)
    (attachmentsPerConfig : gmap (option Z) (gmap string PluginAttachment))
    (rows : list PluginConfigRow.t) : list PluginConfig.t :=
  omap (configOf plugins attachmentsPerConfig) rows.

(** The team under which a config is listed, if any. *)
Definition teamOf (c : PluginConfig.t) : option Z :=
  truthy_number (PluginConfigRow.team_id (PluginConfig.row c)).

(** What the third loop has built after the rows it has seen. *)
Definition config_state_of (built : list PluginConfig.t) (st : ConfigState)
  : Prop :=
  (forall cid,
      st.1.1 !! cid
      = last (filter (fun c => PluginConfigRow.id (PluginConfig.row c) = cid)
                built))
  /\ (forall t,
        st.1.2 !! t
        = match filter (fun c => teamOf c = Some t) built with
          | [] => None
          | l => Some l
          end)
  /\ st.2
     = map (fun c => ConsoleError (PluginConfigRow.id (PluginConfig.row c)))
         (filter (fun c => teamOf c = None) built).

End PluginLoader.

(** ASCII lower case, for the examples. *)
Definition asciiLowerChar (c : Ascii.ascii) : Ascii.ascii :=
  let n := Ascii.nat_of_ascii c in
  if ((65 <=? n) && (n <=? 90))%nat then Ascii.ascii_of_nat (n + 32) else c.

Fixpoint asciiLower (s : string) : string :=
  match s with
  | EmptyString => EmptyString
  | String c rest => String (asciiLowerChar c) (asciiLower rest)
  end.

Definition methodString (m : PluginMethod) : string :=
  match m with
  | onEvent => "onEvent"
  | composeWebhook => "composeWebhook"
  end.

(** Concrete tables for the examples. *)
Module LoaderDemo.

Definition pluginRows : list Plugin.t :=
  [ {| Plugin.id := 1;
       Plugin.url := Some "https://github.com/PostHog/first-event-today";
       Plugin.capabilities :=
         Some {| methods := Some ["composeWebhook"; "onEvent"] |};
       Plugin.skipped_for_personless := None |};
    {| Plugin.id := 2;
       Plugin.url := Some "https://github.com/posthog/some-other-plugin";
       Plugin.capabilities := None;
       Plugin.skipped_for_personless := None |} ].

Definition attachmentRows : list PluginAttachmentDB.t :=
  [ {| PluginAttachmentDB.plugin_config_id := Some 10;
       PluginAttachmentDB.key := "maxmind";
       PluginAttachmentDB.content_type := "application/octet-stream";
       PluginAttachmentDB.file_name := "old.mmdb";
       PluginAttachmentDB.contents := Some "v1" |};
    {| PluginAttachmentDB.plugin_config_id := None;
       PluginAttachmentDB.key := "maxmind";
       PluginAttachmentDB.content_type := "text/plain";
       PluginAttachmentDB.file_name := "orphan.txt";
       PluginAttachmentDB.contents := None |};
    {| PluginAttachmentDB.plugin_config_id := Some 10;
       PluginAttachmentDB.key := "maxmind";
       PluginAttachmentDB.content_type := "application/octet-stream";
       PluginAttachmentDB.file_name := "new.mmdb";
       PluginAttachmentDB.contents := Some "v2" |} ].

Definition configRow (id : Z) (team : option Z) (plugin : Z)
  : PluginConfigRow.t :=
  {| PluginConfigRow.id := id; PluginConfigRow.team_id := team;
     PluginConfigRow.plugin_id := plugin |}.

Definition configRows : list PluginConfigRow.t :=
  [ configRow 10 (Some 7) 1;
    configRow 11 (Some 0) 2;
    configRow 12 (Some 7) 99;
    configRow 13 (Some 7) 2 ].

Definition load : Settled LoadedPlugins * list LoaderEffect :=
  loadPluginsFromDB asciiLower methodString (Resolved pluginRows)
    (Resolved attachmentRows) (Resolved configRows).

(** What [load] resolves to. *)
Definition loaded : LoadedPlugins :=
  match load.1 with
  | Resolved l => l
  | Rejected _ => {| plugins := ∅; pluginConfigs := ∅;
                     pluginConfigsPerTeam := ∅ |}
  end.

(** The config loaded under an id, and the configs of a team. *)
Definition configAt (cid : Z) : PluginConfig.t :=
  default
    {| PluginConfig.row := configRow 0 None 0;
       PluginConfig.plugin :=
         {| Plugin.id := 0; Plugin.url := None; Plugin.capabilities := None;
            Plugin.skipped_for_personless := None |};
       PluginConfig.attachments := ∅;
       PluginConfig.vm := None;
       PluginConfig.method := None |}
    (pluginConfigs loaded !! cid).

Definition teamConfigs (teamId : Z) : list PluginConfig.t :=
  default [] (pluginConfigsPerTeam loaded !! teamId).

Definition pluginAt (pid : Z) : Plugin.t :=
  default
    {| Plugin.id := 0; Plugin.url := None; Plugin.capabilities := None;
       Plugin.skipped_for_personless := None |}
    (plugins loaded !! pid).

End LoaderDemo.

(** More scripted collaborators and events for the examples. *)
Module Scenario.

(** Every step resolves; the step named [nullStep] resolves to [null]
    (for the two steps that may), and [normalizeProcessPerson] removes the
    properties of the event. *)
Definition nullAt (nullStep : string)
  : @Collaborators Z string PluginEvent.t PluginEvent.t string :=
  {| populateTeamDataStep := fun _ ev =>
       Resolved (if String.eqb nullStep "populateTeamDataStep"
                 then None else Some (Demo.withTeam ev));
     pluginsProcessEventStep := fun _ ev _ =>
       Resolved (if String.eqb nullStep "pluginsProcessEventStep"
                 then None else Some ev);
     normalizeEventStep := fun ev _ => Resolved (ev, 1700000000);
     processPersonsStep := fun _ ev _ _ =>
       Resolved (ev, PluginEvent.distinct_id ev);
     prepareEventStep := fun _ ev _ => Resolved ev;
     createEventStep := fun _ ev _ _ => Resolved (ev, ProducerAck 1);
     normalizeProcessPerson := fun ev _ =>
       {| PluginEvent.team_id := PluginEvent.team_id ev;
          PluginEvent.distinct_id := PluginEvent.distinct_id ev;
          PluginEvent.event := PluginEvent.event ev;
          PluginEvent.uuid := PluginEvent.uuid ev;
          PluginEvent.properties := None |};
     generateEventDeadLetterQueueMessage := fun ev _ _ location =>
       location +:+ ":" +:+ PipelineEvent.uuid ev |}.

Definition runner : @EventPipelineRunner string :=
  Demo.runner (Demo.hubWith (Some Demo.dropList) true) Demo.pageview.

Definition personless : PluginEvent.t :=
  Demo.withTeam (Demo.event None (Some 1) "pageview"
                   [("$process_person", JBool false)]).

Definition plain : PluginEvent.t := Demo.withTeam Demo.pageview.

Definition clientWarning : PluginEvent.t :=
  Demo.withTeam
    (Demo.event None (Some 1) "$$client_ingestion_warning"
       [("$$client_ingestion_warning_message", JString "too many events")]).

(** A token that is not in the drop list, on an event of team [1], whose
    id is in the list with the wildcard. *)
Definition otherToken : PipelineEvent.t :=
  Demo.event (Some "phc_other") (Some 1) "pageview" [].

(** An event of team [2], which is not in the drop list. *)
Definition teamTwo : PipelineEvent.t :=
  Demo.event None (Some 2) "pageview" [].

(** [new Error('')]: an error that is not retried, with an empty message. *)
Definition silent : JsError :=
  {| error_class := OtherError; error_message := EmptyString |}.

End Scenario.

(** * Properties *)

Section Properties.

Context {DateTime Person PreIngestionEvent RawClickHouseEvent ProducerRecord : Type}.

Variable ext :
  @Collaborators DateTime Person PreIngestionEvent RawClickHouseEvent
    ProducerRecord.

Abbreviation Runner :=
  (@EventPipelineRunner ProducerRecord).
Abbreviation Eff :=
  (@Effect DateTime Person PreIngestionEvent RawClickHouseEvent ProducerRecord).
Abbreviation Run A :=
  (@M DateTime Person PreIngestionEvent RawClickHouseEvent ProducerRecord A).

(** ** The observers of a trace distribute over concatenation *)

Lemma raised_app (t1 t2 : list Eff) : raised (t1 ++ t2) = raised t1 ++ raised t2.
Proof. apply omap_app. Qed.

Lemma awaited_app (t1 t2 : list Eff) :
  awaited (t1 ++ t2) = awaited t1 ++ awaited t2.
Proof. apply omap_app. Qed.

Lemma dlq_writes_app (t1 t2 : list Eff) :
  dlq_writes (t1 ++ t2) = dlq_writes t1 ++ dlq_writes t2.
Proof. apply omap_app. Qed.

Lemma counter_incs_app (c : string) (t1 t2 : list Eff) :
  counter_incs c (t1 ++ t2) = counter_incs c t1 ++ counter_incs c t2.
Proof. apply omap_app. Qed.

Lemma warnings_app (t1 t2 : list Eff) :
  warnings (t1 ++ t2) = warnings t1 ++ warnings t2.
Proof. apply omap_app. Qed.

Lemma sentry_reports_app (t1 t2 : list Eff) :
  sentry_reports (t1 ++ t2) = sentry_reports t1 ++ sentry_reports t2.
Proof. apply omap_app. Qed.

Lemma raised_In (t : list Eff) n a e :
  In (StepAwaited n a (Some e)) t <-> In (n, a, e) (raised t).
Proof.
  unfold raised. rewrite <- !list_elem_of_In, list_elem_of_omap. split.
  - intros H. eexists. split; [exact H | reflexivity].
  - intros (eff & Hin & Heq).
    destruct eff as [| | | | | | | |n' a' [e'|]| |]; simpl in Heq; try discriminate.
    injection Heq as -> -> ->. exact Hin.
Qed.

Create Rewrite HintDb trace.
Hint Rewrite raised_app awaited_app dlq_writes_app counter_incs_app
  warnings_app sentry_reports_app : trace.

Ltac split_trace := autorewrite with trace in *.

(** ** The error discipline, method by method *)

Lemma disciplined_bind {A B} (Q : A -> Prop) (Q' : B -> Prop)
    (m : Run A) (k : A -> Run B) :
  disciplined Q m ->
  (forall a, Q a -> disciplined Q' (k a)) ->
  disciplined Q' (bind m k).
Proof.
  intros Hm Hk r. unfold bind, completion, trace.
  specialize (Hm r). unfold completion, trace in Hm.
  destruct (m r) as [[c r1] t1]. simpl in Hm.
  inversion Hm as [a tr Ha Hr Hd Hc | n a e tr He Hr Hd Hc
                  | n a e msg rej tr He Hr Hd Hc Hs]; subst; simpl.
  - specialize (Hk a Ha r1). unfold completion, trace in Hk.
    destruct (k a r1) as [[c2 r2] t2]. simpl in *.
    inversion Hk; subst.
    + constructor; split_trace; try rewrite Hr; try rewrite Hd;
        try rewrite Hc; auto.
    + econstructor; split_trace; try rewrite Hr; try rewrite Hd;
        try rewrite Hc; eauto.
    + econstructor; split_trace; try rewrite Hr; try rewrite Hd;
        try rewrite Hc; eauto.
      intros d Hd'. apply in_or_app. right. auto.
  - econstructor; eauto.
  - econstructor; eauto.
Qed.

Lemma disciplined_weaken {A} (Q Q' : A -> Prop) (m : Run A) :
  disciplined Q m -> (forall a, Q a -> Q' a) -> disciplined Q' m.
Proof.
  intros Hm HQ r. specialize (Hm r).
  inversion Hm; subst; econstructor; eauto.
Qed.

Lemma disciplined_ret {A} (Q : A -> Prop) (a : A) :
  Q a -> disciplined Q (ret a : Run A).
Proof. intros Ha r. constructor; auto. Qed.

Lemma disciplined_this : disciplined (fun _ => True) (this : Run Runner).
Proof. intros r. constructor; auto. Qed.

Lemma disciplined_registerLastStep stepName a acks :
  disciplined
    (fun res => lastStep res = stepName /\ args res = a
                /\ ackPromises res = acks /\ error res = None)
    (registerLastStep stepName a acks : Run _).
Proof. intros r. constructor; auto. Qed.

Lemma disciplined_captureIngestionWarning teamId type details always :
  disciplined (fun ack => exists w, ack = WarningAck w /\ alwaysSend w = always)
    (captureIngestionWarning teamId type details always : Run _).
Proof. intros r. constructor; simpl; eauto. Qed.

Ltac run_monad :=
  cbv beta iota zeta delta
    [bind emit this try_catch try_finally ret throw settle rejection
     completion trace runner_after runStep handleError registerLastStep
     captureIngestionWarning set_poEEmbraceJoin set_originalEvent];
  simpl.

Lemma disciplined_runStep {A} name (call : Runner -> Settled A) a teamId :
  disciplined (fun _ => True) (runStep ext name call a teamId true).
Proof.
  intros r. run_monad.
  destruct (call r) as [v | e]; run_monad.
  - constructor; auto.
  - destruct e as [[|] msg]; run_monad.
    + eapply discipline_retry; simpl; eauto.
    + destruct (queueMessage (hub r) _) as [[] | d] eqn:Hq; run_monad.
      * eapply (discipline_no_retry _ name a (mkError OtherError msg));
          simpl; eauto. discriminate.
      * eapply (discipline_no_retry _ name a (mkError OtherError msg));
          simpl; eauto.
        intros d' [= <-]. auto.
Qed.

(** The trace of [runStep] records the call with how its promise settled. *)
Lemma runStep_records_the_call {A} name (call : Runner -> Settled A) a teamId
    sentToDql (r : Runner) :
  In (StepAwaited name a (rejection (call r)))
     (trace (runStep ext name call a teamId sentToDql r)).
Proof.
  run_monad.
  destruct (call r) as [v | [[|] msg]]; run_monad; auto.
  destruct sentToDql; run_monad; auto.
  destruct (queueMessage (hub r) _) as [[] | d]; run_monad; auto.
Qed.

(** With [sentToDql = false] a failed step is turned into the same
    [StepErrorNoRetry], and nothing goes to the dead letter queue. *)
Lemma runStep_without_dead_letter {A} name (call : Runner -> Settled A) a
    teamId (r : Runner) (e : JsError) :
  call r = Rejected e ->
  error_class e = OtherError ->
  completion (runStep ext name call a teamId false r)
  = Abrupt (StepErrorNoRetry name a (error_message e))
  /\ dlq_writes (trace (runStep ext name call a teamId false r)) = [].
Proof.
  intros Hcall Hclass. run_monad. rewrite Hcall.
  destruct e as [cls msg]. simpl in Hclass. subst cls.
  run_monad. auto.
Qed.

Lemma disciplined_registered stepName a acks :
  registered {| ackPromises := acks; lastStep := stepName; args := a;
                error := None |} ->
  disciplined registered (registerLastStep stepName a acks : Run _).
Proof.
  intros Hreg.
  eapply disciplined_weaken; [apply disciplined_registerLastStep |].
  intros [acks' step' a' err'] (Hs & Ha & Hk & He). simpl in *. subst.
  exact Hreg.
Qed.

Lemma disciplined_emit_counter c labels :
  c <> "pipelineStepDLQCounter" ->
  disciplined (fun _ => True) (emit (CounterInc c labels) : Run _).
Proof.
  intros Hc r. run_monad. constructor; auto. simpl.
  destruct (String.eqb_spec c "pipelineStepDLQCounter"); congruence.
Qed.

Ltac discipline_step :=
  first
    [ apply disciplined_registered; split; simpl; tauto
    | apply disciplined_runStep
    | apply disciplined_captureIngestionWarning
    | apply disciplined_this
    | apply disciplined_emit_counter; discriminate
    | apply disciplined_ret ].

Ltac discipline_chain :=
  repeat first
    [ discipline_step
    | eapply disciplined_bind; [discipline_step | intros ? ?]
    | match goal with
      | |- disciplined _ (let '(_, _) := ?p in _) => destruct p
      | |- disciplined _ (match ?o with Some _ => _ | None => _ end) =>
          destruct o
      end ].

Lemma disciplined_deriveProcessPerson event acks :
  disciplined
    (fun flow => match flow with inl res => registered res | inr _ => True end)
    (deriveProcessPerson ext event acks).
Proof.
  unfold deriveProcessPerson.
  destruct (PluginEvent.properties event) as [props|];
    [destruct (props !! "$process_person") as [[| |[|]| |]|] |];
    try (apply disciplined_ret; exact I).
  - eapply disciplined_bind; [apply disciplined_captureIngestionWarning |].
    intros; apply disciplined_ret; exact I.
  - eapply disciplined_bind; [apply disciplined_captureIngestionWarning |].
    intros; apply disciplined_ret; exact I.
  - case_bool_decide.
    + eapply disciplined_bind; [apply disciplined_captureIngestionWarning |].
      intros ack _.
      eapply disciplined_bind; [discipline_step |].
      intros res Hres. apply disciplined_ret. exact Hres.
    + apply disciplined_ret; exact I.
  - eapply disciplined_bind; [apply disciplined_captureIngestionWarning |].
    intros; apply disciplined_ret; exact I.
  - eapply disciplined_bind; [apply disciplined_captureIngestionWarning |].
    intros; apply disciplined_ret; exact I.
Qed.

Lemma disciplined_runSteps event processPerson acks :
  disciplined registered (runSteps ext event processPerson acks).
Proof.
  unfold runSteps.
  destruct (String.eqb _ _); discipline_chain.
Qed.

Lemma disciplined_set_poEEmbraceJoin b :
  disciplined (fun _ => True) (set_poEEmbraceJoin b : Run _).
Proof. intros r. constructor; auto. Qed.

Lemma disciplined_runEventPipelineSteps event :
  disciplined registered (runEventPipelineSteps ext event).
Proof.
  unfold runEventPipelineSteps.
  eapply disciplined_bind; [apply disciplined_this | intros self _].
  eapply disciplined_bind.
  { destruct (embraceJoinApplies _ _);
      [apply disciplined_set_poEEmbraceJoin | apply disciplined_ret; exact I]. }
  intros _ _.
  eapply disciplined_bind; [apply disciplined_deriveProcessPerson |].
  intros [res | [[event' processPerson] acks]] Hflow.
  - apply disciplined_ret. exact Hflow.
  - apply disciplined_runSteps.
Qed.

(** The body of the [try] of [runEventPipeline]. *)
Lemma disciplined_pipeline_body event :
  disciplined registered
    (bind this (fun self =>
       if isEventDisallowed self event then
         bind (emit (CounterInc "eventDroppedCounter" ["analytics"; "disallowed"]))
           (fun _ =>
              registerLastStep "eventDisallowedStep" [ArgPipelineEvent event]
                None)
       else
         bind
           (runStep ext "populateTeamDataStep"
              (fun self => populateTeamDataStep ext self event)
              [ArgThis; ArgPipelineEvent event]
              (number_or (PipelineEvent.team_id event) (-1)) true)
           (fun eventWithTeam =>
              bind
                match eventWithTeam with
                | Some eventWithTeam => runEventPipelineSteps ext eventWithTeam
                | None =>
                    registerLastStep "populateTeamDataStep"
                      [ArgPipelineEvent event] None
                end
                (fun result =>
                   bind (emit (CounterInc "eventProcessedAndIngestedCounter" []))
                     (fun _ => ret result))))).
Proof.
  eapply disciplined_bind; [apply disciplined_this | intros self _].
  destruct (isEventDisallowed self event).
  - discipline_chain.
  - eapply disciplined_bind; [apply disciplined_runStep | intros withTeam _].
    eapply disciplined_bind.
    { destruct withTeam;
        [apply disciplined_runEventPipelineSteps | discipline_step]. }
    intros res Hres.
    eapply disciplined_bind; [discipline_step | intros _ _].
    apply disciplined_ret. exact Hres.
Qed.

(** ** How a run ends *)

(** The [catch] of [runEventPipeline] turns the discipline of the body into
    the three ways a run can end. *)
Lemma outcome_of_catch (body : Run EventPipelineResult) (r : Runner) :
  disciplined registered body ->
  let run :=
    try_catch body
      (fun error =>
         match error with
         | StepErrorNoRetry step _ message =>
             ret {| ackPromises := None; lastStep := step; args := [];
                    error := Some message |}
         | _ =>
             bind (emit (SentryCapture error
                           {| tag_team_id := None;
                              tag_pipeline_step := Some "outside" |}))
               (fun _ => throw error)
         end) r in
  pipeline_outcome (completion run) (trace run).
Proof.
  intros Hbody. specialize (Hbody r).
  unfold try_catch, completion, trace in *.
  destruct (body r) as [[c r1] t1]. simpl in Hbody.
  inversion Hbody as [res tr Hres Hr Hd Hc | n a e tr He Hr Hd Hc
                     | n a e m rej tr He Hr Hd Hc Hs]; subst; run_monad.
  - apply outcome_registered; auto.
  - eapply outcome_rethrown; split_trace; simpl; rewrite ?app_nil_r; eauto.
  - eapply outcome_dropped; rewrite ?app_nil_r; eauto.
Qed.

Lemma bind_set_originalEvent {A} (event : PipelineEvent.t)
    (k : unit -> Run A) (r : Runner) :
  bind (set_originalEvent event) k r
  = k tt {| hub := hub r; originalEvent := event;
            poEEmbraceJoin := poEEmbraceJoin r |}.
Proof.
  unfold bind, set_originalEvent.
  destruct (k tt _) as [[c r2] t2]. reflexivity.
Qed.

Lemma runEventPipeline_outcome (event : PipelineEvent.t) (r : Runner) :
  pipeline_outcome (completion (runEventPipeline ext event r))
                   (trace (runEventPipeline ext event r)).
Proof.
  unfold runEventPipeline. rewrite bind_set_originalEvent.
  apply outcome_of_catch, disciplined_pipeline_body.
Qed.

(** ** The routing flag *)

Lemma flag_monotone_bind {A B} (m : Run A) (k : A -> Run B) :
  flag_monotone m -> (forall a, flag_monotone (k a)) ->
  flag_monotone (bind m k).
Proof.
  intros Hm Hk r. specialize (Hm r).
  unfold bind, runner_after in *.
  destruct (m r) as [[[a | x] r1] t1]; simpl in *; auto.
  specialize (Hk a r1). unfold runner_after in Hk.
  destruct (k a r1) as [[c r2] t2]; simpl in *.
  destruct Hm, Hk; [left | right | right | right]; congruence.
Qed.

Lemma flag_monotone_try_catch {A} (m : Run A) (h : Exn -> Run A) :
  flag_monotone m -> (forall x, flag_monotone (h x)) ->
  flag_monotone (try_catch m h).
Proof.
  intros Hm Hh r. specialize (Hm r).
  unfold try_catch, runner_after in *.
  destruct (m r) as [[[a | x] r1] t1]; simpl in *; auto.
  specialize (Hh x r1). unfold runner_after in Hh.
  destruct (h x r1) as [[c r2] t2]; simpl in *.
  destruct Hm, Hh; [left | right | right | right]; congruence.
Qed.

Lemma flag_monotone_try_finally {A} (m : Run A) (f : list Eff) :
  flag_monotone m -> flag_monotone (try_finally m f).
Proof.
  intros Hm r. specialize (Hm r). unfold try_finally, runner_after in *.
  destruct (m r) as [[c r1] t1]; simpl in *; auto.
Qed.

Lemma flag_monotone_pure {A} (m : Run A) :
  (forall r, runner_after (m r) = r) -> flag_monotone m.
Proof. intros H r. rewrite H. auto. Qed.

Lemma flag_monotone_set_true : flag_monotone (set_poEEmbraceJoin true : Run _).
Proof. intros r. right. reflexivity. Qed.

Lemma flag_monotone_set_originalEvent ev :
  flag_monotone (set_originalEvent ev : Run _).
Proof. intros r. left. reflexivity. Qed.

Lemma flag_monotone_settle {A} (p : Settled A) : flag_monotone (settle p : Run A).
Proof. destruct p; apply flag_monotone_pure; reflexivity. Qed.

Ltac flag_step :=
  first
    [ apply flag_monotone_bind; [| intros ? ]
    | apply flag_monotone_try_catch; [| intros ? ]
    | apply flag_monotone_try_finally
    | apply flag_monotone_set_true
    | apply flag_monotone_set_originalEvent
    | apply flag_monotone_settle
    | apply flag_monotone_pure; reflexivity ].

Lemma flag_monotone_handleError {A} err name a teamId sentToDql :
  flag_monotone (handleError ext err name a teamId sentToDql : Run A).
Proof.
  unfold handleError.
  repeat first [ flag_step
               | match goal with
                 | |- flag_monotone (if ?b then _ else _) => destruct b
                 end ].
Qed.

Lemma flag_monotone_runStep {A} name (call : Runner -> Settled A) a teamId
    sentToDql :
  flag_monotone (runStep ext name call a teamId sentToDql).
Proof.
  unfold runStep.
  repeat first [ apply flag_monotone_handleError | flag_step ].
Qed.

Lemma flag_monotone_registerLastStep name a acks :
  flag_monotone (registerLastStep name a acks : Run _).
Proof. apply flag_monotone_pure; reflexivity. Qed.

Lemma flag_monotone_captureIngestionWarning teamId type details always :
  flag_monotone (captureIngestionWarning teamId type details always : Run _).
Proof. apply flag_monotone_pure; reflexivity. Qed.

Ltac flag_chain_with known :=
  repeat first
    [ known
    | apply flag_monotone_runStep
    | apply flag_monotone_registerLastStep
    | apply flag_monotone_captureIngestionWarning
    | flag_step
    | match goal with
      | |- flag_monotone (if ?b then _ else _) => destruct b
      | |- flag_monotone (let '(_, _) := ?p in _) => destruct p
      | |- flag_monotone (match ?o with Some _ => _ | None => _ end) =>
          destruct o
      | |- flag_monotone (match ?o with inl _ => _ | inr _ => _ end) =>
          destruct o
      | |- flag_monotone (match ?v with JBool _ => _ | _ => _ end) =>
          destruct v
      | |- flag_monotone (match ?x with StepErrorNoRetry _ _ _ => _ | _ => _ end) =>
          destruct x
      end ].

Lemma flag_monotone_runEventPipelineSteps event :
  flag_monotone (runEventPipelineSteps ext event).
Proof.
  unfold runEventPipelineSteps, deriveProcessPerson, runSteps.
  flag_chain_with fail.
Qed.

Lemma flag_monotone_runEventPipeline event :
  flag_monotone (runEventPipeline ext event).
Proof.
  unfold runEventPipeline.
  flag_chain_with ltac:(apply flag_monotone_runEventPipelineSteps).
Qed.

(** ** Effects of a given kind *)

Lemma all_effects_bind {A B} (P : Eff -> Prop) (m : Run A) (k : A -> Run B) :
  all_effects P m -> (forall a, all_effects P (k a)) -> all_effects P (bind m k).
Proof.
  intros Hm Hk r. specialize (Hm r). unfold bind, trace in *.
  destruct (m r) as [[[a | x] r1] t1]; simpl in *; auto.
  specialize (Hk a r1). unfold trace in Hk.
  destruct (k a r1) as [[c r2] t2]; simpl in *.
  apply Forall_app; auto.
Qed.

Lemma all_effects_try_catch {A} (P : Eff -> Prop) (m : Run A)
    (h : Exn -> Run A) :
  all_effects P m -> (forall x, all_effects P (h x)) ->
  all_effects P (try_catch m h).
Proof.
  intros Hm Hh r. specialize (Hm r). unfold try_catch, trace in *.
  destruct (m r) as [[[a | x] r1] t1]; simpl in *; auto.
  specialize (Hh x r1). unfold trace in Hh.
  destruct (h x r1) as [[c r2] t2]; simpl in *.
  apply Forall_app; auto.
Qed.

Lemma all_effects_try_finally {A} (P : Eff -> Prop) (m : Run A)
    (f : list Eff) :
  all_effects P m -> Forall P f -> all_effects P (try_finally m f).
Proof.
  intros Hm Hf r. specialize (Hm r). unfold try_finally, trace in *.
  destruct (m r) as [[c r1] t1]; simpl in *. apply Forall_app; auto.
Qed.

Lemma all_effects_emit (P : Eff -> Prop) (eff : Eff) :
  P eff -> all_effects P (emit eff : Run _).
Proof. intros H r. repeat constructor. exact H. Qed.

Lemma all_effects_silent {A} (P : Eff -> Prop) (m : Run A) :
  (forall r, trace (m r) = []) -> all_effects P m.
Proof. intros H r. rewrite H. constructor. Qed.

Lemma all_effects_settle {A} (P : Eff -> Prop) (p : Settled A) :
  all_effects P (settle p : Run A).
Proof. destruct p; apply all_effects_silent; reflexivity. Qed.

Ltac effects_chain_with known :=
  repeat first
    [ known
    | apply all_effects_bind; [| intros ? ]
    | apply all_effects_try_catch; [| intros ? ]
    | apply all_effects_try_finally; [| repeat constructor ]
    | apply all_effects_settle
    | apply all_effects_emit; exact I
    | apply all_effects_silent; reflexivity
    | match goal with
      | |- all_effects _ (if ?b then _ else _) => destruct b
      | |- all_effects _ (let '(_, _) := ?p in _) => destruct p
      | |- all_effects _ (match ?o with Some _ => _ | None => _ end) =>
          destruct o
      end ].

Lemma runStep_not_best_effort {A} name (call : Runner -> Settled A) a teamId
    sentToDql :
  all_effects not_best_effort (runStep ext name call a teamId sentToDql).
Proof. unfold runStep, handleError. effects_chain_with fail. Qed.

Lemma runSteps_not_best_effort event processPerson acks :
  all_effects not_best_effort (runSteps ext event processPerson acks).
Proof.
  unfold runSteps, captureIngestionWarning, registerLastStep.
  effects_chain_with ltac:(apply runStep_not_best_effort).
  apply all_effects_emit. reflexivity.
Qed.

Lemma best_effort_warnings_none (tr : list Eff) :
  Forall not_best_effort tr -> best_effort_warnings tr = [].
Proof.
  unfold best_effort_warnings, warnings.
  induction 1 as [| eff tr Heff _ IH]; [reflexivity |].
  destruct eff; simpl in *; auto.
  rewrite filter_cons_False; [exact IH | congruence].
Qed.

Lemma dlq_writes_In (t : list Eff) m w d :
  In (QueueMessage m w d) t -> In (m, d) (dlq_writes t).
Proof.
  unfold dlq_writes. rewrite <- !list_elem_of_In, list_elem_of_omap.
  intros H. eexists. split; [exact H | reflexivity].
Qed.

(** * The properties of the specification *)

(** C1, as amended. If a step of a run rejects with an error that is not a
    [DependencyUnavailableError], [runEventPipeline] returns a result whose
    [lastStep] is the name of that step and whose [error] field is the
    message of the error, which is empty exactly when the message of the
    error is; and the run hands exactly one message to the producer for
    the dead letter queue (and counts one for that step).  Every [runStep]
    of a run leaves [sentToDql] at its default, [true]. *)
Theorem step_error_is_dropped_to_dead_letter_queue
    (event : PipelineEvent.t) (r : Runner)
    (stage : string) (stageArgs : list Arg) (e : JsError) :
  In (StepAwaited stage stageArgs (Some e))
     (trace (runEventPipeline ext event r)) ->
  error_class e <> DependencyUnavailableError ->
  exists result,
    completion (runEventPipeline ext event r) = Normal result
    /\ lastStep result = stage
    /\ error result = Some (error_message e)
    /\ (error result = Some EmptyString <-> error_message e = EmptyString)
    /\ length (dlq_writes (trace (runEventPipeline ext event r))) = 1%nat
    /\ counter_incs "pipelineStepDLQCounter"
         (trace (runEventPipeline ext event r)) = [[stage]].
Proof.
  intros Hin Hclass. apply raised_In in Hin.
  destruct (runEventPipeline_outcome event r)
    as [res tr Hres Hr Hd Hc | n a e' tr He Hr Hd Hc
       | n a e' m rej tr He Hr Hd Hc Hs];
    rewrite Hr in Hin; simpl in Hin.
  - contradiction.
  - destruct Hin as [[= <- <- <-] | []]. contradiction.
  - destruct Hin as [[= <- <- <-] | []].
    eexists. split; [reflexivity |]. rewrite Hd, Hc. simpl.
    split; [reflexivity |]. split; [reflexivity |].
    split; [| auto].
    split; [intros [= H]; exact H | intros ->; reflexivity].
Qed.

(** C2. If a step of a run rejects with a [DependencyUnavailableError],
    [runEventPipeline] throws that same error: it returns no result, and
    the run hands nothing to the producer for the dead letter queue. *)
Theorem dependency_error_is_rethrown
    (event : PipelineEvent.t) (r : Runner)
    (stage : string) (stageArgs : list Arg) (e : JsError) :
  In (StepAwaited stage stageArgs (Some e))
     (trace (runEventPipeline ext event r)) ->
  error_class e = DependencyUnavailableError ->
  completion (runEventPipeline ext event r) = Abrupt (Thrown e)
  /\ (forall result,
        completion (runEventPipeline ext event r) <> Normal result)
  /\ dlq_writes (trace (runEventPipeline ext event r)) = []
  /\ counter_incs "pipelineStepDLQCounter"
       (trace (runEventPipeline ext event r)) = [].
Proof.
  intros Hin Hclass. apply raised_In in Hin.
  destruct (runEventPipeline_outcome event r)
    as [res tr Hres Hr Hd Hc | n a e' tr He Hr Hd Hc
       | n a e' m rej tr He Hr Hd Hc Hs];
    rewrite Hr in Hin; simpl in Hin.
  - contradiction.
  - destruct Hin as [[= <- <- <-] | []]. repeat split; auto; discriminate.
  - destruct Hin as [[= <- <- <-] | []]. congruence.
Qed.

(** C3, as amended. A run in which no step rejects with a
    [DependencyUnavailableError] returns exactly one result. *)
Theorem one_result_unless_dependency_error
    (event : PipelineEvent.t) (r : Runner) :
  (forall stage stageArgs e,
      In (StepAwaited stage stageArgs (Some e))
         (trace (runEventPipeline ext event r)) ->
      error_class e <> DependencyUnavailableError) ->
  exists! result, completion (runEventPipeline ext event r) = Normal result.
Proof.
  intros Hnone.
  destruct (runEventPipeline_outcome event r)
    as [res tr Hres Hr Hd Hc | n a e' tr He Hr Hd Hc
       | n a e' m rej tr He Hr Hd Hc Hs].
  - exists res. split; [reflexivity | congruence].
  - exfalso. apply (Hnone n a e'); [| exact He].
    apply raised_In. rewrite Hr. left. reflexivity.
  - eexists. split; [reflexivity | congruence].
Qed.

(** C8. If the write to the dead letter queue that follows a step failure
    rejects, the run still returns a result with the name of the failed
    step and the message of its error; the error of the write is reported
    to Sentry and goes no further. *)
Theorem dead_letter_failure_is_not_escalated
    (event : PipelineEvent.t) (r : Runner)
    (stage : string) (stageArgs : list Arg) (e : JsError)
    (message : ProducerRecord) (dlqError : JsError) :
  In (StepAwaited stage stageArgs (Some e))
     (trace (runEventPipeline ext event r)) ->
  error_class e <> DependencyUnavailableError ->
  In (QueueMessage message true (Some dlqError))
     (trace (runEventPipeline ext event r)) ->
  (exists result,
      completion (runEventPipeline ext event r) = Normal result
      /\ lastStep result = stage
      /\ error result = Some (error_message e))
  /\ (forall x, completion (runEventPipeline ext event r) <> Abrupt x)
  /\ In (Thrown dlqError)
        (sentry_reports (trace (runEventPipeline ext event r))).
Proof.
  intros Hin Hclass Hdlq.
  apply raised_In in Hin. apply dlq_writes_In in Hdlq.
  destruct (runEventPipeline_outcome event r)
    as [res tr Hres Hr Hd Hc | n a e' tr He Hr Hd Hc
       | n a e' m rej tr He Hr Hd Hc Hs];
    rewrite Hr in Hin; simpl in Hin.
  - contradiction.
  - destruct Hin as [[= <- <- <-] | []]. contradiction.
  - destruct Hin as [[= <- <- <-] | []].
    rewrite Hd in Hdlq. destruct Hdlq as [[= -> ->] | []].
    split; [eexists; split; [reflexivity | auto] |].
    split; [discriminate | auto].
Qed.

(** C10. [poEEmbraceJoin] is set by the constructor, and every method of
    the runner leaves it as it is or sets it to [true]. *)
Theorem poEEmbraceJoin_is_monotone :
  (forall h ev flag,
      poEEmbraceJoin (constructor h ev flag : Runner) = default false flag)
  /\ (forall event, flag_monotone (runEventPipeline ext event))
  /\ (forall event, flag_monotone (runEventPipelineSteps ext event))
  /\ (forall A name (call : Runner -> Settled A) a teamId sentToDql,
        flag_monotone (runStep ext name call a teamId sentToDql))
  /\ (forall A err name a teamId sentToDql,
        flag_monotone (handleError ext err name a teamId sentToDql : Run A))
  /\ (forall name a acks,
        flag_monotone (registerLastStep name a acks : Run _)).
Proof.
  split; [reflexivity |].
  split; [apply flag_monotone_runEventPipeline |].
  split; [apply flag_monotone_runEventPipelineSteps |].
  split; [intros; apply flag_monotone_runStep |].
  split; [intros; apply flag_monotone_handleError |].
  intros; apply flag_monotone_registerLastStep.
Qed.

(** ** The key of the drop list *)

Lemma pretty_N_go_nonempty (x : N) (s : string) :
  s <> "" -> pretty_N_go x s <> "".
Proof.
  revert s. induction (N.lt_wf_0 x) as [x _ IH]. intros s Hs.
  destruct (decide (x = 0)%N) as [-> | Hx].
  - rewrite pretty_N_go_0. exact Hs.
  - rewrite pretty_N_go_step by lia.
    apply IH; [apply N.div_lt; lia | discriminate].
Qed.

Lemma pretty_N_nonempty (x : N) : pretty x <> "".
Proof.
  unfold pretty, pretty_N. destruct (decide (x = 0)%N) as [-> | Hx].
  - discriminate.
  - rewrite pretty_N_go_step by lia.
    apply pretty_N_go_nonempty. discriminate.
Qed.

(** [n.toString()] is never the empty string. *)
Lemma pretty_Z_nonempty (n : Z) : pretty n <> "".
Proof.
  destruct n as [| p | p]; unfold pretty, pretty_Z.
  - discriminate.
  - apply pretty_N_nonempty.
  - discriminate.
Qed.

Lemma truthy_string_nonempty (s : string) :
  s <> "" -> truthy_string (Some s) = Some s.
Proof. destruct s; [congruence | reflexivity]. Qed.

Lemma drop_key_token (event : PipelineEvent.t) (tok : string) :
  PipelineEvent.token event = Some tok -> tok <> "" ->
  drop_key event = Some tok.
Proof.
  intros Ht Hne. unfold drop_key.
  rewrite Ht, truthy_string_nonempty by exact Hne. reflexivity.
Qed.

Lemma drop_key_team_id (event : PipelineEvent.t) (teamId : Z) :
  PipelineEvent.token event = None \/ PipelineEvent.token event = Some "" ->
  PipelineEvent.team_id event = Some teamId ->
  drop_key event = Some (pretty teamId).
Proof.
  intros Ht Hteam. unfold drop_key.
  destruct Ht as [-> | ->]; simpl; rewrite Hteam; simpl;
    apply truthy_string_nonempty, pretty_Z_nonempty.
Qed.

Lemma drop_key_none (event : PipelineEvent.t) :
  PipelineEvent.token event = None -> PipelineEvent.team_id event = None ->
  drop_key event = None.
Proof. intros Ht Hteam. unfold drop_key. rewrite Ht, Hteam. reflexivity. Qed.

(** C4. An event whose distinct id, or the wildcard, is in the drop list
    under its token (under its team id when it has no token) ends the run
    at [eventDisallowedStep], with no acknowledgements, and no step is
    called. *)
Theorem disallowed_event_is_dropped
    (event : PipelineEvent.t) (r : Runner) (key : string)
    (byToken : gmap string (list string)) (dropIds : list string) :
  (PipelineEvent.token event = Some key /\ key <> "")
  \/ ((PipelineEvent.token event = None \/ PipelineEvent.token event = Some "")
      /\ exists teamId,
           PipelineEvent.team_id event = Some teamId /\ key = pretty teamId) ->
  eventsToDropByToken (hub r) = Some byToken ->
  byToken !! key = Some dropIds ->
  PipelineEvent.distinct_id event ∈ dropIds \/ "*" ∈ dropIds ->
  completion (runEventPipeline ext event r)
  = Normal {| ackPromises := None; lastStep := "eventDisallowedStep";
              args := [ArgPipelineEvent event]; error := None |}
  /\ awaited (trace (runEventPipeline ext event r)) = []
  /\ counter_incs "eventDroppedCounter" (trace (runEventPipeline ext event r))
     = [["analytics"; "disallowed"]].
Proof.
  intros Hkey Hdrops Hlookup Hin.
  assert (drop_key event = Some key) as Hk.
  { destruct Hkey as [[Ht Hne] | [Ht (teamId & Hteam & ->)]].
    - apply drop_key_token; assumption.
    - apply drop_key_team_id; assumption. }
  assert (isEventDisallowed
            {| hub := hub r; originalEvent := event;
               poEEmbraceJoin := poEEmbraceJoin r |} event = true) as Hdis.
  { unfold isEventDisallowed. simpl. rewrite Hk, Hdrops, Hlookup.
    apply orb_true_iff.
    destruct Hin; [left | right]; apply bool_decide_eq_true; assumption. }
  unfold runEventPipeline. rewrite bind_set_originalEvent.
  run_monad. rewrite Hdis. run_monad. auto.
Qed.

(** C9. An event with neither a token nor a team id is not dropped by the
    disallow check, whatever the drop list holds: the first thing the run
    does is to call [populateTeamDataStep]. *)
Theorem event_without_key_reaches_team_resolution
    (event : PipelineEvent.t) (r : Runner) :
  PipelineEvent.token event = None ->
  PipelineEvent.team_id event = None ->
  (forall self : Runner, isEventDisallowed self event = false)
  /\ exists rest,
       trace (runEventPipeline ext event r)
       = SpanStart "runStep" "populateTeamDataStep"
         :: TimeoutGuard "populateTeamDataStep" (-1)
              (PipelineEvent.distinct_id event)
              (PIPELINE_STEP_STALLED_LOG_TIMEOUT (hub r) * 1000)
         :: StepAwaited "populateTeamDataStep"
              [ArgThis; ArgPipelineEvent event]
              (rejection
                 (populateTeamDataStep ext
                    {| hub := hub r; originalEvent := event;
                       poEEmbraceJoin := poEEmbraceJoin r |} event))
         :: rest.
Proof.
  intros Ht Hteam.
  assert (forall self : Runner, isEventDisallowed self event = false) as Hdis.
  { intros self. unfold isEventDisallowed.
    rewrite drop_key_none by assumption. reflexivity. }
  split; [exact Hdis |].
  unfold runEventPipeline. rewrite bind_set_originalEvent.
  run_monad. rewrite Hdis, Hteam. simpl.
  destruct (populateTeamDataStep ext _ event) as [[withTeam |] | [[|] msg]];
    run_monad.
  - destruct (runEventPipelineSteps ext withTeam _) as [[[res | x] r1] t1];
      [| destruct x]; run_monad; eexists; reflexivity.
  - eexists; reflexivity.
  - eexists; reflexivity.
  - destruct (queueMessage (hub r) _) as [[] | d]; run_monad;
      eexists; reflexivity.
Qed.

(** ** The main sequence *)

Lemma bind_this {A} (k : Runner -> Run A) (r : Runner) :
  bind this k r = k r r.
Proof. unfold bind, this. destruct (k r r) as [[c r2] t2]. reflexivity. Qed.

Lemma bind_ret {A B} (a : A) (k : A -> Run B) (r : Runner) :
  bind (ret a) k r = k a r.
Proof. unfold bind, ret. destruct (k a r) as [[c r2] t2]. reflexivity. Qed.

Lemma bind_set_poEEmbraceJoin {A} (b : bool) (k : unit -> Run A) (r : Runner) :
  bind (set_poEEmbraceJoin b) k r
  = k tt {| hub := hub r; originalEvent := originalEvent r;
            poEEmbraceJoin := b |}.
Proof.
  unfold bind, set_poEEmbraceJoin.
  destruct (k tt _) as [[c r2] t2]. reflexivity.
Qed.

(** The runner once the first [if] of [runEventPipelineSteps] is done. *)
Lemma runEventPipelineSteps_unfold (event : PluginEvent.t) (r : Runner) :
  exists r' : Runner,
    hub r' = hub r
    /\ runEventPipelineSteps ext event r
       = bind (deriveProcessPerson ext event [])
           (fun flow =>
              match flow with
              | inl result => ret result
              | inr (event, processPerson, kafkaAcks) =>
                  runSteps ext event processPerson kafkaAcks
              end) r'.
Proof.
  unfold runEventPipelineSteps. rewrite bind_this.
  destruct (embraceJoinApplies (hub r) (PluginEvent.team_id event)).
  - rewrite bind_set_poEEmbraceJoin. eexists. split; [| reflexivity].
    reflexivity.
  - rewrite bind_ret. exists r. split; reflexivity.
Qed.

(** C5. For an event with [$process_person] equal to the boolean [false]
    whose name is one of [$identify], [$create_alias], [$merge_dangerously]
    and [$groupidentify], [runEventPipelineSteps] returns at
    [invalidEventForProvidedFlags] with one acknowledgement, that of a
    warning queued with [alwaysSend], and calls no step. *)
Theorem invalid_event_for_disabled_person_processing
    (event : PluginEvent.t) (r : Runner) (props : gmap string js_value) :
  PluginEvent.properties event = Some props ->
  props !! "$process_person" = Some (JBool false) ->
  PluginEvent.event event
    ∈ ["$identify"; "$create_alias"; "$merge_dangerously"; "$groupidentify"] ->
  exists w,
    alwaysSend w = true
    /\ warning_type w = "invalid_event_when_process_person_is_false"
    /\ completion (runEventPipelineSteps ext event r)
       = Normal {| ackPromises := Some [WarningAck w];
                   lastStep := "invalidEventForProvidedFlags";
                   args := [ArgPluginEvent event]; error := None |}
    /\ awaited (trace (runEventPipelineSteps ext event r)) = []
    /\ warnings (trace (runEventPipelineSteps ext event r)) = [w].
Proof.
  intros Hprops Hfalse Hname.
  destruct (runEventPipelineSteps_unfold event r) as (r' & _ & ->).
  unfold deriveProcessPerson. rewrite Hprops, Hfalse.
  rewrite (bool_decide_eq_true_2 _ Hname).
  eexists. split; [| split; [| split; [| split]]];
    [| | run_monad; reflexivity | run_monad; reflexivity
     | run_monad; reflexivity]; reflexivity.
Qed.

(** * More properties of the runner *)

(** ** Invariants of the runner and of the trace *)

Section Maintains.

Variable I : Runner -> Prop.
Variable T : list Eff -> Prop.
Hypothesis T_nil : T [].
Hypothesis T_app : forall t1 t2, T t1 -> T t2 -> T (t1 ++ t2).

Lemma maintains_bind {A B} (m : Run A) (k : A -> Run B) :
  maintains I T m -> (forall a, maintains I T (k a)) ->
  maintains I T (bind m k).
Proof.
  intros Hm Hk r Hr. specialize (Hm r Hr).
  unfold bind, runner_after, trace in *.
  destruct (m r) as [[[a | x] r1] t1]; simpl in *; auto.
  destruct Hm as [Hr1 Ht1]. specialize (Hk a r1 Hr1).
  unfold runner_after, trace in Hk.
  destruct (k a r1) as [[c r2] t2]; simpl in *.
  destruct Hk. auto.
Qed.

Lemma maintains_try_catch {A} (m : Run A) (h : Exn -> Run A) :
  maintains I T m -> (forall x, maintains I T (h x)) ->
  maintains I T (try_catch m h).
Proof.
  intros Hm Hh r Hr. specialize (Hm r Hr).
  unfold try_catch, runner_after, trace in *.
  destruct (m r) as [[[a | x] r1] t1]; simpl in *; auto.
  destruct Hm as [Hr1 Ht1]. specialize (Hh x r1 Hr1).
  unfold runner_after, trace in Hh.
  destruct (h x r1) as [[c r2] t2]; simpl in *.
  destruct Hh. auto.
Qed.

Lemma maintains_quiet {A} (m : Run A) :
  (forall r, runner_after (m r) = r /\ trace (m r) = []) -> maintains I T m.
Proof. intros H r Hr. destruct (H r) as [-> ->]. auto. Qed.

Lemma maintains_emit (eff : Eff) : T [eff] -> maintains I T (emit eff : Run _).
Proof. intros H r Hr. split; [exact Hr | exact H]. Qed.

Lemma maintains_settle {A} (p : Settled A) : maintains I T (settle p : Run A).
Proof. destruct p; apply maintains_quiet; intros; split; reflexivity. Qed.

(** What the orchestrator needs of [I] and [T]: every [runStep] maintains
    them, its own effects satisfy [T], and setting the flag keeps [I]. *)
Hypothesis runStep_maintains :
  forall A name (call : Runner -> Settled A) a teamId,
    maintains I T (runStep ext name call a teamId true).
Hypothesis T_orchestrator : forall eff, orchestrator_effect eff -> T [eff].
Hypothesis I_flag :
  forall r : Runner,
    I r ->
    I {| hub := hub r; originalEvent := originalEvent r;
         poEEmbraceJoin := true |}.

Ltac maintains_chain :=
  repeat first
    [ apply runStep_maintains
    | apply maintains_bind; [| intros ? ]
    | apply maintains_emit; apply T_orchestrator; simpl; tauto
    | apply maintains_quiet; intros; split; reflexivity
    | match goal with
      | |- maintains _ _ (if ?b then _ else _) => destruct b
      | |- maintains _ _ (let '(_, _) := ?p in _) => destruct p
      | |- maintains _ _ (match ?o with Some _ => _ | None => _ end) =>
          destruct o
      | |- maintains _ _ (match ?o with inl _ => _ | inr _ => _ end) =>
          destruct o
      | |- maintains _ _ (match ?v with JBool _ => _ | _ => _ end) =>
          destruct v
      end ].

Lemma maintains_deriveProcessPerson event acks :
  maintains I T (deriveProcessPerson ext event acks).
Proof.
  unfold deriveProcessPerson, captureIngestionWarning, registerLastStep.
  maintains_chain.
Qed.

Lemma maintains_runSteps event processPerson acks :
  maintains I T (runSteps ext event processPerson acks).
Proof.
  unfold runSteps, captureIngestionWarning, registerLastStep.
  maintains_chain.
Qed.

Lemma maintains_runEventPipelineSteps event :
  maintains I T (runEventPipelineSteps ext event).
Proof.
  unfold runEventPipelineSteps.
  apply maintains_bind; [apply maintains_quiet; intros; split; reflexivity |].
  intros self. apply maintains_bind.
  { destruct (embraceJoinApplies _ _).
    - intros r Hr. split; [apply I_flag; exact Hr | exact T_nil].
    - apply maintains_quiet; intros; split; reflexivity. }
  intros _. apply maintains_bind; [apply maintains_deriveProcessPerson |].
  intros [res | [[event' processPerson] acks]].
  - apply maintains_quiet; intros; split; reflexivity.
  - apply maintains_runSteps.
Qed.

(** [runEventPipeline] assigns [originalEvent] first; from there on the
    invariant is kept. *)
Lemma maintains_runEventPipeline event (r : Runner) :
  I {| hub := hub r; originalEvent := event;
       poEEmbraceJoin := poEEmbraceJoin r |} ->
  I (runner_after (runEventPipeline ext event r))
  /\ T (trace (runEventPipeline ext event r)).
Proof.
  intros Hr. unfold runEventPipeline. rewrite bind_set_originalEvent.
  revert Hr. generalize {| hub := hub r; originalEvent := event;
                           poEEmbraceJoin := poEEmbraceJoin r |}.
  change (maintains I T
    (try_catch
       (bind this (fun self =>
          if isEventDisallowed self event then
            bind (emit (CounterInc "eventDroppedCounter"
                          ["analytics"; "disallowed"]))
              (fun _ =>
                 registerLastStep "eventDisallowedStep"
                   [ArgPipelineEvent event] None)
          else
            bind
              (runStep ext "populateTeamDataStep"
                 (fun self => populateTeamDataStep ext self event)
                 [ArgThis; ArgPipelineEvent event]
                 (number_or (PipelineEvent.team_id event) (-1)) true)
              (fun eventWithTeam =>
                 bind
                   match eventWithTeam with
                   | Some eventWithTeam =>
                       runEventPipelineSteps ext eventWithTeam
                   | None =>
                       registerLastStep "populateTeamDataStep"
                         [ArgPipelineEvent event] None
                   end
                   (fun result =>
                      bind
                        (emit (CounterInc "eventProcessedAndIngestedCounter"
                                 []))
                        (fun _ => ret result)))))
       (fun error =>
          match error with
          | StepErrorNoRetry step _ message =>
              ret {| ackPromises := None; lastStep := step; args := [];
                     error := Some message |}
          | _ =>
              bind (emit (SentryCapture error
                            {| tag_team_id := None;
                               tag_pipeline_step := Some "outside" |}))
                (fun _ => throw error)
          end))).
  apply maintains_try_catch.
  - apply maintains_bind; [apply maintains_quiet; intros; split; reflexivity |].
    intros self. destruct (isEventDisallowed self event).
    + unfold registerLastStep. maintains_chain.
    + apply maintains_bind; [apply runStep_maintains |].
      intros withTeam. apply maintains_bind.
      { destruct withTeam; [apply maintains_runEventPipelineSteps |].
        unfold registerLastStep. maintains_chain. }
      intros res. maintains_chain.
  - intros [step a msg | e]; maintains_chain.
Qed.

End Maintains.

(** ** [runStep] by cases *)

Ltac runStep_cases call r :=
  run_monad;
  destruct (call r) as [? | [[|] ?]]; run_monad;
  [ | | destruct (queueMessage (hub r) _) as [[] | ?]; run_monad ].

Lemma runStep_unchanged {A} name (call : Runner -> Settled A) a teamId
    sentToDql (r : Runner) :
  runner_after (runStep ext name call a teamId sentToDql r) = r.
Proof.
  run_monad. destruct (call r) as [? | [[|] ?]]; run_monad; auto.
  destruct sentToDql; run_monad; auto.
  destruct (queueMessage (hub r) _) as [[] | ?]; run_monad; auto.
Qed.

Lemma runStep_balanced {A} name (call : Runner -> Settled A) a teamId
    (r : Runner) :
  timers_balanced (trace (runStep ext name call a teamId true r)).
Proof. runStep_cases call r; split; reflexivity. Qed.

Lemma runStep_awaited {A} name (call : Runner -> Settled A) a teamId
    (r : Runner) :
  awaited (trace (runStep ext name call a teamId true r)) = [name].
Proof. runStep_cases call r; reflexivity. Qed.

Lemma runStep_dlq_justified {A} name (call : Runner -> Settled A) a teamId
    (r : Runner) :
  dlq_justified ext (originalEvent r) (hub r)
    (trace (runStep ext name call a teamId true r)).
Proof.
  intros m w rej.
  run_monad. destruct (call r) as [v | [[|] msg]]; run_monad.
  - intuition discriminate.
  - intuition discriminate.
  - destruct (queueMessage (hub r) _) as [[] | d] eqn:Hq; run_monad;
      intros H; decompose [or] H; clear H; try discriminate;
      try contradiction;
      match goal with
      | H : QueueMessage _ _ _ = QueueMessage _ _ _ |- _ =>
          injection H as <- <- <-
      end;
      (split; [reflexivity |]);
      exists name, a, {| error_class := OtherError; error_message := msg |},
        teamId;
      (split; [simpl; tauto |]); (split; [reflexivity |]);
      (split; [reflexivity |]); rewrite Hq; reflexivity.
Qed.

(** X1. Every stall timer that [runStep] arms is cleared, whether the step
    resolves or rejects: in a run there are as many [clearTimeout] as
    timers armed, one pair for each step that was called. *)
Theorem stall_timers_are_cleared (event : PipelineEvent.t) (r : Runner) :
  length (timeouts_set (trace (runEventPipeline ext event r)))
  = length (timeouts_cleared (trace (runEventPipeline ext event r)))
  /\ length (timeouts_set (trace (runEventPipeline ext event r)))
     = length (awaited (trace (runEventPipeline ext event r))).
Proof.
  apply (maintains_runEventPipeline (fun _ => True) timers_balanced).
  - split; reflexivity.
  - intros t1 t2 [H1 H1'] [H2 H2']. unfold timers_balanced, timeouts_set,
      timeouts_cleared, awaited in *.
    rewrite !omap_app, !length_app. lia.
  - intros A name call a teamId r0 _. split; [exact Logic.I |].
    apply runStep_balanced.
  - intros eff Heff. destruct eff; try contradiction; split; reflexivity.
  - auto.
  - exact Logic.I.
Qed.

(** X2. A run of [runEventPipeline] leaves the hub of the runner as it is
    and leaves the event of the run in [originalEvent]; no step and no
    later assignment replaces it. *)
Theorem run_keeps_hub_and_original_event
    (event : PipelineEvent.t) (r : Runner) :
  hub (runner_after (runEventPipeline ext event r)) = hub r
  /\ originalEvent (runner_after (runEventPipeline ext event r)) = event.
Proof.
  apply (maintains_runEventPipeline
           (fun r' : Runner => hub r' = hub r /\ originalEvent r' = event)
           (fun _ => True)); auto.
  intros A name call a teamId r0 Hr0. rewrite runStep_unchanged. auto.
Qed.

(** X3. Whatever a run hands to the producer for the dead letter queue was
    built from the event the run was given (not an event a step returned),
    from the error of a step of that run that is not a
    [DependencyUnavailableError], and from the label
    [plugin_server_ingest_event:<step name>]; the write waits for its
    acknowledgement. *)
Theorem dead_letter_message_holds_the_original_event
    (event : PipelineEvent.t) (r : Runner)
    (m : ProducerRecord) (waitForAck : bool) (rej : option JsError) :
  In (QueueMessage m waitForAck rej) (trace (runEventPipeline ext event r)) ->
  waitForAck = true
  /\ exists stage stageArgs e teamId,
       In (StepAwaited stage stageArgs (Some e))
          (trace (runEventPipeline ext event r))
       /\ error_class e = OtherError
       /\ m = generateEventDeadLetterQueueMessage ext event (Thrown e)
                teamId ("plugin_server_ingest_event:" +:+ stage)
       /\ rej = rejection (queueMessage (hub r) m).
Proof.
  revert m waitForAck rej.
  change (dlq_justified ext event (hub r)
            (trace (runEventPipeline ext event r))).
  apply (maintains_runEventPipeline
           (fun r' : Runner => hub r' = hub r /\ originalEvent r' = event)
           (dlq_justified ext event (hub r))); auto.
  - intros m w rej [].
  - intros t1 t2 H1 H2 m w rej Hin. apply in_app_or in Hin.
    destruct Hin as [Hin | Hin];
      [destruct (H1 m w rej Hin) as (Hw & n & a & e & t & Hs & Hrest)
      | destruct (H2 m w rej Hin) as (Hw & n & a & e & t & Hs & Hrest)];
      (split; [exact Hw |]); exists n, a, e, t;
      (split; [apply in_or_app; auto | exact Hrest]).
  - intros A name call a teamId r0 [Hh Ho]. rewrite runStep_unchanged.
    split; [auto |]. rewrite <- Hh, <- Ho. apply runStep_dlq_justified.
  - intros eff Heff m0 w0 rej0 Hin.
    destruct eff; try contradiction;
      destruct Hin as [Hin | []]; discriminate Hin.
Qed.

(** X25. The failure counters count the failed steps of a run, each with
    the name of the step as label: [pipelineStepErrorCounter] every step
    whose promise rejected, [pipelineStepThrowCounter] those that rejected
    with a [DependencyUnavailableError], [pipelineStepDLQCounter] those
    that rejected with another error.  No other code of the run touches
    them. *)
Theorem failure_counters_count_the_failed_steps
    (event : PipelineEvent.t) (r : Runner) :
  counter_incs "pipelineStepErrorCounter"
    (trace (runEventPipeline ext event r))
  = failed_steps (trace (runEventPipeline ext event r))
  /\ counter_incs "pipelineStepThrowCounter"
       (trace (runEventPipeline ext event r))
     = rethrown_steps (trace (runEventPipeline ext event r))
  /\ counter_incs "pipelineStepDLQCounter"
       (trace (runEventPipeline ext event r))
     = dead_lettered_steps (trace (runEventPipeline ext event r)).
Proof.
  apply (maintains_runEventPipeline (fun _ => True) failures_counted).
  - repeat split.
  - intros t1 t2 (H1 & H2 & H3) (H1' & H2' & H3').
    unfold failures_counted, failed_steps, rethrown_steps,
      dead_lettered_steps, counter_incs in *.
    rewrite !omap_app. repeat split; congruence.
  - intros A name call a teamId r0 _. split; [exact Logic.I |].
    runStep_cases call r0; repeat split.
  - intros eff Heff. destruct eff; try contradiction;
      try (simpl in Heff; decompose [or] Heff; subst; try contradiction);
      repeat split.
  - auto.
  - exact Logic.I.
Qed.

(** X26. The duration of a step is observed in [pipelineStepMsSummary]
    exactly when its promise resolved: a step that fails leaves no
    duration. *)
Theorem durations_are_observed_for_resolved_steps
    (event : PipelineEvent.t) (r : Runner) :
  summary_observed "pipelineStepMsSummary"
    (trace (runEventPipeline ext event r))
  = resolved_steps (trace (runEventPipeline ext event r)).
Proof.
  apply (maintains_runEventPipeline (fun _ => True) durations_observed).
  - reflexivity.
  - intros t1 t2 H1 H2.
    unfold durations_observed, summary_observed, resolved_steps in *.
    rewrite !omap_app. congruence.
  - intros A name call a teamId r0 _. split; [exact Logic.I |].
    runStep_cases call r0; reflexivity.
  - intros eff Heff. destruct eff; try contradiction; reflexivity.
  - auto.
  - exact Logic.I.
Qed.

(** ** The main sequence, branch by branch *)

Lemma bind_of_result {A B} (m : Run A) (k : A -> Run B) (r r1 : Runner)
    (a : A) :
  m r = (Normal a, r1, []) -> bind m k r = k a r1.
Proof.
  intros H. unfold bind. rewrite H.
  destruct (k a r1) as [[c r2] t2]. reflexivity.
Qed.

Lemma runEventPipelineSteps_routed (event : PluginEvent.t) (r : Runner) :
  runEventPipelineSteps ext event r
  = bind (deriveProcessPerson ext event [])
      (fun flow =>
         match flow with
         | inl result => ret result
         | inr (event, processPerson, kafkaAcks) =>
             runSteps ext event processPerson kafkaAcks
         end) (afterRouting r (PluginEvent.team_id event)).
Proof.
  unfold runEventPipelineSteps, afterRouting. rewrite bind_this.
  destruct (embraceJoinApplies (hub r) (PluginEvent.team_id event)).
  - rewrite bind_set_poEEmbraceJoin. reflexivity.
  - rewrite bind_ret. reflexivity.
Qed.

Lemma deriveProcessPerson_unchanged event acks (r : Runner) :
  runner_after (deriveProcessPerson ext event acks r) = r.
Proof.
  unfold deriveProcessPerson.
  destruct (PluginEvent.properties event) as [props |]; [| reflexivity].
  destruct (props !! "$process_person") as [[| | [|] | |] |];
    try reflexivity.
  destruct (bool_decide _); reflexivity.
Qed.

Lemma runSteps_unchanged event processPerson acks (r : Runner) :
  runner_after (runSteps ext event processPerson acks r) = r.
Proof.
  apply (maintains_runSteps (fun r' : Runner => r' = r) (fun _ => True));
    auto.
  intros A name call a teamId r0 ->. rewrite runStep_unchanged. auto.
Qed.

(** X4. [runEventPipelineSteps] changes the runner in one way only: it sets
    [poEEmbraceJoin] when the routing check holds for the team of the
    event.  After it the flag is the old flag or the routing check; the hub
    and [originalEvent] are as before. *)
Theorem main_sequence_sets_the_flag_by_the_routing_check
    (event : PluginEvent.t) (r : Runner) :
  poEEmbraceJoin (runner_after (runEventPipelineSteps ext event r))
  = poEEmbraceJoin r
    || (match poeEmbraceJoinForTeams (hub r) with
        | Some f => f (PluginEvent.team_id event)
        | None => false
        end
        || ((PluginEvent.team_id event <=? POE_WRITES_ENABLED_MAX_TEAM_ID (hub r))
            && negb (poeWritesExcludeTeams (hub r) (PluginEvent.team_id event))))
  /\ hub (runner_after (runEventPipelineSteps ext event r)) = hub r
  /\ originalEvent (runner_after (runEventPipelineSteps ext event r))
     = originalEvent r.
Proof.
  assert (runner_after (runEventPipelineSteps ext event r)
          = afterRouting r (PluginEvent.team_id event)) as ->.
  { rewrite runEventPipelineSteps_routed.
    generalize (afterRouting r (PluginEvent.team_id event)). intros r'.
    unfold bind, runner_after.
    pose proof (deriveProcessPerson_unchanged event [] r') as Hd.
    unfold runner_after in Hd.
    destruct (deriveProcessPerson ext event [] r') as [[[flow | x] r1] t1];
      simpl in *; subst r1; [| reflexivity].
    destruct flow as [res | [[event' pp] acks]]; [reflexivity |].
    pose proof (runSteps_unchanged event' pp acks r') as Hs.
    unfold runner_after in Hs.
    destruct (runSteps ext event' pp acks r') as [[c r2] t2]. exact Hs. }
  unfold afterRouting.
  change (match poeEmbraceJoinForTeams (hub r) with
          | Some f => f (PluginEvent.team_id event)
          | None => false
          end
          || ((PluginEvent.team_id event <=? POE_WRITES_ENABLED_MAX_TEAM_ID (hub r))
              && negb (poeWritesExcludeTeams (hub r)
                         (PluginEvent.team_id event))))
    with (embraceJoinApplies (hub r) (PluginEvent.team_id event)).
  destruct (embraceJoinApplies (hub r) (PluginEvent.team_id event)); simpl.
  - rewrite orb_true_r. auto.
  - rewrite orb_false_r. auto.
Qed.

(** X5. With [$process_person] equal to the boolean [false] on an event
    that is none of the four identity events, the main sequence queues no
    warning and goes on as [runSteps] on the event that
    [normalizeProcessPerson] returns, with [processPerson = false] and no
    acknowledgement: no step sees the event as it came. *)
Theorem personless_event_is_normalized_before_any_step
    (event : PluginEvent.t) (r : Runner) :
  process_person_value event = Some (JBool false) ->
  PluginEvent.event event
    ∉ ["$identify"; "$create_alias"; "$merge_dangerously"; "$groupidentify"] ->
  runEventPipelineSteps ext event r
  = runSteps ext (normalizeProcessPerson ext event false) false []
      (afterRouting r (PluginEvent.team_id event)).
Proof.
  intros Hvalue Hname. rewrite runEventPipelineSteps_routed.
  generalize (afterRouting r (PluginEvent.team_id event)). intros r'.
  assert (deriveProcessPerson ext event [] r'
          = (Normal (inr (normalizeProcessPerson ext event false, false, [])),
             r', [])) as Hd.
  { unfold deriveProcessPerson. unfold process_person_value in Hvalue.
    destruct (PluginEvent.properties event) as [props |]; [| discriminate].
    rewrite Hvalue.
    rewrite bool_decide_eq_false_2 by exact Hname. reflexivity. }
  rewrite (bind_of_result _ _ _ _ _ Hd). reflexivity.
Qed.

(** X6. With [$process_person] absent, or equal to the boolean [true], the
    main sequence queues no warning and goes on as [runSteps] on the event
    itself with [processPerson = true]: [normalizeProcessPerson] is not
    applied, so the person fields reach the plugins. *)
Theorem person_fields_reach_the_plugins
    (event : PluginEvent.t) (r : Runner) :
  process_person_value event = None
  \/ process_person_value event = Some (JBool true) ->
  runEventPipelineSteps ext event r
  = runSteps ext event true [] (afterRouting r (PluginEvent.team_id event)).
Proof.
  intros Hvalue. rewrite runEventPipelineSteps_routed.
  generalize (afterRouting r (PluginEvent.team_id event)). intros r'.
  assert (deriveProcessPerson ext event [] r'
          = (Normal (inr (event, true, [])), r', [])) as Hd.
  { unfold deriveProcessPerson. unfold process_person_value in Hvalue.
    destruct (PluginEvent.properties event) as [props |]; [| reflexivity].
    destruct Hvalue as [-> | ->]; reflexivity. }
  rewrite (bind_of_result _ _ _ _ _ Hd). reflexivity.
Qed.

(** ** The order of the steps *)

Lemma trace_bind {A B} (m : Run A) (k : A -> Run B) (r : Runner) :
  trace (bind m k r)
  = trace (m r)
    ++ match completion (m r) with
       | Normal a => trace (k a (runner_after (m r)))
       | Abrupt _ => []
       end.
Proof.
  unfold bind, trace, completion, runner_after.
  destruct (m r) as [[[a | x] r1] t1]; simpl.
  - destruct (k a r1) as [[c r2] t2]. reflexivity.
  - rewrite app_nil_r. reflexivity.
Qed.

Lemma trace_try_catch {A} (m : Run A) (h : Exn -> Run A) (r : Runner) :
  trace (try_catch m h r)
  = trace (m r)
    ++ match completion (m r) with
       | Normal _ => []
       | Abrupt x => trace (h x (runner_after (m r)))
       end.
Proof.
  unfold try_catch, trace, completion, runner_after.
  destruct (m r) as [[[a | x] r1] t1]; simpl.
  - rewrite app_nil_r. reflexivity.
  - destruct (h x r1) as [[c r2] t2]. reflexivity.
Qed.

Lemma awaited_bind_stepless {A B} (m : Run A) (k : A -> Run B)
    (L : list string) :
  (forall r, awaited (trace (m r)) = []) ->
  (forall a r, awaited (trace (k a r)) `prefix_of` L) ->
  forall r, awaited (trace (bind m k r)) `prefix_of` L.
Proof.
  intros Hm Hk r. rewrite trace_bind, awaited_app, Hm. simpl.
  destruct (completion (m r)); [apply Hk | apply prefix_nil].
Qed.

Lemma awaited_bind_runStep {A B} name (call : Runner -> Settled A) a teamId
    (k : A -> Run B) (L : list string) :
  (forall v r, awaited (trace (k v r)) `prefix_of` L) ->
  forall r,
    awaited (trace (bind (runStep ext name call a teamId true) k r))
    `prefix_of` (name :: L).
Proof.
  intros Hk r. rewrite trace_bind, awaited_app, runStep_awaited. simpl.
  apply prefix_cons.
  destruct (completion _); [apply Hk | apply prefix_nil].
Qed.

Lemma awaited_then_stepless {A B} (m : Run A) (k : A -> Run B)
    (L : list string) :
  (forall r, awaited (trace (m r)) `prefix_of` L) ->
  (forall a r, awaited (trace (k a r)) = []) ->
  forall r, awaited (trace (bind m k r)) `prefix_of` L.
Proof.
  intros Hm Hk r. rewrite trace_bind, awaited_app.
  destruct (completion (m r)); [rewrite Hk |]; simpl; rewrite app_nil_r;
    apply Hm.
Qed.

Lemma awaited_deriveProcessPerson event acks (r : Runner) :
  awaited (trace (deriveProcessPerson ext event acks r)) = []
  /\ dlq_writes (trace (deriveProcessPerson ext event acks r)) = [].
Proof.
  unfold deriveProcessPerson.
  destruct (PluginEvent.properties event) as [props |]; [| auto].
  destruct (props !! "$process_person") as [[| | [|] | |] |]; auto.
  destruct (bool_decide _); auto.
Qed.

Lemma awaited_runSteps event processPerson acks (r : Runner) :
  awaited (trace (runSteps ext event processPerson acks r))
  `prefix_of` tail stepOrder.
Proof.
  revert r. unfold runSteps.
  destruct (String.eqb _ _); [intros r; apply prefix_nil |].
  apply awaited_bind_runStep. intros [processed |] ?; [| apply prefix_nil].
  revert r. apply awaited_bind_runStep. intros [normalized timestamp].
  apply awaited_bind_runStep. intros [postPerson person].
  apply awaited_bind_runStep. intros prepared.
  apply awaited_bind_runStep. intros [raw ack] r. apply prefix_nil.
Qed.

Lemma awaited_runEventPipelineSteps event (r : Runner) :
  awaited (trace (runEventPipelineSteps ext event r))
  `prefix_of` tail stepOrder.
Proof.
  rewrite runEventPipelineSteps_routed.
  generalize (afterRouting r (PluginEvent.team_id event)).
  apply awaited_bind_stepless.
  - intros r'. apply awaited_deriveProcessPerson.
  - intros [res | [[event' pp] acks]] r'; [apply prefix_nil |].
    apply awaited_runSteps.
Qed.

(** X8. The steps of a run are called in the order of the pipeline, none
    twice and none skipped: the names of the steps a run awaited are an
    initial segment of [populateTeamDataStep], [pluginsProcessEventStep],
    [normalizeEventStep], [processPersonsStep], [prepareEventStep],
    [createEventStep], on every path (early exit, failure, success). *)
Theorem steps_run_in_pipeline_order (event : PipelineEvent.t) (r : Runner) :
  awaited (trace (runEventPipeline ext event r))
  `prefix_of`
  ["populateTeamDataStep"; "pluginsProcessEventStep"; "normalizeEventStep";
   "processPersonsStep"; "prepareEventStep"; "createEventStep"].
Proof.
  unfold runEventPipeline. rewrite bind_set_originalEvent.
  rewrite trace_try_catch, awaited_app.
  match goal with
  | |- context [match ?c with Normal _ => [] | Abrupt x => _ end] =>
      assert (awaited (match c with
                       | Normal _ => []
                       | Abrupt x => _
                       end) = []) as ->
  end.
  { destruct (completion _) as [res | [step a msg | e]]; reflexivity. }
  rewrite app_nil_r.
  generalize {| hub := hub r; originalEvent := event;
                poEEmbraceJoin := poEEmbraceJoin r |}.
  apply awaited_bind_stepless; [reflexivity |].
  intros self r0. destruct (isEventDisallowed self event).
  - apply prefix_nil.
  - revert r0. apply awaited_bind_runStep. intros withTeam.
    apply awaited_then_stepless; [| reflexivity].
    destruct withTeam as [eventWithTeam |]; intros r0.
    + apply awaited_runEventPipelineSteps.
    + apply prefix_nil.
Qed.

(** ** The acknowledgements *)

Lemma disciplined_acks_runSteps event processPerson acks :
  disciplined
    (fun res => exists more,
         ackPromises res = Some (acks ++ more) /\ (length more <= 1)%nat)
    (runSteps ext event processPerson acks).
Proof.
  unfold runSteps.
  destruct (String.eqb _ _).
  - eapply disciplined_bind; [apply disciplined_captureIngestionWarning |].
    intros ack _.
    eapply disciplined_weaken; [apply disciplined_registerLastStep |].
    intros res (_ & _ & -> & _). exists [ack]. auto.
  - eapply disciplined_bind; [apply disciplined_runStep |].
    intros [processed |] _.
    + eapply disciplined_bind; [apply disciplined_runStep |].
      intros [normalized timestamp] _.
      eapply disciplined_bind; [apply disciplined_runStep |].
      intros [postPerson person] _.
      eapply disciplined_bind; [apply disciplined_runStep |].
      intros prepared _.
      eapply disciplined_bind; [apply disciplined_runStep |].
      intros [raw ack] _.
      eapply disciplined_weaken; [apply disciplined_registerLastStep |].
      intros res (_ & _ & -> & _). exists [ack]. auto.
    + eapply disciplined_weaken; [apply disciplined_registerLastStep |].
      intros res (_ & _ & -> & _). exists []. rewrite app_nil_r. auto.
Qed.

(** X9. Acknowledgements collected before [runSteps] are not lost at an
    early exit: whenever [runSteps] returns a result, its [ackPromises]
    start with the acknowledgements it was given, in order, followed by at
    most one more (that of the client ingestion warning, or that of
    [createEventStep]). *)
Theorem collected_acks_are_returned
    (event : PluginEvent.t) (processPerson : bool) (acks : list AckPromise)
    (r : Runner) (result : EventPipelineResult) :
  completion (runSteps ext event processPerson acks r) = Normal result ->
  exists more,
    ackPromises result = Some (acks ++ more) /\ (length more <= 1)%nat.
Proof.
  intros Hresult.
  pose proof (disciplined_acks_runSteps event processPerson acks r) as H.
  rewrite Hresult in H. inversion H; subst. assumption.
Qed.

(** X10. When a step fails with an error that is not a
    [DependencyUnavailableError], the result of the run has no
    [ackPromises] at all: the acknowledgements of the warnings queued
    before the failure are not handed to the caller. *)
Theorem failed_run_returns_no_acks
    (event : PipelineEvent.t) (r : Runner)
    (stage : string) (stageArgs : list Arg) (e : JsError) :
  In (StepAwaited stage stageArgs (Some e))
     (trace (runEventPipeline ext event r)) ->
  error_class e <> DependencyUnavailableError ->
  completion (runEventPipeline ext event r)
  = Normal {| ackPromises := None; lastStep := stage; args := [];
              error := Some (error_message e) |}.
Proof.
  intros Hin Hclass. apply raised_In in Hin.
  destruct (runEventPipeline_outcome event r)
    as [res tr Hres Hr Hd Hc | n a e' tr He Hr Hd Hc
       | n a e' m rej tr He Hr Hd Hc Hs];
    rewrite Hr in Hin; simpl in Hin.
  - contradiction.
  - destruct Hin as [[= <- <- <-] | []]. contradiction.
  - destruct Hin as [[= <- <- <-] | []]. reflexivity.
Qed.

(** ** Exits of the pipeline *)

(** X11. An event named [$$client_ingestion_warning] whose
    [$process_person] is not the boolean [false] ends the main sequence at
    [clientIngestionWarning] without any step being called.  The last
    acknowledgement of the result is that of a warning of type
    [client_ingestion_warning], queued with [alwaysSend], whose message is
    the property [$$client_ingestion_warning_message] of the event
    ([undefined] when the event has none); before it comes at most the
    acknowledgement of the warning for an invalid [$process_person]. *)
Theorem client_ingestion_warning_ends_the_main_sequence
    (event : PluginEvent.t) (r : Runner) :
  PluginEvent.event event = "$$client_ingestion_warning" ->
  process_person_value event <> Some (JBool false) ->
  exists acks w,
    (length acks <= 1)%nat
    /\ alwaysSend w = true
    /\ warning_type w = "client_ingestion_warning"
    /\ In ("message", property event "$$client_ingestion_warning_message")
          (warning_details w)
    /\ completion (runEventPipelineSteps ext event r)
       = Normal {| ackPromises := Some (acks ++ [WarningAck w]);
                   lastStep := "clientIngestionWarning";
                   args := [ArgPluginEvent event]; error := None |}
    /\ awaited (trace (runEventPipelineSteps ext event r)) = [].
Proof.
  intros Hname Hvalue. rewrite runEventPipelineSteps_routed.
  generalize (afterRouting r (PluginEvent.team_id event)). intros r'.
  unfold deriveProcessPerson. unfold process_person_value in Hvalue.
  destruct (PluginEvent.properties event) as [props |] eqn:Hprops;
    [destruct (props !! "$process_person") as [[| | [|] | |] |] eqn:Hp |];
    try congruence;
    run_monad; unfold runSteps; rewrite Hname; run_monad;
    match goal with
    | |- context [Some [WarningAck ?w0; WarningAck ?w1]] =>
        exists [WarningAck w0], w1
    | |- context [Some [WarningAck ?w1]] => exists [], w1
    end;
    simpl; repeat split; auto 10.
Qed.

(** X12. When the promise of [pluginsProcessEventStep] resolves to [null]
    (a plugin dropped the event), [runSteps] returns at
    [pluginsProcessEventStep] with the event and the acknowledgements it
    was given; no later step is called and nothing goes to the dead letter
    queue. *)
Theorem plugin_drop_ends_the_main_sequence
    (event : PluginEvent.t) (processPerson : bool) (acks : list AckPromise)
    (r : Runner) :
  PluginEvent.event event <> "$$client_ingestion_warning" ->
  pluginsProcessEventStep ext r event processPerson = Resolved None ->
  completion (runSteps ext event processPerson acks r)
  = Normal {| ackPromises := Some acks; lastStep := "pluginsProcessEventStep";
              args := [ArgPluginEvent event]; error := None |}
  /\ awaited (trace (runSteps ext event processPerson acks r))
     = ["pluginsProcessEventStep"]
  /\ dlq_writes (trace (runSteps ext event processPerson acks r)) = []
  /\ warnings (trace (runSteps ext event processPerson acks r)) = [].
Proof.
  intros Hname Hdrop. apply String.eqb_neq in Hname.
  unfold runSteps. rewrite Hname. run_monad. rewrite Hdrop. run_monad. auto.
Qed.

(** X13. When every step resolves, [runSteps] feeds each step with what the
    step before returned (the event of the plugins to the normalization, the
    normalized event and its timestamp to the persons step, its event to the
    preparation, the prepared event and the person to the creation), calls
    the five steps in order and returns at [createEventStep] with the stored
    event and the acknowledgements it was given followed by that of the
    stored event. *)
Theorem resolved_steps_chain_to_createEventStep
    (event processed normalized postPerson : PluginEvent.t)
    (timestamp : DateTime) (person : Person) (prepared : PreIngestionEvent)
    (raw : RawClickHouseEvent) (eventAck : AckPromise)
    (processPerson : bool) (acks : list AckPromise) (r : Runner) :
  PluginEvent.event event <> "$$client_ingestion_warning" ->
  pluginsProcessEventStep ext r event processPerson
  = Resolved (Some processed) ->
  normalizeEventStep ext processed processPerson
  = Resolved (normalized, timestamp) ->
  processPersonsStep ext r normalized timestamp processPerson
  = Resolved (postPerson, person) ->
  prepareEventStep ext r postPerson processPerson = Resolved prepared ->
  createEventStep ext r prepared person processPerson
  = Resolved (raw, eventAck) ->
  completion (runSteps ext event processPerson acks r)
  = Normal {| ackPromises := Some (acks ++ [eventAck]);
              lastStep := "createEventStep";
              args := [ArgRawClickHouseEvent raw]; error := None |}
  /\ awaited (trace (runSteps ext event processPerson acks r))
     = ["pluginsProcessEventStep"; "normalizeEventStep"; "processPersonsStep";
        "prepareEventStep"; "createEventStep"]
  /\ dlq_writes (trace (runSteps ext event processPerson acks r)) = []
  /\ sentry_reports (trace (runSteps ext event processPerson acks r)) = [].
Proof.
  intros Hname Hplugins Hnormalize Hpersons Hprepare Hcreate.
  apply String.eqb_neq in Hname.
  unfold runSteps. rewrite Hname. run_monad.
  rewrite Hplugins. run_monad. rewrite Hnormalize. run_monad.
  rewrite Hpersons. run_monad. rewrite Hprepare. run_monad.
  rewrite Hcreate. run_monad. auto.
Qed.

Lemma isEventDisallowed_hub (self self' : Runner) (event : PipelineEvent.t) :
  hub self = hub self' ->
  isEventDisallowed self event = isEventDisallowed self' event.
Proof. intros H. unfold isEventDisallowed. rewrite H. reflexivity. Qed.

(** X14. When the event is not disallowed and the promise of
    [populateTeamDataStep] resolves to [null], the run returns at
    [populateTeamDataStep] with the event as it came and no
    [ackPromises]; it throws nothing, calls no other step, queues no
    warning, writes nothing to the dead letter queue, and counts the event
    as processed. *)
Theorem unresolved_team_ends_the_run
    (event : PipelineEvent.t) (r : Runner) :
  isEventDisallowed r event = false ->
  populateTeamDataStep ext
    {| hub := hub r; originalEvent := event;
       poEEmbraceJoin := poEEmbraceJoin r |} event = Resolved None ->
  completion (runEventPipeline ext event r)
  = Normal {| ackPromises := None; lastStep := "populateTeamDataStep";
              args := [ArgPipelineEvent event]; error := None |}
  /\ awaited (trace (runEventPipeline ext event r))
     = ["populateTeamDataStep"]
  /\ warnings (trace (runEventPipeline ext event r)) = []
  /\ dlq_writes (trace (runEventPipeline ext event r)) = []
  /\ counter_incs "eventProcessedAndIngestedCounter"
       (trace (runEventPipeline ext event r)) = [[]].
Proof.
  intros Hdis Hnull.
  rewrite (isEventDisallowed_hub r
             {| hub := hub r; originalEvent := event;
                poEEmbraceJoin := poEEmbraceJoin r |}) in Hdis
    by reflexivity.
  unfold runEventPipeline. rewrite bind_set_originalEvent.
  run_monad. rewrite Hdis. run_monad. rewrite Hnull. run_monad. auto.
Qed.

(** X15. The drop list is read under one key only.  For an event with a
    non-empty token that key is the token: when the list has no entry under
    the token the event is not disallowed, whatever the list holds under
    the team id of the event. *)
Theorem token_takes_precedence_over_team_id
    (self : Runner) (event : PipelineEvent.t) (tok : string)
    (byToken : gmap string (list string)) :
  PipelineEvent.token event = Some tok ->
  tok <> "" ->
  eventsToDropByToken (hub self) = Some byToken ->
  byToken !! tok = None ->
  isEventDisallowed self event = false.
Proof.
  intros Htok Hne Hdrops Hnone. unfold isEventDisallowed.
  rewrite (drop_key_token event tok Htok Hne), Hdrops, Hnone. reflexivity.
Qed.

(** X16. With [sentToDql = false], [runStep] never touches the dead letter
    queue (no message to the producer, no count), and ends as with
    [sentToDql = true]: with the value of the step, with the
    [DependencyUnavailableError] of the step, or with a [StepErrorNoRetry]
    that carries the name, the arguments and the message of the error. *)
Theorem runStep_without_dead_letter_queue
    {A} (name : string) (call : Runner -> Settled A) (a : list Arg)
    (teamId : Z) (r : Runner) :
  dlq_writes (trace (runStep ext name call a teamId false r)) = []
  /\ counter_incs "pipelineStepDLQCounter"
       (trace (runStep ext name call a teamId false r)) = []
  /\ completion (runStep ext name call a teamId false r)
     = match call r with
       | Resolved v => Normal v
       | Rejected e =>
           match error_class e with
           | DependencyUnavailableError => Abrupt (Thrown e)
           | OtherError =>
               Abrupt (StepErrorNoRetry name a (error_message e))
           end
       end
  /\ completion (runStep ext name call a teamId false r)
     = completion (runStep ext name call a teamId true r).
Proof.
  run_monad. destruct (call r) as [v | [[|] msg]]; run_monad; auto.
  destruct (queueMessage (hub r) _) as [[] | d]; run_monad; auto.
Qed.

(** * The flag, the event and the result, tied to the calls

    [runStep] is given the step to call and the arguments to record; what
    follows is about the call itself. *)

(** ** The steps are applied with the flag *)

Lemma bind_agree {A B} (m m' : Run A) (k k' : A -> Run B) :
  (forall r, m r = m' r) -> (forall a r, k a r = k' a r) ->
  forall r, bind m k r = bind m' k' r.
Proof.
  intros Hm Hk r. unfold bind. rewrite Hm.
  destruct (m' r) as [[[a | x] r1] t1]; [rewrite Hk |]; reflexivity.
Qed.

Lemma runStep_agree {A}
    (ext1 ext2 : @Collaborators DateTime Person PreIngestionEvent
                   RawClickHouseEvent ProducerRecord)
    name (call call' : Runner -> Settled A) a teamId sentToDql :
  (forall self, call self = call' self) ->
  (forall ev x t l,
      generateEventDeadLetterQueueMessage ext1 ev x t l
      = generateEventDeadLetterQueueMessage ext2 ev x t l) ->
  forall r,
    runStep ext1 name call a teamId sentToDql r
    = runStep ext2 name call' a teamId sentToDql r.
Proof.
  intros Hcall Hdlq r. run_monad. rewrite Hcall.
  destruct (call' r) as [v | [[|] msg]]; run_monad; try reflexivity.
  destruct sentToDql; run_monad; [| reflexivity].
  rewrite Hdlq. reflexivity.
Qed.

Lemma runSteps_agree
    (ext1 ext2 : @Collaborators DateTime Person PreIngestionEvent
                   RawClickHouseEvent ProducerRecord)
    (processPerson : bool) :
  agree_on_flag ext1 processPerson ext2 ->
  forall event acks r,
    runSteps ext1 event processPerson acks r
    = runSteps ext2 event processPerson acks r.
Proof.
  intros (Hplugins & Hnormalize & Hpersons & Hprepare & Hcreate & Hdlq)
    event acks.
  unfold runSteps. destruct (String.eqb _ _); [reflexivity |]. cbv zeta.
  apply bind_agree; [apply runStep_agree; auto |].
  intros [processed |]; [| reflexivity].
  apply bind_agree; [apply runStep_agree; auto |].
  intros [normalized timestamp].
  apply bind_agree; [apply runStep_agree; auto |].
  intros [postPerson person].
  apply bind_agree; [apply runStep_agree; auto |].
  intros prepared.
  apply bind_agree; [apply runStep_agree; auto |].
  intros [raw eventAck]. reflexivity.
Qed.

Lemma runStep_applied {A} name (call : Runner -> Settled A) a teamId
    processPerson (r : Runner) :
  last a = Some (ArgBool processPerson) ->
  settlement_of_call ext r name a = Some (rejection (call r)) ->
  maintains (fun r' : Runner => r' = r)
    (Forall (applied_with_flag ext r processPerson))
    (runStep ext name call a teamId true).
Proof.
  intros Hlast Hcall r0 ->. split; [apply runStep_unchanged |].
  revert Hcall. runStep_cases call r; intros Hcall;
    repeat constructor; assumption.
Qed.

Ltac registered_quietly :=
  let r0 := fresh "r0" in
  intros r0 ->; run_monad; split; [reflexivity | repeat constructor].

Lemma runSteps_applied event processPerson acks (r : Runner) :
  Forall (applied_with_flag ext r processPerson)
    (trace (runSteps ext event processPerson acks r)).
Proof.
  assert (forall t1 t2 : list Eff,
             Forall (applied_with_flag ext r processPerson) t1 ->
             Forall (applied_with_flag ext r processPerson) t2 ->
             Forall (applied_with_flag ext r processPerson) (t1 ++ t2))
    as Happ by (intros; apply Forall_app_2; assumption).
  assert (maintains (fun r' : Runner => r' = r)
            (Forall (applied_with_flag ext r processPerson))
            (runSteps ext event processPerson acks)) as H.
  { unfold runSteps.
    destruct (String.eqb _ _); [registered_quietly |]. cbv zeta.
    apply maintains_bind;
      [exact Happ | apply runStep_applied; reflexivity |].
    intros [processed |]; [| registered_quietly].
    apply maintains_bind;
      [exact Happ | apply runStep_applied; reflexivity |].
    intros [normalized timestamp].
    apply maintains_bind;
      [exact Happ | apply runStep_applied; reflexivity |].
    intros [postPerson person].
    apply maintains_bind;
      [exact Happ | apply runStep_applied; reflexivity |].
    intros prepared.
    apply maintains_bind;
      [exact Happ | apply runStep_applied; reflexivity |].
    intros [raw eventAck]. registered_quietly. }
  apply (H r). reflexivity.
Qed.

(** X7. Every step of [runSteps] is applied with the same [processPerson]
    (for [pluginsProcessEventStep] it is the [runDeprecatedPlugins]
    argument).  Each recorded call is the step of that name applied by the
    runner to the recorded arguments, the last of which is the flag; and the
    whole of [runSteps] is the same for two sets of step functions that
    agree on the calls with that flag, whatever they answer with the other
    flag. *)
Theorem steps_are_passed_the_process_person_flag
    (event : PluginEvent.t) (processPerson : bool) (acks : list AckPromise)
    (r : Runner) :
  (forall stage stageArgs rej,
      In (StepAwaited stage stageArgs rej)
         (trace (runSteps ext event processPerson acks r)) ->
      last stageArgs = Some (ArgBool processPerson)
      /\ settlement_of_call ext r stage stageArgs = Some rej)
  /\ (PluginEvent.event event <> "$$client_ingestion_warning" ->
      In (StepAwaited "pluginsProcessEventStep"
            [ArgThis; ArgPluginEvent event; ArgBool processPerson]
            (rejection (pluginsProcessEventStep ext r event processPerson)))
         (trace (runSteps ext event processPerson acks r)))
  /\ (forall ext',
        agree_on_flag ext processPerson ext' ->
        runSteps ext event processPerson acks r
        = runSteps ext' event processPerson acks r).
Proof.
  split; [| split].
  - intros stage stageArgs rej Hin.
    pose proof (runSteps_applied event processPerson acks r) as Hall.
    rewrite Forall_forall in Hall.
    apply list_elem_of_In in Hin. apply (Hall _ Hin).
  - intros Hname. apply String.eqb_neq in Hname.
    unfold runSteps. rewrite Hname. cbv zeta.
    rewrite trace_bind. apply in_or_app. left.
    apply (runStep_records_the_call "pluginsProcessEventStep"
             (fun self => pluginsProcessEventStep ext self event
                            processPerson)).
  - intros ext' Hagree. apply runSteps_agree. exact Hagree.
Qed.

(** ** An invalid [$process_person] *)

Lemma runStep_starts_with_the_call {A} name (call : Runner -> Settled A) a
    teamId sentToDql (r : Runner) :
  exists rest,
    trace (runStep ext name call a teamId sentToDql r)
    = SpanStart "runStep" name
      :: TimeoutGuard name teamId
           (PipelineEvent.distinct_id (originalEvent r))
           (PIPELINE_STEP_STALLED_LOG_TIMEOUT (hub r) * 1000)
      :: StepAwaited name a (rejection (call r))
      :: rest.
Proof.
  run_monad.
  destruct (call r) as [v | [[|] msg]]; run_monad;
    try (eexists; reflexivity).
  destruct sentToDql; run_monad; try (eexists; reflexivity).
  destruct (queueMessage (hub r) _) as [[] | d]; run_monad;
    eexists; reflexivity.
Qed.

Lemma deriveProcessPerson_invalid
    (ext0 : @Collaborators DateTime Person PreIngestionEvent
              RawClickHouseEvent ProducerRecord)
    (event : PluginEvent.t) (props : gmap string js_value)
    (propValue : js_value) :
  PluginEvent.properties event = Some props ->
  props !! "$process_person" = Some propValue ->
  propValue <> JBool true ->
  propValue <> JBool false ->
  forall r0 : Runner,
    deriveProcessPerson ext0 event [] r0
    = (Normal (inr (event, true,
                    [WarningAck
                       {| warning_team_id := PluginEvent.team_id event;
                          warning_type := "invalid_process_person";
                          warning_details :=
                            [("eventUuid", JString (PluginEvent.uuid event));
                             ("event", JString (PluginEvent.event event));
                             ("distinctId",
                              JString (PluginEvent.distinct_id event));
                             ("$process_person", propValue);
                             ("message",
                              JString "Only a boolean value is valid for the $process_person property")];
                          alwaysSend := false |}])),
       r0,
       [CaptureIngestionWarning
          {| warning_team_id := PluginEvent.team_id event;
             warning_type := "invalid_process_person";
             warning_details :=
               [("eventUuid", JString (PluginEvent.uuid event));
                ("event", JString (PluginEvent.event event));
                ("distinctId", JString (PluginEvent.distinct_id event));
                ("$process_person", propValue);
                ("message",
                 JString "Only a boolean value is valid for the $process_person property")];
             alwaysSend := false |}]).
Proof.
  intros Hprops Hvalue Hnt Hnf r0.
  unfold deriveProcessPerson. rewrite Hprops, Hvalue.
  destruct propValue as [| | [|] | n | s]; try congruence;
    run_monad; reflexivity.
Qed.

Lemma runEventPipelineSteps_routed_for
    (ext0 : @Collaborators DateTime Person PreIngestionEvent
              RawClickHouseEvent ProducerRecord)
    (event : PluginEvent.t) (r : Runner) :
  runEventPipelineSteps ext0 event r
  = bind (deriveProcessPerson ext0 event [])
      (fun flow =>
         match flow with
         | inl result => ret result
         | inr (event, processPerson, kafkaAcks) =>
             runSteps ext0 event processPerson kafkaAcks
         end) (afterRouting r (PluginEvent.team_id event)).
Proof.
  unfold runEventPipelineSteps, afterRouting. rewrite bind_this.
  destruct (embraceJoinApplies (hub r) (PluginEvent.team_id event)).
  - rewrite bind_set_poEEmbraceJoin. reflexivity.
  - rewrite bind_ret. reflexivity.
Qed.

(** C6. For an event whose [$process_person] is there and is neither the
    boolean [true] nor the boolean [false], the derivation of the flag goes
    on with the event as it is and [processPerson = true], which is what it
    does when the property is absent, with one more acknowledgement: that
    of a warning queued without [alwaysSend], the only such warning of the
    main sequence.  The main sequence then is [runSteps] on the event, the
    flag [true] and that acknowledgement, run by the runner as the routing
    check leaves it.  The steps are applied with person processing enabled:
    unless the event is a client ingestion warning,
    [pluginsProcessEventStep] is called first, on the event as it came with
    [true]; when the five steps resolve on their calls with [true], the
    main sequence returns at [createEventStep] with the stored event and
    the two acknowledgements; and the main sequence is the same for any
    other step functions that agree with these on the calls with [true]:
    no step is applied with [false], and [normalizeProcessPerson] is not
    applied. *)
Theorem invalid_process_person_falls_back_to_default
    (event : PluginEvent.t) (r : Runner) (props : gmap string js_value)
    (propValue : js_value) :
  PluginEvent.properties event = Some props ->
  props !! "$process_person" = Some propValue ->
  propValue <> JBool true ->
  propValue <> JBool false ->
  exists w,
    alwaysSend w = false
    /\ warning_type w = "invalid_process_person"
    /\ (forall r0 : Runner,
          deriveProcessPerson ext event [] r0
          = (Normal (inr (event, true, [WarningAck w])), r0,
             [CaptureIngestionWarning w]))
    /\ (forall (absent : PluginEvent.t) (r0 : Runner),
          PluginEvent.properties absent = None
          \/ (exists props',
                PluginEvent.properties absent = Some props'
                /\ props' !! "$process_person" = None) ->
          deriveProcessPerson ext absent [] r0
          = (Normal (inr (absent, true, [])), r0, []))
    /\ completion (runEventPipelineSteps ext event r)
       = completion (runSteps ext event true [WarningAck w]
                       (afterRouting r (PluginEvent.team_id event)))
    /\ runner_after (runEventPipelineSteps ext event r)
       = afterRouting r (PluginEvent.team_id event)
    /\ trace (runEventPipelineSteps ext event r)
       = CaptureIngestionWarning w
         :: trace (runSteps ext event true [WarningAck w]
                     (afterRouting r (PluginEvent.team_id event)))
    /\ best_effort_warnings (trace (runEventPipelineSteps ext event r)) = [w]
    /\ (PluginEvent.event event <> "$$client_ingestion_warning" ->
        exists rest,
          trace (runEventPipelineSteps ext event r)
          = CaptureIngestionWarning w
            :: SpanStart "runStep" "pluginsProcessEventStep"
            :: TimeoutGuard "pluginsProcessEventStep"
                 (PluginEvent.team_id event)
                 (PipelineEvent.distinct_id (originalEvent r))
                 (PIPELINE_STEP_STALLED_LOG_TIMEOUT (hub r) * 1000)
            :: StepAwaited "pluginsProcessEventStep"
                 [ArgThis; ArgPluginEvent event; ArgBool true]
                 (rejection
                    (pluginsProcessEventStep ext
                       (afterRouting r (PluginEvent.team_id event))
                       event true))
            :: rest)
    /\ (forall processed normalized timestamp postPerson person prepared raw
               eventAck,
          PluginEvent.event event <> "$$client_ingestion_warning" ->
          pluginsProcessEventStep ext
            (afterRouting r (PluginEvent.team_id event)) event true
          = Resolved (Some processed) ->
          normalizeEventStep ext processed true
          = Resolved (normalized, timestamp) ->
          processPersonsStep ext
            (afterRouting r (PluginEvent.team_id event)) normalized timestamp
            true
          = Resolved (postPerson, person) ->
          prepareEventStep ext
            (afterRouting r (PluginEvent.team_id event)) postPerson true
          = Resolved prepared ->
          createEventStep ext
            (afterRouting r (PluginEvent.team_id event)) prepared person true
          = Resolved (raw, eventAck) ->
          completion (runEventPipelineSteps ext event r)
          = Normal {| ackPromises := Some [WarningAck w; eventAck];
                      lastStep := "createEventStep";
                      args := [ArgRawClickHouseEvent raw]; error := None |}
          /\ awaited (trace (runEventPipelineSteps ext event r))
             = ["pluginsProcessEventStep"; "normalizeEventStep";
                "processPersonsStep"; "prepareEventStep"; "createEventStep"])
    /\ (forall ext',
          agree_on_flag ext true ext' ->
          runEventPipelineSteps ext event r
          = runEventPipelineSteps ext' event r).
Proof.
  intros Hprops Hvalue Hnt Hnf.
  pose proof (deriveProcessPerson_invalid ext event props propValue
                Hprops Hvalue Hnt Hnf) as Hderive.
  match type of Hderive with
  | forall r0, _ = (_, _, [CaptureIngestionWarning ?w0]) =>
      set (w := w0) in Hderive
  end.
  exists w. split; [reflexivity |]. split; [reflexivity |].
  split; [exact Hderive |].
  split.
  { intros absent r0 [Hnone | (props' & Hsome & Hnone)];
      unfold deriveProcessPerson.
    - rewrite Hnone. reflexivity.
    - rewrite Hsome, Hnone. reflexivity. }
  set (r1 := afterRouting r (PluginEvent.team_id event)).
  assert (runEventPipelineSteps ext event r
          = (completion (runSteps ext event true [WarningAck w] r1),
             runner_after (runSteps ext event true [WarningAck w] r1),
             CaptureIngestionWarning w
             :: trace (runSteps ext event true [WarningAck w] r1)))
    as Hrun.
  { rewrite runEventPipelineSteps_routed. fold r1.
    unfold bind. rewrite Hderive.
    destruct (runSteps ext event true [WarningAck w] r1) as [[c r2] t2].
    reflexivity. }
  assert (trace (runEventPipelineSteps ext event r)
          = CaptureIngestionWarning w
            :: trace (runSteps ext event true [WarningAck w] r1)) as Ht
    by (rewrite Hrun; reflexivity).
  assert (completion (runEventPipelineSteps ext event r)
          = completion (runSteps ext event true [WarningAck w] r1)) as Hc
    by (rewrite Hrun; reflexivity).
  split; [exact Hc |].
  split; [rewrite Hrun; apply runSteps_unchanged |].
  split; [exact Ht |].
  split.
  { rewrite Ht. unfold best_effort_warnings. simpl.
    rewrite filter_cons_True by reflexivity. f_equal.
    apply best_effort_warnings_none, runSteps_not_best_effort. }
  split.
  { intros Hname. apply String.eqb_neq in Hname.
    rewrite Ht. unfold runSteps. rewrite Hname. cbv zeta.
    rewrite trace_bind.
    assert (originalEvent r1 = originalEvent r /\ hub r1 = hub r) as [Ho Hh].
    { unfold r1, afterRouting. destruct (embraceJoinApplies _ _); auto. }
    rewrite <- Ho, <- Hh.
    destruct (runStep_starts_with_the_call "pluginsProcessEventStep"
                (fun self => pluginsProcessEventStep ext self event true)
                [ArgThis; ArgPluginEvent event; ArgBool true]
                (PluginEvent.team_id event) true r1) as [rest ->].
    eexists. simpl. reflexivity. }
  split.
  { intros processed normalized timestamp postPerson person prepared raw
      eventAck Hname Hplugins Hnormalize Hpersons Hprepare Hcreate.
    apply String.eqb_neq in Hname.
    rewrite Hc. unfold awaited. rewrite Ht.
    unfold runSteps. rewrite Hname. run_monad.
    rewrite Hplugins. run_monad. rewrite Hnormalize. run_monad.
    rewrite Hpersons. run_monad. rewrite Hprepare. run_monad.
    rewrite Hcreate. run_monad. auto. }
  intros ext' Hagree.
  rewrite runEventPipelineSteps_routed,
    (runEventPipelineSteps_routed_for ext').
  fold r1. unfold bind.
  rewrite Hderive,
    (deriveProcessPerson_invalid ext' event props propValue
       Hprops Hvalue Hnt Hnf).
  fold w. rewrite (runSteps_agree ext ext' true Hagree). reflexivity.
Qed.

(** ** The argument of the result *)

Lemma deriveProcessPerson_cases (event : PluginEvent.t)
    (acks : list AckPromise) (r : Runner) :
  (exists result tr,
      deriveProcessPerson ext event acks r = (Normal (inl result), r, tr)
      /\ lastStep result = "invalidEventForProvidedFlags"
      /\ args result = [ArgPluginEvent event]
      /\ error result = None)
  \/ (exists acks' tr,
        deriveProcessPerson ext event acks r
        = (Normal (inr (eventForSteps ext event, processPersonOf event,
                        acks')), r, tr)).
Proof.
  unfold deriveProcessPerson, eventForSteps, processPersonOf,
    process_person_value.
  destruct (PluginEvent.properties event) as [props |];
    [destruct (props !! "$process_person") as [[| | [|] | |] |];
       try destruct (bool_decide _) |];
    run_monad;
    first [ right; eexists; eexists; reflexivity
          | left; eexists; eexists; repeat split; reflexivity ].
Qed.

Ltac failed_step r :=
  try (intros; discriminate);
  destruct (queueMessage (hub r) _) as [[] | ?]; run_monad;
  intros; discriminate.

Lemma runSteps_result (event : PluginEvent.t) (processPerson : bool)
    (acks : list AckPromise) (r : Runner) (result : EventPipelineResult) :
  completion (runSteps ext event processPerson acks r) = Normal result ->
  error result = None
  /\ ((lastStep result = "clientIngestionWarning"
       /\ PluginEvent.event event = "$$client_ingestion_warning"
       /\ args result = [ArgPluginEvent event])
      \/ (lastStep result = "pluginsProcessEventStep"
          /\ pluginsProcessEventStep ext r event processPerson
             = Resolved None
          /\ args result = [ArgPluginEvent event])
      \/ (lastStep result = "createEventStep"
          /\ exists raw,
               stored_by ext r event processPerson raw
               /\ args result = [ArgRawClickHouseEvent raw])).
Proof.
  unfold runSteps.
  destruct (String.eqb _ _) eqn:Hname.
  { apply String.eqb_eq in Hname. run_monad. intros [= <-]. simpl. auto. }
  run_monad.
  destruct (pluginsProcessEventStep ext r event processPerson)
    as [[processed |] | [[|] m1]] eqn:Hplugins; run_monad;
    [| intros [= <-]; simpl; auto 10 | failed_step r | failed_step r].
  destruct (normalizeEventStep ext processed processPerson)
    as [[normalized timestamp] | [[|] m2]] eqn:Hnormalize; run_monad;
    [| failed_step r | failed_step r].
  destruct (processPersonsStep ext r normalized timestamp processPerson)
    as [[postPerson person] | [[|] m3]] eqn:Hpersons; run_monad;
    [| failed_step r | failed_step r].
  destruct (prepareEventStep ext r postPerson processPerson)
    as [prepared | [[|] m4]] eqn:Hprepare; run_monad;
    [| failed_step r | failed_step r].
  destruct (createEventStep ext r prepared person processPerson)
    as [[raw eventAck] | [[|] m5]] eqn:Hcreate; run_monad;
    [| failed_step r | failed_step r].
  intros [= <-]. simpl. split; [reflexivity |]. right. right.
  split; [reflexivity |]. exists raw. split; [| reflexivity].
  exists processed, normalized, timestamp, postPerson, person, prepared,
    eventAck.
  repeat split; assumption.
Qed.

Lemma runEventPipelineSteps_result (event : PluginEvent.t) (r : Runner)
    (result : EventPipelineResult) :
  completion (runEventPipelineSteps ext event r) = Normal result ->
  error result = None
  /\ ((lastStep result = "invalidEventForProvidedFlags"
       /\ args result = [ArgPluginEvent event])
      \/ (In (lastStep result)
            ["clientIngestionWarning"; "pluginsProcessEventStep"]
          /\ args result = [ArgPluginEvent (eventForSteps ext event)])
      \/ (lastStep result = "createEventStep"
          /\ exists raw,
               stored_by ext (afterRouting r (PluginEvent.team_id event))
                 (eventForSteps ext event) (processPersonOf event) raw
               /\ args result = [ArgRawClickHouseEvent raw])).
Proof.
  rewrite runEventPipelineSteps_routed.
  generalize (afterRouting r (PluginEvent.team_id event)). intros r1.
  unfold bind, completion.
  destruct (deriveProcessPerson_cases event [] r1)
    as [(res & tr & -> & Hlast & Hargs & Herror) | (acks' & tr & ->)].
  - simpl. intros [= <-]. auto.
  - pose proof (runSteps_result (eventForSteps ext event)
                  (processPersonOf event) acks' r1) as Hsteps.
    unfold completion in Hsteps.
    destruct (runSteps ext (eventForSteps ext event) (processPersonOf event)
                acks' r1) as [[c r2] t2].
    simpl in *. intros ->.
    destruct (Hsteps result eq_refl)
      as [Herror [(Hlast & _ & Hargs) | [(Hlast & _ & Hargs) | Hstored]]];
      split; auto;
      right; left; rewrite Hlast; simpl; auto.
Qed.

Lemma runEventPipeline_result (event : PipelineEvent.t) (r : Runner)
    (result : EventPipelineResult) :
  completion (runEventPipeline ext event r) = Normal result ->
  error result = None ->
  (lastStep result = "eventDisallowedStep"
   /\ isEventDisallowed r event = true
   /\ args result = [ArgPipelineEvent event])
  \/ (lastStep result = "populateTeamDataStep"
      /\ populateTeamDataStep ext
           {| hub := hub r; originalEvent := event;
              poEEmbraceJoin := poEEmbraceJoin r |} event
         = Resolved None
      /\ args result = [ArgPipelineEvent event])
  \/ (exists withTeam,
        populateTeamDataStep ext
          {| hub := hub r; originalEvent := event;
             poEEmbraceJoin := poEEmbraceJoin r |} event
        = Resolved (Some withTeam)
        /\ ((lastStep result = "invalidEventForProvidedFlags"
             /\ args result = [ArgPluginEvent withTeam])
            \/ (In (lastStep result)
                  ["clientIngestionWarning"; "pluginsProcessEventStep"]
                /\ args result
                   = [ArgPluginEvent (eventForSteps ext withTeam)])
            \/ (lastStep result = "createEventStep"
                /\ exists raw,
                     stored_by ext
                       (afterRouting
                          {| hub := hub r; originalEvent := event;
                             poEEmbraceJoin := poEEmbraceJoin r |}
                          (PluginEvent.team_id withTeam))
                       (eventForSteps ext withTeam)
                       (processPersonOf withTeam) raw
                     /\ args result = [ArgRawClickHouseEvent raw]))).
Proof.
  rewrite (isEventDisallowed_hub r
             {| hub := hub r; originalEvent := event;
                poEEmbraceJoin := poEEmbraceJoin r |}) by reflexivity.
  unfold runEventPipeline. rewrite bind_set_originalEvent.
  generalize {| hub := hub r; originalEvent := event;
                poEEmbraceJoin := poEEmbraceJoin r |}.
  intros r0. run_monad.
  destruct (isEventDisallowed r0 event) eqn:Hdis; run_monad.
  { intros [= <-] _. left. auto. }
  destruct (populateTeamDataStep ext r0 event)
    as [[withTeam |] | [[|] msg]] eqn:Hteam; run_monad.
  - pose proof (runEventPipelineSteps_result withTeam r0) as Hsteps.
    unfold completion in Hsteps.
    destruct (runEventPipelineSteps ext withTeam r0)
      as [[[res | [step a msg | e]] r1] t1]; simpl in *.
    + intros [= <-] _. right. right. exists withTeam.
      split; [reflexivity |]. apply (Hsteps res eq_refl).
    + intros [= <-] Herror. discriminate Herror.
    + intros; discriminate.
  - intros [= <-] _. right. left. auto.
  - intros; discriminate.
  - destruct (queueMessage (hub r0) _) as [[] | d]; run_monad;
      intros [= <-] Herror; discriminate Herror.
Qed.

(** C7, as amended. The [StepErrorNoRetry] that [handleError] throws carries
    the name and the arguments of the failed step and the message of the
    error; the result of a run does not.  A run that returns after a step
    failed has an empty [args]; a run that returns otherwise has one
    argument, given by the orchestrator and not the arguments of a step:
    the event as it came at [eventDisallowedStep] and
    [populateTeamDataStep]; the event with its team at
    [invalidEventForProvidedFlags]; the event as the flag derivation
    leaves it at [clientIngestionWarning] and [pluginsProcessEventStep];
    the stored event that [createEventStep] resolved to, at the end of the
    chain of the five steps, at [createEventStep]. *)
Theorem args_of_the_result (event : PipelineEvent.t) (r : Runner) :
  (forall A err name a teamId sentToDql (r' : Runner),
      shouldRetry err = false ->
      completion (handleError ext err name a teamId sentToDql r'
                  : Completion A * _ * _)
      = Abrupt (StepErrorNoRetry name a (exn_message err)))
  /\ (forall result,
        completion (runEventPipeline ext event r) = Normal result ->
        (raised (trace (runEventPipeline ext event r)) = []
         /\ registered result
         /\ ((lastStep result = "eventDisallowedStep"
              /\ isEventDisallowed r event = true
              /\ args result = [ArgPipelineEvent event])
             \/ (lastStep result = "populateTeamDataStep"
                 /\ populateTeamDataStep ext
                      {| hub := hub r; originalEvent := event;
                         poEEmbraceJoin := poEEmbraceJoin r |} event
                    = Resolved None
                 /\ args result = [ArgPipelineEvent event])
             \/ (exists withTeam,
                   populateTeamDataStep ext
                     {| hub := hub r; originalEvent := event;
                        poEEmbraceJoin := poEEmbraceJoin r |} event
                   = Resolved (Some withTeam)
                   /\ ((lastStep result = "invalidEventForProvidedFlags"
                        /\ args result = [ArgPluginEvent withTeam])
                       \/ (In (lastStep result)
                             ["clientIngestionWarning";
                              "pluginsProcessEventStep"]
                           /\ args result
                              = [ArgPluginEvent
                                   (eventForSteps ext withTeam)])
                       \/ (lastStep result = "createEventStep"
                           /\ exists raw,
                                stored_by ext
                                  (afterRouting
                                     {| hub := hub r; originalEvent := event;
                                        poEEmbraceJoin := poEEmbraceJoin r |}
                                     (PluginEvent.team_id withTeam))
                                  (eventForSteps ext withTeam)
                                  (processPersonOf withTeam) raw
                                /\ args result
                                   = [ArgRawClickHouseEvent raw])))))
        \/ (exists n a e,
              raised (trace (runEventPipeline ext event r)) = [(n, a, e)]
              /\ lastStep result = n
              /\ error result = Some (error_message e)
              /\ args result = [])).
Proof.
  split.
  - intros A err name a teamId sentToDql r' Hretry.
    run_monad. rewrite Hretry. destruct sentToDql; run_monad.
    + destruct (queueMessage (hub r') _) as [[] | d]; reflexivity.
    + reflexivity.
  - intros result Hresult.
    pose proof (runEventPipeline_result event r result Hresult) as Hargs.
    destruct (runEventPipeline_outcome event r)
      as [res tr Hres Hr Hd Hc | n a e' tr He Hr Hd Hc
         | n a e' m rej tr He Hr Hd Hc Hs].
    + injection Hresult as <-. left.
      split; [exact Hr |]. split; [exact Hres |].
      apply Hargs. apply Hres.
    + discriminate.
    + injection Hresult as <-. right. exists n, a, e'. auto.
Qed.

End Properties.

(** * Concrete runs *)

Ltac in_trace := vm_compute; repeat first [left; reflexivity | right].

Ltac not_in_trace H :=
  vm_compute in H;
  repeat (destruct H as [H | H]; [discriminate H |]);
  contradiction.

(** The page view of the specification, all steps resolving: the run ends
    at [createEventStep] with one acknowledgement. *)
Example pageview_reaches_createEventStep :
  exists result,
    completion (Demo.plainRun None Demo.pageview) = Normal result
    /\ lastStep result = "createEventStep"
    /\ ackPromises result = Some [ProducerAck 1]
    /\ error result = None.
Proof. eexists. split; [vm_compute; reflexivity |]. auto. Qed.

Lemma step_error_is_dropped_to_dead_letter_queue_witness :
  In (StepAwaited "normalizeEventStep"
        [ArgPluginEvent (Demo.withTeam Demo.pageview); ArgBool true]
        (Some Demo.boom))
     (trace (Demo.failingRun "normalizeEventStep" Demo.boom true))
  /\ error_class Demo.boom <> DependencyUnavailableError
  /\ exists result,
       completion (Demo.failingRun "normalizeEventStep" Demo.boom true)
       = Normal result
       /\ lastStep result = "normalizeEventStep"
       /\ error result = Some "boom"
       /\ (error result = Some EmptyString
           <-> error_message Demo.boom = EmptyString)
       /\ length (dlq_writes
                    (trace (Demo.failingRun "normalizeEventStep" Demo.boom
                              true))) = 1%nat
       /\ counter_incs "pipelineStepDLQCounter"
            (trace (Demo.failingRun "normalizeEventStep" Demo.boom true))
          = [["normalizeEventStep"]].
Proof.
  assert (In (StepAwaited "normalizeEventStep"
                [ArgPluginEvent (Demo.withTeam Demo.pageview); ArgBool true]
                (Some Demo.boom))
             (trace (Demo.failingRun "normalizeEventStep" Demo.boom true)))
    as Hin by in_trace.
  assert (error_class Demo.boom <> DependencyUnavailableError) as Hclass
    by discriminate.
  split; [exact Hin |]. split; [exact Hclass |].
  exact (step_error_is_dropped_to_dead_letter_queue
           (Demo.scripted "normalizeEventStep" Demo.boom) Demo.pageview
           (Demo.runner (Demo.hubWith None true) Demo.pageview)
           "normalizeEventStep"
           [ArgPluginEvent (Demo.withTeam Demo.pageview); ArgBool true]
           Demo.boom Hin Hclass).
Defined.

(** C1 as it is stated fails: a step that rejects with an error whose
    message is empty, as [new Error('')], is dropped to the dead letter
    queue like any other, and the [error] field of the result is the empty
    string. *)
Lemma empty_message_gives_an_empty_error_field :
  In (StepAwaited "normalizeEventStep"
        [ArgPluginEvent (Demo.withTeam Demo.pageview); ArgBool true]
        (Some Scenario.silent))
     (trace (Demo.failingRun "normalizeEventStep" Scenario.silent true))
  /\ error_class Scenario.silent <> DependencyUnavailableError
  /\ completion (Demo.failingRun "normalizeEventStep" Scenario.silent true)
     = Normal {| ackPromises := None; lastStep := "normalizeEventStep";
                 args := []; error := Some EmptyString |}
  /\ length (dlq_writes
               (trace (Demo.failingRun "normalizeEventStep" Scenario.silent
                         true))) = 1%nat.
Proof.
  split; [in_trace |]. split; [discriminate |].
  split; vm_compute; reflexivity.
Qed.

Lemma dependency_error_is_rethrown_witness :
  In (StepAwaited "processPersonsStep"
        [ArgThis; ArgPluginEvent (Demo.withTeam Demo.pageview);
         ArgDateTime 1700000000; ArgBool true]
        (Some Demo.postgresDown))
     (trace (Demo.failingRun "processPersonsStep" Demo.postgresDown true))
  /\ completion (Demo.failingRun "processPersonsStep" Demo.postgresDown true)
     = Abrupt (Thrown Demo.postgresDown)
  /\ dlq_writes
       (trace (Demo.failingRun "processPersonsStep" Demo.postgresDown true))
     = [].
Proof.
  assert (In (StepAwaited "processPersonsStep"
                [ArgThis; ArgPluginEvent (Demo.withTeam Demo.pageview);
                 ArgDateTime 1700000000; ArgBool true]
                (Some Demo.postgresDown))
             (trace (Demo.failingRun "processPersonsStep" Demo.postgresDown
                       true)))
    as Hin by in_trace.
  split; [exact Hin |].
  destruct (dependency_error_is_rethrown
              (Demo.scripted "processPersonsStep" Demo.postgresDown)
              Demo.pageview
              (Demo.runner (Demo.hubWith None true) Demo.pageview)
              "processPersonsStep" _ Demo.postgresDown Hin eq_refl)
    as (Hthrown & _ & Hdlq & _).
  split; [exact Hthrown | exact Hdlq].
Defined.

(** C3 as it is stated fails: when [populateTeamDataStep] rejects with a
    [DependencyUnavailableError], the run returns no result. *)
Lemma dependency_error_returns_no_result :
  completion (Demo.failingRun "populateTeamDataStep" Demo.postgresDown true)
  = Abrupt (Thrown Demo.postgresDown)
  /\ ~ exists result,
         completion
           (Demo.failingRun "populateTeamDataStep" Demo.postgresDown true)
         = Normal result.
Proof.
  assert (completion
            (Demo.failingRun "populateTeamDataStep" Demo.postgresDown true)
          = Abrupt (Thrown Demo.postgresDown)) as H
    by (vm_compute; reflexivity).
  split; [exact H |]. intros [result Hresult]. congruence.
Qed.

Lemma one_result_unless_dependency_error_witness :
  exists! result,
    completion (Demo.plainRun None Demo.pageview) = Normal result.
Proof.
  apply (one_result_unless_dependency_error Demo.allResolve Demo.pageview
           (Demo.runner (Demo.hubWith None true) Demo.pageview)).
  intros stage stageArgs e H. not_in_trace H.
Defined.

Lemma dead_letter_failure_is_not_escalated_witness :
  In (QueueMessage "plugin_server_ingest_event:prepareEventStep:x" true
        (Some Demo.kafkaDown))
     (trace (Demo.failingRun "prepareEventStep" Demo.boom false))
  /\ (exists result,
         completion (Demo.failingRun "prepareEventStep" Demo.boom false)
         = Normal result
         /\ lastStep result = "prepareEventStep"
         /\ error result = Some "boom")
  /\ In (Thrown Demo.kafkaDown)
        (sentry_reports
           (trace (Demo.failingRun "prepareEventStep" Demo.boom false))).
Proof.
  assert (In (QueueMessage "plugin_server_ingest_event:prepareEventStep:x"
                true (Some Demo.kafkaDown))
             (trace (Demo.failingRun "prepareEventStep" Demo.boom false)))
    as Hdlq by in_trace.
  assert (In (StepAwaited "prepareEventStep"
                [ArgThis; ArgPluginEvent (Demo.withTeam Demo.pageview);
                 ArgBool true]
                (Some Demo.boom))
             (trace (Demo.failingRun "prepareEventStep" Demo.boom false)))
    as Hin by in_trace.
  assert (error_class Demo.boom <> DependencyUnavailableError) as Hclass
    by discriminate.
  split; [exact Hdlq |].
  destruct (dead_letter_failure_is_not_escalated
              (Demo.scripted "prepareEventStep" Demo.boom) Demo.pageview
              (Demo.runner (Demo.hubWith None false) Demo.pageview)
              _ _ _ _ _ Hin Hclass Hdlq)
    as (Hresult & _ & Hsentry).
  split; [exact Hresult | exact Hsentry].
Defined.

Lemma disallowed_event_is_dropped_witness :
  Demo.dropList !! "phc_token" = Some ["u1"; "u2"]
  /\ completion (Demo.plainRun (Some Demo.dropList) Demo.withToken)
     = Normal {| ackPromises := None; lastStep := "eventDisallowedStep";
                 args := [ArgPipelineEvent Demo.withToken]; error := None |}
  /\ awaited (trace (Demo.plainRun (Some Demo.dropList) Demo.withToken)) = [].
Proof.
  assert (Demo.dropList !! "phc_token" = Some ["u1"; "u2"]) as Hlookup
    by (vm_compute; reflexivity).
  split; [exact Hlookup |].
  destruct (disallowed_event_is_dropped Demo.allResolve Demo.withToken
              (Demo.runner (Demo.hubWith (Some Demo.dropList) true)
                 Demo.withToken)
              "phc_token" Demo.dropList ["u1"; "u2"])
    as (Hresult & Hawaited & _).
  - left. split; [reflexivity | discriminate].
  - reflexivity.
  - exact Hlookup.
  - left. apply list_elem_of_here.
  - split; [exact Hresult | exact Hawaited].
Defined.

(** The wildcard under the team id drops the page view of team 1. *)
Example wildcard_drops_the_team :
  exists result,
    completion (Demo.plainRun (Some Demo.dropList) Demo.pageview)
    = Normal result
    /\ lastStep result = "eventDisallowedStep".
Proof. eexists. split; [vm_compute; reflexivity | reflexivity]. Qed.

Lemma event_without_key_reaches_team_resolution_witness :
  isEventDisallowed
    (Demo.runner (Demo.hubWith (Some Demo.dropList) true) Demo.anonymous)
    Demo.anonymous = false
  /\ head (awaited (trace (Demo.plainRun (Some Demo.dropList) Demo.anonymous)))
     = Some "populateTeamDataStep".
Proof.
  destruct (event_without_key_reaches_team_resolution Demo.allResolve
              Demo.anonymous
              (Demo.runner (Demo.hubWith (Some Demo.dropList) true)
                 Demo.anonymous) eq_refl eq_refl)
    as (Hdis & rest & Htrace).
  split; [apply Hdis |].
  unfold Demo.plainRun. rewrite Htrace. reflexivity.
Defined.

Lemma invalid_event_for_disabled_person_processing_witness :
  exists w,
    alwaysSend w = true
    /\ completion (Demo.mainSequence Demo.identifyWithoutPerson)
       = Normal {| ackPromises := Some [WarningAck w];
                   lastStep := "invalidEventForProvidedFlags";
                   args := [ArgPluginEvent Demo.identifyWithoutPerson];
                   error := None |}
    /\ awaited (trace (Demo.mainSequence Demo.identifyWithoutPerson)) = [].
Proof.
  destruct (invalid_event_for_disabled_person_processing Demo.allResolve
              Demo.identifyWithoutPerson
              (Demo.runner (Demo.hubWith None true) Demo.pageview)
              (list_to_map [("$process_person", JBool false)]))
    as (w & Hsend & _ & Hresult & Hawaited & _).
  - reflexivity.
  - vm_compute; reflexivity.
  - apply list_elem_of_here.
  - exists w. split; [exact Hsend |]. split; [exact Hresult | exact Hawaited].
Defined.

Lemma invalid_process_person_falls_back_to_default_witness :
  exists w,
    alwaysSend w = false
    /\ warning_type w = "invalid_process_person"
    /\ best_effort_warnings (trace (Demo.mainSequence Demo.processPersonYes))
       = [w]
    /\ completion (Demo.mainSequence Demo.processPersonYes)
       = Normal {| ackPromises := Some [WarningAck w; ProducerAck 1];
                   lastStep := "createEventStep";
                   args := [ArgRawClickHouseEvent Demo.processPersonYes];
                   error := None |}.
Proof.
  destruct (invalid_process_person_falls_back_to_default Demo.allResolve
              Demo.processPersonYes
              (Demo.runner (Demo.hubWith None true) Demo.pageview)
              (list_to_map [("$process_person", JString "yes")])
              (JString "yes"))
    as (w & Hsend & Htype & _ & _ & _ & _ & _ & Hbest & _ & Hchain & _).
  - reflexivity.
  - vm_compute; reflexivity.
  - discriminate.
  - discriminate.
  - exists w. split; [exact Hsend |]. split; [exact Htype |].
    split; [exact Hbest |].
    apply (Hchain Demo.processPersonYes Demo.processPersonYes 1700000000
             Demo.processPersonYes "u1" Demo.processPersonYes
             Demo.processPersonYes (ProducerAck 1));
      [intros H; vm_compute in H; discriminate H | reflexivity ..].
Defined.

(** With [$process_person = "yes"] and all steps resolving, the main
    sequence ends at [createEventStep] with the acknowledgement of the
    warning and that of the event, and every step is called with
    [processPerson = true]. *)
Example process_person_yes_runs_to_the_end :
  exists w result,
    completion (Demo.mainSequence Demo.processPersonYes) = Normal result
    /\ lastStep result = "createEventStep"
    /\ ackPromises result = Some [WarningAck w; ProducerAck 1]
    /\ alwaysSend w = false
    /\ last_call (trace (Demo.mainSequence Demo.processPersonYes))
       = Some ("createEventStep",
               [ArgThis; ArgPreIngestionEvent Demo.processPersonYes;
                ArgPerson "u1"; ArgBool true]).
Proof.
  eexists. eexists. split; [vm_compute; reflexivity |].
  split; [reflexivity |]. split; [reflexivity |].
  split; [reflexivity |]. vm_compute; reflexivity.
Qed.

(** C7 as it is stated fails: [normalizeEventStep] is called with the event
    and the flag, rejects, and the result of the run names the step with an
    empty [args]. *)
Lemma error_result_drops_the_step_arguments :
  exists result stageArgs,
    completion (Demo.failingRun "normalizeEventStep" Demo.boom true)
    = Normal result
    /\ lastStep result = "normalizeEventStep"
    /\ last_call (trace (Demo.failingRun "normalizeEventStep" Demo.boom true))
       = Some ("normalizeEventStep", stageArgs)
    /\ stageArgs
       = [ArgPluginEvent (Demo.withTeam Demo.pageview); ArgBool true]
    /\ args result = []
    /\ args result <> stageArgs.
Proof.
  eexists. eexists.
  split; [vm_compute; reflexivity |].
  split; [reflexivity |].
  split; [vm_compute; reflexivity |].
  split; [vm_compute; reflexivity |].
  split; [reflexivity | discriminate].
Qed.

(** On the success path too the result holds what the orchestrator gives,
    not the arguments of the last call: after [createEventStep], called
    with the runner, the prepared event, the person and the flag, [args] is
    the stored event. *)
Example success_result_holds_the_stored_event :
  exists result,
    completion (Demo.plainRun None Demo.pageview) = Normal result
    /\ args result = [ArgRawClickHouseEvent (Demo.withTeam Demo.pageview)]
    /\ last_call (trace (Demo.plainRun None Demo.pageview))
       = Some ("createEventStep",
               [ArgThis; ArgPreIngestionEvent (Demo.withTeam Demo.pageview);
                ArgPerson "u1"; ArgBool true]).
Proof.
  eexists. split; [vm_compute; reflexivity |].
  split; vm_compute; reflexivity.
Qed.

(** * Properties of the plugin loader *)

Section PluginLoaderProperties.

Variable toLowerCase : string -> string.
Variable methodName : PluginMethod -> string.

Lemma omap_singleton {A B} (f : A -> option B) (x : A) :
  omap f [x] = match f x with Some y => [y] | None => [] end.
Proof. reflexivity. Qed.

(** The first loop: the last row of an id is the one in the map. *)
Lemma loadPluginRows_lookup (rows : list Plugin.t) (pid : Z) :
  loadPluginRows toLowerCase rows !! pid
  = markPersonless toLowerCase
      <$> last (filter (fun row => Plugin.id row = pid) rows).
Proof.
  unfold loadPluginRows.
  induction rows as [| row rows IH] using rev_ind; [reflexivity |].
  rewrite fold_left_app, filter_app. simpl.
  destruct (decide (Plugin.id row = pid)) as [Heq | Hne].
  - rewrite Heq, lookup_insert_eq.
    rewrite filter_cons_True by exact Heq. rewrite filter_nil, last_snoc.
    reflexivity.
  - rewrite lookup_insert_ne by exact Hne.
    rewrite filter_cons_False by exact Hne. rewrite filter_nil, app_nil_r.
    exact IH.
Qed.

(** The second loop: for a config and a key, the last row is the one in
    the object of the config. *)
Lemma loadAttachmentRows_lookup (rows : list PluginAttachmentDB.t)
    (cid : option Z) (k : string) :
  (loadAttachmentRows rows !! cid) ≫= (fun attachments => attachments !! k)
  = toAttachment
      <$> last (filter (fun row =>
                          PluginAttachmentDB.plugin_config_id row = cid
                          /\ PluginAttachmentDB.key row = k) rows).
Proof.
  unfold loadAttachmentRows.
  induction rows as [| row rows IH] using rev_ind; [reflexivity |].
  rewrite fold_left_app, filter_app. simpl. unfold addAttachment at 1.
  destruct (decide (PluginAttachmentDB.plugin_config_id row = cid))
    as [Hc | Hc].
  - subst cid. rewrite lookup_insert_eq. simpl.
    destruct (decide (PluginAttachmentDB.key row = k)) as [Hk | Hk].
    + subst k. rewrite lookup_insert_eq.
      rewrite filter_cons_True by auto. rewrite filter_nil, last_snoc.
      reflexivity.
    + rewrite lookup_insert_ne by exact Hk.
      rewrite filter_cons_False by tauto. rewrite filter_nil, app_nil_r.
      rewrite <- IH.
      destruct (fold_left addAttachment rows ∅
                !! PluginAttachmentDB.plugin_config_id row); reflexivity.
  - rewrite lookup_insert_ne by exact Hc.
    rewrite filter_cons_False by tauto. rewrite filter_nil, app_nil_r.
    exact IH.
Qed.

Lemma loadConfigRows_spec (plugins : gmap Z Plugin.t)
    (apc : gmap (option Z) (gmap string PluginAttachment))
    (rows : list PluginConfigRow.t) :
  config_state_of (builtConfigs methodName plugins apc rows)
    (loadConfigRows methodName plugins apc rows).
Proof.
  unfold loadConfigRows, builtConfigs.
  induction rows as [| row rows IH] using rev_ind.
  { split; [| split]; intros; reflexivity. }
  rewrite fold_left_app, omap_app, omap_singleton.
  cbn [fold_left]. unfold addConfig at 1.
  destruct (fold_left (addConfig methodName plugins apc) rows (∅, ∅, []))
    as [[configs perTeam] console].
  destruct IH as (Hconfigs & Hteams & Hconsole). cbn [fst snd] in *.
  unfold configOf at 2.
  destruct (plugins !! PluginConfigRow.plugin_id row) as [plugin |] eqn:Hp;
    cbn [fmap option_fmap option_map].
  2: { rewrite app_nil_r. split; [| split]; assumption. }
  remember (buildConfig methodName apc plugin row) as c eqn:Hc.
  assert (PluginConfig.row c = row) as Hrow by (subst c; reflexivity).
  assert (teamOf c = truthy_number (PluginConfigRow.team_id row)) as Hteam
    by (unfold teamOf; rewrite Hrow; reflexivity).
  clear Hc.
  destruct (truthy_number (PluginConfigRow.team_id row)) as [tid |] eqn:Ht;
    (split; [| split]); cbn [fst snd].
  - intros cid. rewrite filter_app.
    destruct (decide (PluginConfigRow.id row = cid)) as [Heq | Hne].
    + rewrite Heq, lookup_insert_eq.
      rewrite (filter_cons_True _ c); [| rewrite Hrow; congruence].
      rewrite filter_nil, last_snoc. reflexivity.
    + rewrite lookup_insert_ne by exact Hne.
      rewrite (filter_cons_False _ c); [| rewrite Hrow; congruence].
      rewrite filter_nil, app_nil_r. apply Hconfigs.
  - intros t. rewrite filter_app.
    destruct (decide (tid = t)) as [Heq | Hne].
    + subst t. rewrite lookup_insert_eq.
      rewrite (filter_cons_True _ c); [| exact Hteam].
      rewrite filter_nil. rewrite Hteams.
      destruct (filter (fun c0 => teamOf c0 = Some tid) _); reflexivity.
    + rewrite lookup_insert_ne by exact Hne.
      rewrite (filter_cons_False _ c); [| rewrite Hteam; congruence].
      rewrite filter_nil, app_nil_r. apply Hteams.
  - rewrite filter_app.
    rewrite (filter_cons_False _ c); [| rewrite Hteam; congruence].
    rewrite filter_nil, app_nil_r. exact Hconsole.
  - intros cid. rewrite filter_app.
    destruct (decide (PluginConfigRow.id row = cid)) as [Heq | Hne].
    + rewrite Heq, lookup_insert_eq.
      rewrite (filter_cons_True _ c); [| rewrite Hrow; congruence].
      rewrite filter_nil, last_snoc. reflexivity.
    + rewrite lookup_insert_ne by exact Hne.
      rewrite (filter_cons_False _ c); [| rewrite Hrow; congruence].
      rewrite filter_nil, app_nil_r. apply Hconfigs.
  - intros t. rewrite filter_app.
    rewrite (filter_cons_False _ c); [| rewrite Hteam; congruence].
    rewrite filter_nil, app_nil_r. apply Hteams.
  - rewrite filter_app.
    rewrite (filter_cons_True _ c); [| exact Hteam].
    rewrite filter_nil, map_app. cbn [map]. rewrite Hconsole, Hrow.
    reflexivity.
Qed.

(** The result of a load whose three queries resolve. *)
Lemma load_resolved (pluginRows : list Plugin.t)
    (attachmentRows : list PluginAttachmentDB.t)
    (configRows : list PluginConfigRow.t) (loaded : LoadedPlugins) :
  (loadPluginsFromDB toLowerCase methodName (Resolved pluginRows)
     (Resolved attachmentRows) (Resolved configRows)).1 = Resolved loaded ->
  plugins loaded = loadPluginRows toLowerCase pluginRows
  /\ config_state_of
       (builtConfigs methodName (plugins loaded)
          (loadAttachmentRows attachmentRows) configRows)
       (pluginConfigs loaded, pluginConfigsPerTeam loaded,
        (loadConfigRows methodName (plugins loaded)
           (loadAttachmentRows attachmentRows) configRows).2).
Proof.
  unfold loadPluginsFromDB.
  pose proof (loadConfigRows_spec (loadPluginRows toLowerCase pluginRows)
                (loadAttachmentRows attachmentRows) configRows) as Hspec.
  destruct (loadConfigRows methodName (loadPluginRows toLowerCase pluginRows)
              (loadAttachmentRows attachmentRows) configRows)
    as [[configs perTeam] console] eqn:Hload.
  simpl. intros [= <-]. simpl. split; [reflexivity |].
  rewrite Hload. exact Hspec.
Qed.

(** What a load whose three queries resolve does besides. *)
Lemma load_log (pluginRows : list Plugin.t)
    (attachmentRows : list PluginAttachmentDB.t)
    (configRows : list PluginConfigRow.t) :
  (loadPluginsFromDB toLowerCase methodName (Resolved pluginRows)
     (Resolved attachmentRows) (Resolved configRows)).2
  = [Query "getPluginRows"; Observe "load_plugins_ms";
     Query "getPluginAttachmentRows"; Observe "load_plugin_attachments_ms";
     Query "getPluginConfigRows"]
    ++ (loadConfigRows methodName (loadPluginRows toLowerCase pluginRows)
          (loadAttachmentRows attachmentRows) configRows).2
    ++ [Observe "load_plugin_configs_ms"; Observe "load_plugins_total_ms"].
Proof.
  unfold loadPluginsFromDB.
  destruct (loadConfigRows methodName (loadPluginRows toLowerCase pluginRows)
              (loadAttachmentRows attachmentRows) configRows)
    as [[configs perTeam] console].
  reflexivity.
Qed.

Lemma built_elem_of (plugins : gmap Z Plugin.t)
    (apc : gmap (option Z) (gmap string PluginAttachment))
    (rows : list PluginConfigRow.t) (c : PluginConfig.t) :
  c ∈ builtConfigs methodName plugins apc rows
  <-> exists row plugin,
        row ∈ rows
        /\ plugins !! PluginConfigRow.plugin_id row = Some plugin
        /\ c = buildConfig methodName apc plugin row.
Proof.
  unfold builtConfigs. rewrite list_elem_of_omap. unfold configOf. split.
  - intros (row & Hin & Hc).
    destruct (plugins !! PluginConfigRow.plugin_id row) as [plugin |] eqn:Hp;
      [| discriminate].
    injection Hc as <-. eauto.
  - intros (row & plugin & Hin & Hp & ->). exists row.
    rewrite Hp. auto.
Qed.

Lemma truthy_number_Some (x : option Z) (t : Z) :
  truthy_number x = Some t <-> x = Some t /\ t <> 0.
Proof.
  destruct x as [[| p | p] |]; simpl; split;
    try (intros [= <-]; split; [reflexivity | discriminate]);
    try discriminate; try (intros [[= <-] H]; congruence);
    intros [[=] _].
Qed.

(** X17. A plugin is loaded under its id from the last row with that id.
    It is the row itself, except that [skipped_for_personless] is [true]
    when the row has a non-empty url whose lower case is in the skip list;
    a flag the row already has is kept. *)
Theorem loaded_plugin_is_the_last_row_of_its_id
    (pluginRows : list Plugin.t) (attachmentRows : list PluginAttachmentDB.t)
    (configRows : list PluginConfigRow.t) (loaded : LoadedPlugins)
    (pid : Z) (p : Plugin.t) :
  (loadPluginsFromDB toLowerCase methodName (Resolved pluginRows)
     (Resolved attachmentRows) (Resolved configRows)).1 = Resolved loaded ->
  plugins loaded !! pid = Some p ->
  exists row,
    last (filter (fun row => Plugin.id row = pid) pluginRows) = Some row
    /\ Plugin.id p = pid
    /\ Plugin.url p = Plugin.url row
    /\ Plugin.capabilities p = Plugin.capabilities row
    /\ (Plugin.skipped_for_personless p = Some true
        <-> Plugin.skipped_for_personless row = Some true
            \/ exists url,
                 Plugin.url row = Some url /\ url <> ""
                 /\ toLowerCase url ∈ personlessPluginSkipList).
Proof.
  intros Hload Hp. apply load_resolved in Hload as [Hplugins _].
  rewrite Hplugins, loadPluginRows_lookup in Hp.
  destruct (last (filter (fun row => Plugin.id row = pid) pluginRows))
    as [row |] eqn:Hlast; [| discriminate].
  injection Hp as <-. exists row. split; [reflexivity |].
  assert (Plugin.id row = pid) as Hid.
  { apply last_Some_elem_of in Hlast.
    apply list_elem_of_filter in Hlast. tauto. }
  unfold markPersonless, skippedForPersonless.
  destruct (Plugin.url row) as [[| ch rest] |] eqn:Hurl; simpl.
  - rewrite Hurl. repeat split; auto.
    intros [H | (url & [= <-] & Hne & _)]; [exact H | congruence].
  - case_bool_decide as Hskip; simpl; rewrite ?Hurl.
    + repeat split; auto. intros _. right. eexists. split; [reflexivity |].
      split; [discriminate | exact Hskip].
    + repeat split; auto.
      intros [H | (url & [= <-] & _ & Hin)]; [exact H | contradiction].
  - rewrite Hurl. repeat split; auto.
    intros [H | (url & [=] & _)]. exact H.
Qed.

(** X18. A loaded plugin config comes from a row of the configs table with
    its id, and holds the loaded plugin of that row: the plugin the map of
    plugins has under [plugin_id].  Its [vm] is [null]. *)
Theorem loaded_config_holds_its_loaded_plugin
    (pluginRows : list Plugin.t) (attachmentRows : list PluginAttachmentDB.t)
    (configRows : list PluginConfigRow.t) (loaded : LoadedPlugins)
    (cid : Z) (c : PluginConfig.t) :
  (loadPluginsFromDB toLowerCase methodName (Resolved pluginRows)
     (Resolved attachmentRows) (Resolved configRows)).1 = Resolved loaded ->
  pluginConfigs loaded !! cid = Some c ->
  PluginConfig.row c ∈ configRows
  /\ PluginConfigRow.id (PluginConfig.row c) = cid
  /\ plugins loaded !! PluginConfigRow.plugin_id (PluginConfig.row c)
     = Some (PluginConfig.plugin c)
  /\ PluginConfig.vm c = None.
Proof.
  intros Hload Hc. apply load_resolved in Hload as [_ (Hconfigs & _ & _)].
  simpl in Hconfigs. rewrite Hconfigs in Hc.
  apply last_Some_elem_of, list_elem_of_filter in Hc as [Hid Hin].
  apply built_elem_of in Hin as (row & plugin & Hrow & Hp & ->).
  simpl in *. auto.
Qed.

(** X19. The configs that are loaded are those of a loaded plugin: there
    is a config under an id exactly when some row of the configs table has
    that id and the id of a plugin that was loaded.  A row whose plugin is
    not in the plugins table is skipped; a row without team is not. *)
Theorem config_is_loaded_iff_its_plugin_is
    (pluginRows : list Plugin.t) (attachmentRows : list PluginAttachmentDB.t)
    (configRows : list PluginConfigRow.t) (loaded : LoadedPlugins) (cid : Z) :
  (loadPluginsFromDB toLowerCase methodName (Resolved pluginRows)
     (Resolved attachmentRows) (Resolved configRows)).1 = Resolved loaded ->
  is_Some (pluginConfigs loaded !! cid)
  <-> exists row,
        row ∈ configRows
        /\ PluginConfigRow.id row = cid
        /\ is_Some (plugins loaded !! PluginConfigRow.plugin_id row).
Proof.
  intros Hload. apply load_resolved in Hload as [_ (Hconfigs & _ & _)].
  simpl in Hconfigs. rewrite Hconfigs. split.
  - intros [c Hc].
    apply last_Some_elem_of, list_elem_of_filter in Hc as [Hid Hin].
    apply built_elem_of in Hin as (row & plugin & Hrow & Hp & ->).
    exists row. simpl in Hid. rewrite Hp. eauto.
  - intros (row & Hrow & Hid & [plugin Hp]).
    apply not_eq_None_Some. intros Hnone. apply last_None in Hnone.
    assert (buildConfig methodName (loadAttachmentRows attachmentRows)
              plugin row
            ∈ filter (fun c => PluginConfigRow.id (PluginConfig.row c) = cid)
                (builtConfigs methodName (plugins loaded)
                   (loadAttachmentRows attachmentRows) configRows)) as Hin.
    { apply list_elem_of_filter. split; [exact Hid |].
      apply built_elem_of. eauto. }
    rewrite Hnone in Hin. apply elem_of_nil in Hin. exact Hin.
Qed.

(** X20. The list of a team holds the configs made from the rows of that
    team whose plugin was loaded, in the order of the rows.  A team is
    listed only when it has such a row, and never under the id [0]. *)
Theorem team_configs_follow_the_rows
    (pluginRows : list Plugin.t) (attachmentRows : list PluginAttachmentDB.t)
    (configRows : list PluginConfigRow.t) (loaded : LoadedPlugins)
    (teamId : Z) (teamConfigs : list PluginConfig.t) :
  (loadPluginsFromDB toLowerCase methodName (Resolved pluginRows)
     (Resolved attachmentRows) (Resolved configRows)).1 = Resolved loaded ->
  pluginConfigsPerTeam loaded !! teamId = Some teamConfigs ->
  teamId <> 0
  /\ teamConfigs <> []
  /\ teamConfigs
     = filter (fun c =>
                 PluginConfigRow.team_id (PluginConfig.row c) = Some teamId)
         (builtConfigs methodName (plugins loaded)
            (loadAttachmentRows attachmentRows) configRows).
Proof.
  intros Hload Ht. apply load_resolved in Hload as [_ (_ & Hteams & _)].
  simpl in Hteams. rewrite Hteams in Ht.
  destruct (filter (fun c => teamOf c = Some teamId) _)
    as [| c l] eqn:Hfilter; [discriminate |].
  injection Ht as <-.
  assert (teamId <> 0) as Hne.
  { assert (c ∈ c :: l) as Hc by apply list_elem_of_here.
    rewrite <- Hfilter in Hc. apply list_elem_of_filter in Hc as [Hc _].
    apply truthy_number_Some in Hc. tauto. }
  split; [exact Hne |]. split; [discriminate |].
  rewrite <- Hfilter. apply list_filter_iff. intros c'.
  unfold teamOf. rewrite truthy_number_Some. tauto.
Qed.

Lemma filter_none {A} (P : A -> Prop) `{forall x, Decision (P x)}
    (l : list A) :
  (forall z, z ∈ l -> ~ P z) -> filter P l = [].
Proof.
  induction l as [| y l IH]; intros Hnone; [reflexivity |].
  rewrite filter_cons_False by (apply Hnone; left).
  apply IH. intros z Hz. apply Hnone. right. exact Hz.
Qed.

Lemma filter_unique {A} (f : A -> Z) (l : list A) (x : A) :
  NoDup (f <$> l) -> x ∈ l -> filter (fun y => f y = f x) l = [x].
Proof.
  induction l as [| y l IH]; intros Hnd Hin.
  - apply elem_of_nil in Hin. contradiction.
  - rewrite fmap_cons in Hnd. apply NoDup_cons in Hnd as [Hy Hnd].
    assert (forall z, z ∈ l -> f z <> f y) as Hfresh.
    { intros z Hz Heq. apply Hy. rewrite <- Heq.
      apply list_elem_of_fmap. eauto. }
    apply elem_of_cons in Hin as [-> | Hin].
    + rewrite filter_cons_True by reflexivity. f_equal.
      apply filter_none. exact Hfresh.
    + rewrite filter_cons_False.
      * apply IH; assumption.
      * intros Heq. apply (Hfresh x Hin). symmetry. exact Heq.
Qed.

Lemma built_ids_NoDup (plugins : gmap Z Plugin.t)
    (apc : gmap (option Z) (gmap string PluginAttachment))
    (rows : list PluginConfigRow.t) :
  NoDup (PluginConfigRow.id <$> rows) ->
  NoDup ((fun c => PluginConfigRow.id (PluginConfig.row c))
           <$> builtConfigs methodName plugins apc rows).
Proof.
  induction rows as [| row rows IH]; intros Hnd; [constructor |].
  rewrite fmap_cons in Hnd. apply NoDup_cons in Hnd as [Hrow Hnd].
  unfold builtConfigs. simpl. fold (builtConfigs methodName plugins apc rows).
  unfold configOf at 1.
  destruct (plugins !! PluginConfigRow.plugin_id row) as [plugin |]; simpl;
    [| apply IH; exact Hnd].
  apply NoDup_cons. split; [| apply IH; exact Hnd].
  intros Hin. apply list_elem_of_fmap in Hin as (c & Hid & Hc).
  apply built_elem_of in Hc as (row' & plugin' & Hrow' & _ & ->).
  simpl in Hid. apply Hrow. rewrite Hid.
  apply list_elem_of_fmap. eauto.
Qed.

(** X21. When the ids of the rows of the configs table are distinct (the id
    is the primary key), the two maps of configs agree: a config listed
    under a team is the config the map of configs has under its id, and
    the row it was made of has that team. *)
Theorem team_config_is_the_config_of_its_id
    (pluginRows : list Plugin.t) (attachmentRows : list PluginAttachmentDB.t)
    (configRows : list PluginConfigRow.t) (loaded : LoadedPlugins)
    (teamId : Z) (teamConfigs : list PluginConfig.t) (c : PluginConfig.t) :
  (loadPluginsFromDB toLowerCase methodName (Resolved pluginRows)
     (Resolved attachmentRows) (Resolved configRows)).1 = Resolved loaded ->
  NoDup (PluginConfigRow.id <$> configRows) ->
  pluginConfigsPerTeam loaded !! teamId = Some teamConfigs ->
  c ∈ teamConfigs ->
  pluginConfigs loaded !! PluginConfigRow.id (PluginConfig.row c) = Some c
  /\ PluginConfigRow.team_id (PluginConfig.row c) = Some teamId.
Proof.
  intros Hload Hnd Ht Hc.
  apply load_resolved in Hload as [_ (Hconfigs & Hteams & _)].
  simpl in Hconfigs, Hteams. rewrite Hteams in Ht.
  destruct (filter (fun c => teamOf c = Some teamId) _)
    as [| c0 l] eqn:Hfilter; [discriminate |].
  injection Ht as <-. rewrite <- Hfilter in Hc.
  apply list_elem_of_filter in Hc as [Hteam Hin].
  apply truthy_number_Some in Hteam as [Hteam _].
  split; [| exact Hteam].
  rewrite Hconfigs.
  rewrite (filter_unique
             (fun c => PluginConfigRow.id (PluginConfig.row c)) _ c
             (built_ids_NoDup _ _ _ Hnd) Hin).
  reflexivity.
Qed.

(** X22. A row of a loaded plugin that has no team, or the team [0], is
    reported on the console and is listed under no team, although its
    config is made like the others. *)
Theorem config_without_team_is_listed_nowhere
    (pluginRows : list Plugin.t) (attachmentRows : list PluginAttachmentDB.t)
    (configRows : list PluginConfigRow.t) (loaded : LoadedPlugins)
    (row : PluginConfigRow.t) :
  (loadPluginsFromDB toLowerCase methodName (Resolved pluginRows)
     (Resolved attachmentRows) (Resolved configRows)).1 = Resolved loaded ->
  row ∈ configRows ->
  is_Some (plugins loaded !! PluginConfigRow.plugin_id row) ->
  PluginConfigRow.team_id row = None
  \/ PluginConfigRow.team_id row = Some 0 ->
  ConsoleError (PluginConfigRow.id row)
    ∈ (loadPluginsFromDB toLowerCase methodName (Resolved pluginRows)
         (Resolved attachmentRows) (Resolved configRows)).2
  /\ forall teamId teamConfigs c,
       pluginConfigsPerTeam loaded !! teamId = Some teamConfigs ->
       c ∈ teamConfigs ->
       PluginConfig.row c <> row.
Proof.
  intros Hload Hrow [plugin Hp] Hteam.
  assert (truthy_number (PluginConfigRow.team_id row) = None) as Hfalsy.
  { destruct Hteam as [-> | ->]; reflexivity. }
  pose proof Hload as Hres.
  apply load_resolved in Hres as [Hplugins (_ & Hteams & Hconsole)].
  simpl in Hteams, Hconsole. split.
  - rewrite load_log, <- Hplugins, Hconsole.
    do 5 apply list_elem_of_further. apply elem_of_app. left.
    apply list_elem_of_fmap.
    exists (buildConfig methodName (loadAttachmentRows attachmentRows)
              plugin row).
    split; [reflexivity |].
    apply list_elem_of_filter. split; [exact Hfalsy |].
    apply built_elem_of. eauto.
  - intros teamId teamConfigs c Ht Hc Heq. rewrite Hteams in Ht.
    destruct (filter (fun c => teamOf c = Some teamId) _)
      as [| c0 l] eqn:Hfilter; [discriminate |].
    injection Ht as <-. rewrite <- Hfilter in Hc.
    apply list_elem_of_filter in Hc as [Hsome _].
    unfold teamOf in Hsome. rewrite Heq in Hsome. congruence.
Qed.

(** X23. The attachments of a loaded config are those of the rows of the
    attachments table with its id: under each key it has the attachment of
    the last such row with that key, and no attachment when there is no
    such row.  A row with no [plugin_config_id] is attached to no config. *)
Theorem config_has_the_last_attachment_of_each_key
    (pluginRows : list Plugin.t) (attachmentRows : list PluginAttachmentDB.t)
    (configRows : list PluginConfigRow.t) (loaded : LoadedPlugins)
    (cid : Z) (c : PluginConfig.t) (k : string) :
  (loadPluginsFromDB toLowerCase methodName (Resolved pluginRows)
     (Resolved attachmentRows) (Resolved configRows)).1 = Resolved loaded ->
  pluginConfigs loaded !! cid = Some c ->
  PluginConfig.attachments c !! k
  = toAttachment
      <$> last (filter (fun row =>
                          PluginAttachmentDB.plugin_config_id row = Some cid
                          /\ PluginAttachmentDB.key row = k) attachmentRows).
Proof.
  intros Hload Hc. apply load_resolved in Hload as [_ (Hconfigs & _ & _)].
  simpl in Hconfigs. rewrite Hconfigs in Hc.
  apply last_Some_elem_of, list_elem_of_filter in Hc as [Hid Hin].
  apply built_elem_of in Hin as (row & plugin & Hrow & Hp & ->).
  simpl in *. subst cid.
  rewrite <- loadAttachmentRows_lookup.
  destruct (loadAttachmentRows attachmentRows !! Some (PluginConfigRow.id row));
    reflexivity.
Qed.

Lemma existsb_member (x : string) (l : list string) :
  existsb (fun m => bool_decide (m ∈ [x])) l = true <-> x ∈ l.
Proof.
  rewrite existsb_exists. split.
  - intros (m & Hin & Hm). apply bool_decide_eq_true in Hm.
    apply list_elem_of_singleton in Hm as ->.
    apply list_elem_of_In. exact Hin.
  - intros Hin. exists x. split; [apply list_elem_of_In; exact Hin |].
    apply bool_decide_eq_true. apply list_elem_of_here.
Qed.

(** X24. The [method] of a loaded config is chosen from the methods of the
    capabilities of its plugin: [onEvent] when they hold the name of
    [onEvent], wherever it stands in the list; else [composeWebhook] when
    they hold its name; and no method when they hold neither, or when the
    plugin has no capabilities or no methods. *)
Theorem method_prefers_onEvent
    (pluginRows : list Plugin.t) (attachmentRows : list PluginAttachmentDB.t)
    (configRows : list PluginConfigRow.t) (loaded : LoadedPlugins)
    (cid : Z) (c : PluginConfig.t) :
  (loadPluginsFromDB toLowerCase methodName (Resolved pluginRows)
     (Resolved attachmentRows) (Resolved configRows)).1 = Resolved loaded ->
  pluginConfigs loaded !! cid = Some c ->
  match Plugin.capabilities (PluginConfig.plugin c) ≫= methods with
  | None => PluginConfig.method c = None
  | Some names =>
      (methodName onEvent ∈ names -> PluginConfig.method c = Some onEvent)
      /\ (methodName onEvent ∉ names -> methodName composeWebhook ∈ names ->
          PluginConfig.method c = Some composeWebhook)
      /\ (methodName onEvent ∉ names -> methodName composeWebhook ∉ names ->
          PluginConfig.method c = None)
  end.
Proof.
  intros Hload Hc. apply load_resolved in Hload as [_ (Hconfigs & _ & _)].
  simpl in Hconfigs. rewrite Hconfigs in Hc.
  apply last_Some_elem_of, list_elem_of_filter in Hc as [Hid Hin].
  apply built_elem_of in Hin as (row & plugin & Hrow & Hp & ->).
  simpl. unfold pluginMethod.
  destruct (Plugin.capabilities plugin ≫= methods) as [names |];
    [| reflexivity].
  destruct (existsb (fun m => bool_decide (m ∈ [methodName onEvent])) names)
    eqn:Hon.
  - apply existsb_member in Hon. repeat split; intros; auto; contradiction.
  - assert (methodName onEvent ∉ names) as Hnot.
    { intros Hin. apply existsb_member in Hin. congruence. }
    destruct (existsb (fun m => bool_decide (m ∈ [methodName composeWebhook]))
                names) eqn:Hcw.
    + apply existsb_member in Hcw.
      repeat split; intros; auto; contradiction.
    + assert (methodName composeWebhook ∉ names) as Hnot'.
      { intros Hin. apply existsb_member in Hin. congruence. }
      repeat split; intros; auto; contradiction.
Qed.

End PluginLoaderProperties.

(** * More concrete runs *)

Ltac not_member :=
  let H := fresh in
  intros H;
  repeat (apply elem_of_cons in H as [H | H]; [discriminate H |]);
  apply elem_of_nil in H; exact H.

Lemma dead_letter_message_holds_the_original_event_witness :
  In (QueueMessage "plugin_server_ingest_event:prepareEventStep:x" true None)
     (trace (Demo.failingRun "prepareEventStep" Demo.boom true))
  /\ exists stage stageArgs e teamId,
       In (StepAwaited stage stageArgs (Some e))
          (trace (Demo.failingRun "prepareEventStep" Demo.boom true))
       /\ error_class e = OtherError
       /\ "plugin_server_ingest_event:prepareEventStep:x"
          = generateEventDeadLetterQueueMessage
              (Demo.scripted "prepareEventStep" Demo.boom) Demo.pageview
              (Thrown e) teamId ("plugin_server_ingest_event:" +:+ stage).
Proof.
  assert (In (QueueMessage "plugin_server_ingest_event:prepareEventStep:x"
                true None)
             (trace (Demo.failingRun "prepareEventStep" Demo.boom true)))
    as Hin by in_trace.
  split; [exact Hin |].
  destruct (dead_letter_message_holds_the_original_event
              (Demo.scripted "prepareEventStep" Demo.boom) Demo.pageview
              (Demo.runner (Demo.hubWith None true) Demo.pageview)
              _ _ _ Hin)
    as (_ & stage & stageArgs & e & teamId & Hs & Hc & Hm & _).
  exists stage, stageArgs, e, teamId. auto.
Defined.

Lemma personless_event_is_normalized_before_any_step_witness :
  runEventPipelineSteps (Scenario.nullAt "") Scenario.personless
    Scenario.runner
  = runSteps (Scenario.nullAt "")
      (normalizeProcessPerson (Scenario.nullAt "") Scenario.personless false)
      false [] (afterRouting Scenario.runner 1).
Proof.
  apply (personless_event_is_normalized_before_any_step (Scenario.nullAt "")
           Scenario.personless Scenario.runner).
  - vm_compute. reflexivity.
  - not_member.
Defined.

Lemma person_fields_reach_the_plugins_witness :
  runEventPipelineSteps (Scenario.nullAt "") Scenario.plain Scenario.runner
  = runSteps (Scenario.nullAt "") Scenario.plain true []
      (afterRouting Scenario.runner 1).
Proof.
  apply (person_fields_reach_the_plugins (Scenario.nullAt "") Scenario.plain
           Scenario.runner).
  left. vm_compute. reflexivity.
Defined.

Lemma steps_are_passed_the_process_person_flag_witness :
  last [ArgThis; ArgPluginEvent Scenario.plain; ArgDateTime 1700000000;
        ArgBool false]
  = Some (@ArgBool Z string PluginEvent.t PluginEvent.t false)
  /\ settlement_of_call (Scenario.nullAt EmptyString) Scenario.runner
       "processPersonsStep"
       [ArgThis; ArgPluginEvent Scenario.plain; ArgDateTime 1700000000;
        ArgBool false]
     = Some None.
Proof.
  apply (proj1 (steps_are_passed_the_process_person_flag
                  (Scenario.nullAt EmptyString) Scenario.plain false []
                  Scenario.runner)
           "processPersonsStep" _ None).
  in_trace.
Defined.

Lemma collected_acks_are_returned_witness :
  exists more,
    Some [ProducerAck 7; ProducerAck 1] = Some ([ProducerAck 7] ++ more)
    /\ (length more <= 1)%nat.
Proof.
  apply (collected_acks_are_returned (Scenario.nullAt "") Scenario.plain true
           [ProducerAck 7] Scenario.runner
           {| ackPromises := Some [ProducerAck 7; ProducerAck 1];
              lastStep := "createEventStep";
              args := [ArgRawClickHouseEvent Scenario.plain];
              error := None |}).
  vm_compute. reflexivity.
Defined.

Lemma failed_run_returns_no_acks_witness :
  completion (Demo.failingRun "createEventStep" Demo.boom true)
  = Normal {| ackPromises := None; lastStep := "createEventStep";
              args := []; error := Some "boom" |}.
Proof.
  apply (failed_run_returns_no_acks
           (Demo.scripted "createEventStep" Demo.boom) Demo.pageview
           (Demo.runner (Demo.hubWith None true) Demo.pageview)
           "createEventStep"
           [ArgThis; ArgPreIngestionEvent (Demo.withTeam Demo.pageview);
            ArgPerson "u1"; ArgBool true]
           Demo.boom).
  - in_trace.
  - discriminate.
Defined.

Lemma client_ingestion_warning_ends_the_main_sequence_witness :
  exists acks w,
    (length acks <= 1)%nat
    /\ alwaysSend w = true
    /\ warning_type w = "client_ingestion_warning"
    /\ In ("message", JString "too many events") (warning_details w)
    /\ completion
         (runEventPipelineSteps (Scenario.nullAt "") Scenario.clientWarning
            Scenario.runner)
       = Normal {| ackPromises := Some (acks ++ [WarningAck w]);
                   lastStep := "clientIngestionWarning";
                   args := [ArgPluginEvent Scenario.clientWarning];
                   error := None |}
    /\ awaited
         (trace
            (runEventPipelineSteps (Scenario.nullAt "")
               Scenario.clientWarning Scenario.runner)) = [].
Proof.
  apply (client_ingestion_warning_ends_the_main_sequence (Scenario.nullAt "")
           Scenario.clientWarning Scenario.runner).
  - reflexivity.
  - vm_compute. discriminate.
Defined.

Lemma plugin_drop_ends_the_main_sequence_witness :
  completion
    (runSteps (Scenario.nullAt "pluginsProcessEventStep") Scenario.plain true
       [ProducerAck 7] Scenario.runner)
  = Normal {| ackPromises := Some [ProducerAck 7];
              lastStep := "pluginsProcessEventStep";
              args := [ArgPluginEvent Scenario.plain]; error := None |}
  /\ awaited
       (trace
          (runSteps (Scenario.nullAt "pluginsProcessEventStep") Scenario.plain
             true [ProducerAck 7] Scenario.runner))
     = ["pluginsProcessEventStep"].
Proof.
  destruct (plugin_drop_ends_the_main_sequence
              (Scenario.nullAt "pluginsProcessEventStep") Scenario.plain true
              [ProducerAck 7] Scenario.runner)
    as (Hc & Ha & _).
  - discriminate.
  - reflexivity.
  - split; [exact Hc | exact Ha].
Defined.

Lemma resolved_steps_chain_to_createEventStep_witness :
  completion
    (runSteps (Scenario.nullAt "") Scenario.plain true [ProducerAck 7]
       Scenario.runner)
  = Normal {| ackPromises := Some ([ProducerAck 7] ++ [ProducerAck 1]);
              lastStep := "createEventStep";
              args := [ArgRawClickHouseEvent Scenario.plain];
              error := None |}
  /\ awaited
       (trace
          (runSteps (Scenario.nullAt "") Scenario.plain true [ProducerAck 7]
             Scenario.runner))
     = ["pluginsProcessEventStep"; "normalizeEventStep"; "processPersonsStep";
        "prepareEventStep"; "createEventStep"].
Proof.
  destruct (resolved_steps_chain_to_createEventStep (Scenario.nullAt "")
              Scenario.plain Scenario.plain Scenario.plain Scenario.plain
              1700000000 "u1" Scenario.plain Scenario.plain (ProducerAck 1)
              true [ProducerAck 7] Scenario.runner)
    as (Hc & Ha & _); try reflexivity.
  - discriminate.
  - split; [exact Hc | exact Ha].
Defined.

Lemma unresolved_team_ends_the_run_witness :
  completion
    (runEventPipeline (Scenario.nullAt "populateTeamDataStep")
       Scenario.teamTwo Scenario.runner)
  = Normal {| ackPromises := None; lastStep := "populateTeamDataStep";
              args := [ArgPipelineEvent Scenario.teamTwo]; error := None |}
  /\ awaited
       (trace
          (runEventPipeline (Scenario.nullAt "populateTeamDataStep")
             Scenario.teamTwo Scenario.runner))
     = ["populateTeamDataStep"].
Proof.
  destruct (unresolved_team_ends_the_run
              (Scenario.nullAt "populateTeamDataStep") Scenario.teamTwo
              Scenario.runner)
    as (Hc & Ha & _).
  - vm_compute. reflexivity.
  - reflexivity.
  - split; [exact Hc | exact Ha].
Defined.

Lemma token_takes_precedence_over_team_id_witness :
  Demo.dropList !! "1" = Some ["*"]
  /\ isEventDisallowed Scenario.runner Scenario.otherToken = false.
Proof.
  split; [vm_compute; reflexivity |].
  apply (token_takes_precedence_over_team_id Scenario.runner
           Scenario.otherToken "phc_other" Demo.dropList).
  - reflexivity.
  - discriminate.
  - reflexivity.
  - vm_compute. reflexivity.
Defined.

(** With the normalization of [Scenario.nullAt] the plugins see the
    personless event without its properties, and are told not to run the
    deprecated plugins. *)
Example personless_event_reaches_the_plugins_stripped :
  In (StepAwaited "pluginsProcessEventStep"
        [ArgThis;
         ArgPluginEvent
           {| PluginEvent.team_id := 1; PluginEvent.distinct_id := "u1";
              PluginEvent.event := "pageview"; PluginEvent.uuid := "x";
              PluginEvent.properties := None |};
         ArgBool false] None)
     (trace
        (runEventPipelineSteps (Scenario.nullAt "") Scenario.personless
           Scenario.runner)).
Proof. in_trace. Qed.

(** A warning queued for an invalid [$process_person] is lost to the caller
    when a later step fails: the warning is in the trace, the result has no
    [ackPromises]. *)
Example warning_ack_is_lost_when_a_step_fails :
  exists w,
    warnings
      (trace
         (runEventPipeline (Demo.scripted "normalizeEventStep" Demo.boom)
            (Demo.event None (Some 1) "pageview"
               [("$process_person", JString "yes")])
            (Demo.runner (Demo.hubWith None true) Demo.pageview))) = [w]
    /\ ackPromises
         (match
             completion
               (runEventPipeline
                  (Demo.scripted "normalizeEventStep" Demo.boom)
                  (Demo.event None (Some 1) "pageview"
                     [("$process_person", JString "yes")])
                  (Demo.runner (Demo.hubWith None true) Demo.pageview))
           with
           | Normal result => result
           | Abrupt _ =>
               {| ackPromises := Some []; lastStep := ""; args := [];
                  error := None |}
           end) = None.
Proof.
  eexists. split; vm_compute; reflexivity.
Qed.

(** * A concrete load *)

Lemma load_is_resolved :
  (loadPluginsFromDB asciiLower methodString
     (Resolved LoaderDemo.pluginRows) (Resolved LoaderDemo.attachmentRows)
     (Resolved LoaderDemo.configRows)).1 = Resolved LoaderDemo.loaded.
Proof. vm_compute. reflexivity. Qed.

Lemma loaded_plugin_is_the_last_row_of_its_id_witness :
  Plugin.skipped_for_personless (LoaderDemo.pluginAt 1) = Some true
  /\ exists row,
       last (filter (fun row => Plugin.id row = 1) LoaderDemo.pluginRows)
       = Some row
       /\ Plugin.url row
          = Some "https://github.com/PostHog/first-event-today"
       /\ Plugin.skipped_for_personless row = None.
Proof.
  split; [vm_compute; reflexivity |].
  destruct (loaded_plugin_is_the_last_row_of_its_id asciiLower methodString
              LoaderDemo.pluginRows LoaderDemo.attachmentRows
              LoaderDemo.configRows LoaderDemo.loaded 1
              (LoaderDemo.pluginAt 1) load_is_resolved)
    as (row & Hlast & _ & Hurl & _ & _).
  - vm_compute. reflexivity.
  - exists row. split; [exact Hlast |]. split.
    + rewrite <- Hurl. vm_compute. reflexivity.
    + vm_compute in Hlast. injection Hlast as <-. reflexivity.
Defined.

Lemma loaded_config_holds_its_loaded_plugin_witness :
  PluginConfig.row (LoaderDemo.configAt 10) ∈ LoaderDemo.configRows
  /\ plugins LoaderDemo.loaded !! 1
     = Some (PluginConfig.plugin (LoaderDemo.configAt 10)).
Proof.
  destruct (loaded_config_holds_its_loaded_plugin asciiLower methodString
              LoaderDemo.pluginRows LoaderDemo.attachmentRows
              LoaderDemo.configRows LoaderDemo.loaded 10
              (LoaderDemo.configAt 10) load_is_resolved)
    as (Hrow & _ & Hplugin & _).
  - vm_compute. reflexivity.
  - split; [exact Hrow | exact Hplugin].
Defined.

Lemma config_is_loaded_iff_its_plugin_is_witness :
  is_Some (pluginConfigs LoaderDemo.loaded !! 11)
  /\ ~ is_Some (pluginConfigs LoaderDemo.loaded !! 12).
Proof.
  pose proof (config_is_loaded_iff_its_plugin_is asciiLower methodString
                LoaderDemo.pluginRows LoaderDemo.attachmentRows
                LoaderDemo.configRows LoaderDemo.loaded) as Hiff.
  split.
  - apply (Hiff 11 load_is_resolved).
    exists (LoaderDemo.configRow 11 (Some 0) 2).
    split; [| split; [reflexivity | vm_compute; eauto]].
    apply list_elem_of_further, list_elem_of_here.
  - intros Hsome. apply (Hiff 12 load_is_resolved) in Hsome
      as (row & Hrow & Hid & Hplugin).
    repeat (apply elem_of_cons in Hrow as [-> | Hrow]; [try discriminate |]).
    + vm_compute in Hplugin. destruct Hplugin as [? [=]].
    + apply elem_of_nil in Hrow. exact Hrow.
Defined.

Lemma team_configs_follow_the_rows_witness :
  LoaderDemo.teamConfigs 7
  = [LoaderDemo.configAt 10; LoaderDemo.configAt 13]
  /\ LoaderDemo.teamConfigs 7
     = filter (fun c =>
                 PluginConfigRow.team_id (PluginConfig.row c) = Some 7)
         (builtConfigs methodString (plugins LoaderDemo.loaded)
            (loadAttachmentRows LoaderDemo.attachmentRows)
            LoaderDemo.configRows).
Proof.
  split; [vm_compute; reflexivity |].
  apply (team_configs_follow_the_rows asciiLower methodString
           LoaderDemo.pluginRows LoaderDemo.attachmentRows
           LoaderDemo.configRows LoaderDemo.loaded 7
           (LoaderDemo.teamConfigs 7) load_is_resolved).
  vm_compute. reflexivity.
Defined.

Lemma team_config_is_the_config_of_its_id_witness :
  pluginConfigs LoaderDemo.loaded !! 13 = Some (LoaderDemo.configAt 13)
  /\ PluginConfigRow.team_id (PluginConfig.row (LoaderDemo.configAt 13))
     = Some 7.
Proof.
  apply (team_config_is_the_config_of_its_id asciiLower methodString
           LoaderDemo.pluginRows LoaderDemo.attachmentRows
           LoaderDemo.configRows LoaderDemo.loaded 7
           (LoaderDemo.teamConfigs 7) (LoaderDemo.configAt 13)
           load_is_resolved).
  - apply (bool_decide_unpack _). vm_compute. exact I.
  - vm_compute. reflexivity.
  - assert (LoaderDemo.teamConfigs 7
            = [LoaderDemo.configAt 10; LoaderDemo.configAt 13]) as ->
      by (vm_compute; reflexivity).
    apply list_elem_of_further, list_elem_of_here.
Defined.

Lemma config_without_team_is_listed_nowhere_witness :
  ConsoleError 11
    ∈ (loadPluginsFromDB asciiLower methodString
         (Resolved LoaderDemo.pluginRows)
         (Resolved LoaderDemo.attachmentRows)
         (Resolved LoaderDemo.configRows)).2
  /\ is_Some (pluginConfigs LoaderDemo.loaded !! 11).
Proof.
  destruct (config_without_team_is_listed_nowhere asciiLower methodString
              LoaderDemo.pluginRows LoaderDemo.attachmentRows
              LoaderDemo.configRows LoaderDemo.loaded
              (LoaderDemo.configRow 11 (Some 0) 2) load_is_resolved)
    as [Hconsole _].
  - apply list_elem_of_further, list_elem_of_here.
  - vm_compute. eauto.
  - right. reflexivity.
  - split; [exact Hconsole | vm_compute; eauto].
Defined.

Lemma config_has_the_last_attachment_of_each_key_witness :
  PluginConfig.attachments (LoaderDemo.configAt 10) !! "maxmind"
  = Some {| attachment_content_type := "application/octet-stream";
            attachment_file_name := "new.mmdb";
            attachment_contents := Some "v2" |}
  /\ PluginConfig.attachments (LoaderDemo.configAt 10) !! "other" = None.
Proof.
  split.
  - rewrite (config_has_the_last_attachment_of_each_key asciiLower
               methodString LoaderDemo.pluginRows LoaderDemo.attachmentRows
               LoaderDemo.configRows LoaderDemo.loaded 10
               (LoaderDemo.configAt 10) "maxmind" load_is_resolved)
      by (vm_compute; reflexivity).
    vm_compute. reflexivity.
  - vm_compute. reflexivity.
Defined.

Lemma method_prefers_onEvent_witness :
  Plugin.capabilities (PluginConfig.plugin (LoaderDemo.configAt 10))
    ≫= methods
  = Some ["composeWebhook"; "onEvent"]
  /\ PluginConfig.method (LoaderDemo.configAt 10) = Some onEvent.
Proof.
  assert (Plugin.capabilities (PluginConfig.plugin (LoaderDemo.configAt 10))
            ≫= methods
          = Some ["composeWebhook"; "onEvent"]) as Hcaps
    by (vm_compute; reflexivity).
  split; [exact Hcaps |].
  pose proof (method_prefers_onEvent asciiLower methodString
                LoaderDemo.pluginRows LoaderDemo.attachmentRows
                LoaderDemo.configRows LoaderDemo.loaded 10
                (LoaderDemo.configAt 10) load_is_resolved) as H.
  rewrite Hcaps in H. apply H.
  - vm_compute. reflexivity.
  - apply list_elem_of_further, list_elem_of_here.
Defined.
